(** * passmanager: a shallow embedding of the vault core

    The development follows the packages of the repository:
    [internal/crypto] (key derivation and AES-GCM envelope encryption),
    [internal/storage] (the SQLite store), [pkg/generator] (random
    passwords), [pkg/manager] (the vault life cycle, record encryption
    and export/import) and, of [cmd/passmanager], the prompt that
    unlocks or creates the vault and the string helpers.

    Go strings are byte sequences and are modelled by [string]; [[]byte]
    values are [list byte], with [option] wherever the code distinguishes
    a nil slice.  Functions of the Go standard library and of third-party
    packages (AES-GCM, Argon2id, the entropy source, the JSON syntax, the
    SQL query engine) are the fields of the class [Extern]; what the
    theorems need of them is stated as explicit hypotheses. *)

From Stdlib Require Import ZArith List Bool Ascii String Lia.
From Stdlib Require Import Strings.Byte.
From stdpp Require Import base option list gmap strings pretty.

Import ListNotations.
Set Warnings "-register-all".
Local Open Scope Z_scope.
Local Open Scope string_scope.

(** ** Basic data *)

Abbreviation bytes := (list byte).

(** Go's [[]byte(s)] and [string(b)]. *)
Definition bytes_of_string (s : string) : bytes := list_byte_of_string s.
Definition string_of_bytes (b : bytes) : string := string_of_list_byte b.

(** A possibly-nil slice passed where only its contents matter. *)
Definition slice_contents (b : option bytes) : bytes := default [] b.

(** Go's [error] values.  [errors_New] carries the message of
    [errors.New]; [fmt_Errorf] is wrapping with the [%w] verb; the
    remaining constructors are the errors of the libraries. *)
Inductive error : Type :=
| errors_New (msg : string)
| fmt_Errorf (msg : string) (cause : error)
| aes_KeySizeError (n : nat)
| cipher_errOpen
| io_ErrUnexpectedEOF
| rand_error
| sql_ErrNoRows
| sql_error (msg : string)
| json_error
| base64_CorruptInputError
| os_error (path : string)
| runtime_panic (msg : string).

Inductive result (A : Type) : Type :=
| Ok (a : A)
| Err (e : error).
Arguments Ok {A} a.
Arguments Err {A} e.

Definition is_Ok {A} (r : result A) : bool :=
  match r with Ok _ => true | Err _ => false end.

Definition returned {A} (r : result A) : option A :=
  match r with Ok a => Some a | Err _ => None end.

(** The names the specification gives to the two errors of the manager. *)
Definition NotUnlocked : error := errors_New "password manager not initialized".
Definition InvalidCredential : error := errors_New "invalid master password".

(** ** State and error monad

    A computation reads and updates a state [S] and returns a value or an
    error; after an error the rest of the function body is skipped, the
    state keeps the updates made so far. *)
Definition M (S A : Type) : Type := S -> result A * S.

Definition ret {S A} (a : A) : M S A := fun s => (Ok a, s).
Definition fail {S A} (e : error) : M S A := fun s => (Err e, s).
Definition bind {S A B} (m : M S A) (k : A -> M S B) : M S B :=
  fun s => match m s with
           | (Ok a, s') => k a s'
           | (Err e, s') => (Err e, s')
           end.
Definition modify {S} (f : S -> S) : M S unit := fun s => (Ok tt, f s).
Definition lift_result {S A} (r : result A) : M S A := fun s => (r, s).

(** [wrap msg m] is [if err != nil { return fmt.Errorf(msg+": %w", err) }]. *)
Definition wrap {S A} (msg : string) (m : M S A) : M S A :=
  fun s => match m s with
           | (Ok a, s') => (Ok a, s')
           | (Err e, s') => (Err (fmt_Errorf msg e), s')
           end.

Declare Scope go_scope.
Delimit Scope go_scope with go.
Notation "x <- m ;; k" := (bind m (fun x => k))
  (at level 62, m at next level, right associativity) : go_scope.
Local Open Scope go_scope.

(** ** SQL values and the database *)

Inductive SqlValue : Type :=
| SNull
| SInt (z : Z)
| SReal (lit : string)
| SText (s : string)
| SBlob (b : bytes).

(** One row of the [passwords] table (part_001, [initializeSchema]). *)
Record Row : Type := mkRow {
  col_id : Z;
  col_title : SqlValue;
  col_url : SqlValue;
  col_username : SqlValue;
  col_password : SqlValue;
  col_notes : SqlValue;
  col_category : SqlValue;
  col_created_at : SqlValue;
  col_updated_at : SqlValue
}.

(** The database file: the [config] table, the [passwords] table in rowid
    order, and the AUTOINCREMENT counter that SQLite keeps for it. *)
Record DB : Type := mkDB {
  config : gmap string SqlValue;
  passwords : list Row;
  passwords_seq : Z
}.

(** What the program does to the outside world. *)
Inductive IOEvent : Type :=
| SqlExec (stmt : string)
| SqlQuery (stmt : string)
| TxBegin
| TxCommit
| TxRollback
| FileWrite (path : string)
| FileRead (path : string).

(** The world outside the manager object: the database, the file system,
    the wall clock, the number of draws made from the entropy source, and
    the log of storage and file operations. *)
Record World : Type := mkWorld {
  db : DB;
  files : gmap string string;
  now : Z;
  rand_calls : nat;
  io_log : list IOEvent
}.

Definition set_db (d : DB) (w : World) : World :=
  mkWorld d (files w) (now w) (rand_calls w) (io_log w).
Definition set_files (f : gmap string string) (w : World) : World :=
  mkWorld (db w) f (now w) (rand_calls w) (io_log w).
Definition tick_rand (w : World) : World :=
  mkWorld (db w) (files w) (now w) (S (rand_calls w)) (io_log w).
Definition log_io (ev : IOEvent) (w : World) : World :=
  mkWorld (db w) (files w) (now w) (rand_calls w) (io_log w ++ [ev])%list.

(** ** JSON documents and Go's dynamically typed values *)

Inductive json : Type :=
| JNull
| JBool (b : bool)
| JNum (lit : string)
| JStr (s : string)
| JArr (elems : list json)
| JObj (members : list (string * json)).

(** The values that occur behind [interface{}] in the export and import
    records. *)
Inductive GoVal : Type :=
| VNil
| VBool (b : bool)
| VInt64 (z : Z)
| VFloat64 (lit : string)
| VString (s : string)
| VBytes (b : option bytes)
| VSlice (elems : list GoVal)
| VMap (members : list (string * GoVal)).

(** ** External packages *)

Class Extern : Type := {
  (** [rand.Reader]: the outcome of the [i]-th draw, asked for [n] bytes. *)
  rand_Read : nat -> nat -> option bytes;
  (** [rand.Int(rand.Reader, max)]: the outcome of the [i]-th draw. *)
  rand_Int : nat -> Z -> option Z;
  (** [cipher.AEAD.Seal] and [Open] of AES-GCM: key, nonce, text,
      additional data. *)
  gcm_Seal : bytes -> bytes -> bytes -> bytes -> bytes;
  gcm_Open : bytes -> bytes -> bytes -> bytes -> option bytes;
  (** [argon2.IDKey password salt time memory threads keyLen]. *)
  argon2_IDKey : bytes -> bytes -> Z -> Z -> Z -> nat -> bytes;
  (** The text of a JSON document as [json.Marshal] writes it, and the
      parser of [json.Unmarshal]. *)
  json_text : json -> string;
  json_parse : string -> option json;
  (** [json.Marshal] replaces invalid UTF-8 in strings. *)
  utf8_coerce : string -> string;
  (** SQLite running a SELECT given as text with its arguments. *)
  sqlite_Query : DB -> string -> list SqlValue -> result (list (list SqlValue));
  (** The driver's rendering of a TIMESTAMP column into a Go string. *)
  timestamp_text : string -> string;
  (** SQLite's CURRENT_TIMESTAMP for a clock value. *)
  current_timestamp : Z -> string;
  (** [time.Parse(time.RFC3339, s)]. *)
  time_Parse_RFC3339 : string -> option Z;
  (** What goes wrong in [os.WriteFile name data]: nothing ([None]); the
      file cannot be opened and nothing is written (an error and
      [None]); or the write fails after the file has been truncated and
      [n] bytes have been written (an error and [Some n]). *)
  os_WriteFile_fault : string -> string -> option (error * option nat)
}.

(** ** Package crypto *)

Module crypto.
Section crypto.
Context `{Extern}.

(** argon.go: the Argon2 parameters. *)
Definition argonTime : Z := 3.
Definition argonMemory : Z := 64 * 1024.
Definition argonThreads : Z := 4.
Definition argonKeyLen : nat := 32.

(** argon.go: [DeriveKey]. *)
Definition DeriveKey (password : string) (salt : bytes) : result bytes :=
  let key := argon2_IDKey (bytes_of_string password) salt
               argonTime argonMemory argonThreads argonKeyLen in
  Ok key.

(** [aes.NewCipher]: the key must have 16, 24 or 32 bytes.  The block is
    represented by its key. *)
Definition aes_NewCipher (key : bytes) : result bytes :=
  match length key with
  | 16%nat | 24%nat | 32%nat => Ok key
  | n => Err (aes_KeySizeError n)
  end.

(** [gcm.NonceSize()] of the standard GCM mode. *)
Definition gcm_NonceSize : nat := 12.

(** [io.ReadFull(rand.Reader, buf)] for a buffer of [n] bytes: anything
    but exactly [n] bytes is an error. *)
Definition io_ReadFull_rand (n : nat) : M World bytes :=
  fun w =>
    match rand_Read (rand_calls w) n with
    | Some b =>
        if Nat.eqb (length b) n then (Ok b, tick_rand w)
        else (Err io_ErrUnexpectedEOF, tick_rand w)
    | None => (Err rand_error, tick_rand w)
    end.

(** part_003: [Encrypt]. *)
Definition Encrypt (plaintext : string) (key : bytes) : M World bytes :=
  block <- lift_result (aes_NewCipher key) ;;
  nonce <- io_ReadFull_rand gcm_NonceSize ;;
  (* gcm.Seal(nonce, nonce, []byte(plaintext), nil) appends to nonce *)
  ret (nonce ++ gcm_Seal block nonce (bytes_of_string plaintext) [])%list.

(** part_003: [Decrypt]. *)
Definition Decrypt (ciphertext : bytes) (key : bytes) : result string :=
  match aes_NewCipher key with
  | Err e => Err e
  | Ok block =>
      if Nat.ltb (length ciphertext) gcm_NonceSize
      then Err (errors_New "ciphertext too short")
      else
        let nonce := firstn gcm_NonceSize ciphertext in
        let ciphertext := skipn gcm_NonceSize ciphertext in
        match gcm_Open block nonce ciphertext [] with
        | None => Err cipher_errOpen
        | Some plaintext => Ok (string_of_bytes plaintext)
        end
  end.

(** part_003: [GenerateSalt]. *)
Definition GenerateSalt : M World bytes := io_ReadFull_rand 16.

(** part_003: [VerifyKey]; the error it returns is always nil. *)
Definition VerifyKey (key : bytes) (testVector : option bytes) : result bool :=
  match Decrypt (slice_contents testVector) key with
  | Ok _ => Ok true
  | Err _ => Ok false
  end.

End crypto.
End crypto.

(** ** Package models (part_002) *)

Module models.

Record PasswordEntry : Type := mkPasswordEntry {
  ID : Z;
  Title : string;
  URL : string;
  Username : string;
  Password : string;
  Notes : string;
  Category : string;
  CreatedAt : Z;
  LastUpdated : Z
}.

Definition set_Password (p : string) (e : PasswordEntry) : PasswordEntry :=
  mkPasswordEntry (ID e) (Title e) (URL e) (Username e) p (Notes e)
    (Category e) (CreatedAt e) (LastUpdated e).
Definition set_Notes (n : string) (e : PasswordEntry) : PasswordEntry :=
  mkPasswordEntry (ID e) (Title e) (URL e) (Username e) (Password e) n
    (Category e) (CreatedAt e) (LastUpdated e).

(** The field [Category] of the source is [SearchCategory] here, the
    name being taken by the field of [PasswordEntry]. *)
Record SearchParams : Type := mkSearchParams {
  Keyword : string;
  SearchCategory : string;
  SortBy : string;
  SortDesc : bool;
  Limit : Z;
  Offset : Z
}.

End models.

(** ** Package storage (part_000, part_001)

    SQL texts are written on one line, without the line breaks and the
    indentation of the source.  A statement fails when a constraint or a
    conversion fails; a database that cannot be written at all (a full
    disk, a lock that is held) is not represented, so the error that
    [SaveSalt] and [SaveTestVector] pass on is never raised here. *)

Module storage.
Import models.

(** *** Conversions of [database/sql] *)

(** [Scan] into a [[]byte]: NULL gives a nil slice, text gives its
    bytes. *)
Definition scan_bytes (v : SqlValue) : option bytes :=
  match v with
  | SNull => None
  | SInt z => Some (bytes_of_string (pretty z))
  | SReal lit => Some (bytes_of_string lit)
  | SText s => Some (bytes_of_string s)
  | SBlob b => Some b
  end.

(** [Scan] into a [string]: NULL is an error. *)
Definition scan_string (v : SqlValue) : result string :=
  match v with
  | SNull => Err (sql_error "converting NULL to string is unsupported")
  | SInt z => Ok (pretty z)
  | SReal lit => Ok lit
  | SText s => Ok s
  | SBlob b => Ok (string_of_bytes b)
  end.

(** [Scan] into an [int64].  The id column of this table holds integers
    only; text that spells an integer is not converted here. *)
Definition scan_int64 (v : SqlValue) : result Z :=
  match v with
  | SInt z => Ok z
  | SNull => Err (sql_error "converting NULL to int64 is unsupported")
  | _ => Err (sql_error "converting driver.Value type to a int64")
  end.

(** Binding of a [[]byte] argument: a nil slice is NULL. *)
Definition bind_bytes (b : option bytes) : SqlValue :=
  match b with
  | None => SNull
  | Some b => SBlob b
  end.

(** Binding of an [interface{}] argument of [Exec]: slices and maps of
    interfaces are refused by [database/sql]. *)
Definition bind_arg (v : GoVal) : result SqlValue :=
  match v with
  | VNil => Ok SNull
  | VBool b => Ok (SInt (if b then 1 else 0))
  | VInt64 z => Ok (SInt z)
  | VFloat64 lit => Ok (SReal lit)
  | VString s => Ok (SText s)
  | VBytes b => Ok (bind_bytes b)
  | VSlice _ => Err (sql_error "unsupported type []interface {}, a slice of interface")
  | VMap _ => Err (sql_error "unsupported type map[string]interface {}, a map")
  end.

(** A column declared TEXT stores numbers as their text; a REAL keeps
    the spelling of its JSON literal here, where SQLite writes the
    number anew.  (The NUMERIC affinity of the TIMESTAMP columns, which
    turns text that spells a number into that number, is not
    represented.) *)
Definition text_affinity (v : SqlValue) : SqlValue :=
  match v with
  | SInt z => SText (pretty z)
  | SReal lit => SText lit
  | v => v
  end.

(** *** The tables *)

Definition max_id (rows : list Row) : Z :=
  fold_right (fun r m => Z.max (col_id r) m) 0 rows.

(** AUTOINCREMENT: one more than the largest rowid that the table holds
    or has ever held. *)
Definition next_rowid (d : DB) : Z :=
  1 + Z.max (passwords_seq d) (max_id (passwords d)).

(** INSERT INTO passwords (title, url, username, password, notes,
    category, created_at, updated_at): [title] is NOT NULL, the row gets
    the next rowid. *)
Definition insert_password
    (title url username password notes category created updated : SqlValue)
    (d : DB) : result (Z * DB) :=
  match text_affinity title with
  | SNull => Err (sql_error "NOT NULL constraint failed: passwords.title")
  | title' =>
      let id := next_rowid d in
      let r := mkRow id title' (text_affinity url) (text_affinity username)
                 password notes (text_affinity category) created updated in
      Ok (id, mkDB (config d) (passwords d ++ [r])%list id)
  end.

Definition find_password (id : Z) (d : DB) : option Row :=
  List.find (fun r => Z.eqb (col_id r) id) (passwords d).

Section storage.
Context `{Extern}.

(** [Scan] of a TIMESTAMP column into a [string]. *)
Definition scan_time (v : SqlValue) : result string :=
  match v with
  | SNull => Err (sql_error "converting NULL to string is unsupported")
  | SInt z => Ok (timestamp_text (pretty z))
  | SReal lit => Ok lit
  | SText s => Ok (timestamp_text s)
  | SBlob b => Ok (string_of_bytes b)
  end.

(** [t, _ := time.Parse(time.RFC3339, s)]: the error is dropped and the
    zero time is kept. *)
Definition parse_time (s : string) : Z := default 0 (time_Parse_RFC3339 s).

(** [GetSalt]. *)
Definition GetSalt : M World (option bytes) :=
  fun w =>
    let w := log_io (SqlQuery "SELECT value FROM config WHERE key = 'salt'") w in
    match config (db w) !! "salt" with
    | None =>
        (Err (errors_New "no salt found, please create a master password first"), w)
    | Some v => (Ok (scan_bytes v), w)
    end.

(** [SaveSalt]. *)
Definition SaveSalt (salt : option bytes) : M World unit :=
  fun w =>
    let w := log_io (SqlExec "INSERT OR REPLACE INTO config (key, value) VALUES (?, ?)") w in
    let d := db w in
    (Ok tt, set_db (mkDB (<["salt" := bind_bytes salt]> (config d))
                      (passwords d) (passwords_seq d)) w).

(** [GetTestVector]: no row is not an error. *)
Definition GetTestVector : M World (option bytes) :=
  fun w =>
    let w := log_io (SqlQuery "SELECT value FROM config WHERE key = 'test_vector'") w in
    match config (db w) !! "test_vector" with
    | None => (Ok None, w)
    | Some v => (Ok (scan_bytes v), w)
    end.

(** [SaveTestVector]. *)
Definition SaveTestVector (vector : option bytes) : M World unit :=
  fun w =>
    let w := log_io (SqlExec "INSERT OR REPLACE INTO config (key, value) VALUES (?, ?)") w in
    let d := db w in
    (Ok tt, set_db (mkDB (<["test_vector" := bind_bytes vector]> (config d))
                      (passwords d) (passwords_seq d)) w).

Definition insert_sql : string :=
  "INSERT INTO passwords (title, url, username, password, notes, category, created_at, updated_at) VALUES (?, ?, ?, ?, ?, ?, CURRENT_TIMESTAMP, CURRENT_TIMESTAMP)".

(** [AddPassword]; [result.LastInsertId()] is the rowid of the new row. *)
Definition AddPassword (entry : PasswordEntry) (encPassword encNotes : option bytes)
    : M World Z :=
  fun w =>
    let w := log_io (SqlExec insert_sql) w in
    let ts := SText (current_timestamp (now w)) in
    match insert_password (SText (Title entry)) (SText (URL entry))
            (SText (Username entry)) (bind_bytes encPassword)
            (bind_bytes encNotes) (SText (Category entry)) ts ts (db w) with
    | Err e => (Err e, w)
    | Ok (id, d) => (Ok id, set_db d w)
    end.

Definition select_by_id_sql : string :=
  "SELECT id, title, url, username, password, notes, category, created_at, updated_at FROM passwords WHERE id = ?".

(** The [Scan] call of [GetPassword], destination by destination. *)
Definition scan_full_row (r : Row)
    : result (PasswordEntry * option bytes * option bytes) :=
  match scan_string (col_title r) with Err e => Err e | Ok title =>
  match scan_string (col_url r) with Err e => Err e | Ok url =>
  match scan_string (col_username r) with Err e => Err e | Ok username =>
  let encPassword := scan_bytes (col_password r) in
  let encNotes := scan_bytes (col_notes r) in
  match scan_string (col_category r) with Err e => Err e | Ok category =>
  match scan_time (col_created_at r) with Err e => Err e | Ok createdAt =>
  match scan_time (col_updated_at r) with Err e => Err e | Ok updatedAt =>
    Ok (mkPasswordEntry (col_id r) title url username "" "" category
          (parse_time createdAt) (parse_time updatedAt),
        encPassword, encNotes)
  end end end end end end.

(** [GetPassword]. *)
Definition GetPassword (id : Z)
    : M World (PasswordEntry * option bytes * option bytes) :=
  fun w =>
    let w := log_io (SqlQuery select_by_id_sql) w in
    match find_password id (db w) with
    | None => (Err sql_ErrNoRows, w)
    | Some r => (scan_full_row r, w)
    end.

(** The [Scan] call of the listing loops: seven columns into a fresh
    entry whose [Password] and [Notes] are never assigned. *)
Definition scan_listing_row (cols : list SqlValue) : result PasswordEntry :=
  match cols with
  | [c_id; c_title; c_url; c_username; c_category; c_created; c_updated] =>
      match scan_int64 c_id with Err e => Err e | Ok id =>
      match scan_string c_title with Err e => Err e | Ok title =>
      match scan_string c_url with Err e => Err e | Ok url =>
      match scan_string c_username with Err e => Err e | Ok username =>
      match scan_string c_category with Err e => Err e | Ok category =>
      match scan_time c_created with Err e => Err e | Ok createdAt =>
      match scan_time c_updated with Err e => Err e | Ok updatedAt =>
        Ok (mkPasswordEntry id title url username "" "" category
              (parse_time createdAt) (parse_time updatedAt))
      end end end end end end end
  | _ => Err (sql_error "expected 7 destination arguments in Scan")
  end.

(** [for rows.Next() { ... entries = append(entries, entry) }]. *)
Fixpoint scan_listing (rows : list (list SqlValue)) : result (list PasswordEntry) :=
  match rows with
  | [] => Ok []
  | cols :: rest =>
      match scan_listing_row cols with
      | Err e => Err e
      | Ok entry =>
          match scan_listing rest with
          | Err e => Err e
          | Ok entries => Ok (entry :: entries)
          end
      end
  end.

Definition select_all_sql : string :=
  "SELECT id, title, url, username, category, created_at, updated_at FROM passwords ORDER BY title".

(** [GetAllPasswords]. *)
Definition GetAllPasswords : M World (list PasswordEntry) :=
  fun w =>
    let w := log_io (SqlQuery select_all_sql) w in
    match sqlite_Query (db w) select_all_sql [] with
    | Err e => (Err e, w)
    | Ok rows => (scan_listing rows, w)
    end.

(** [UpdatePassword]: every row with the id is rewritten; no row is not
    an error. *)
Definition UpdatePassword (entry : PasswordEntry) (encPassword encNotes : option bytes)
    : M World unit :=
  fun w =>
    let w := log_io (SqlExec "UPDATE passwords SET title = ?, url = ?, username = ?, password = ?, notes = ?, category = ?, updated_at = CURRENT_TIMESTAMP WHERE id = ?") w in
    let d := db w in
    let upd (r : Row) : Row :=
      if Z.eqb (col_id r) (ID entry)
      then mkRow (col_id r) (SText (Title entry)) (SText (URL entry))
             (SText (Username entry)) (bind_bytes encPassword)
             (bind_bytes encNotes) (SText (Category entry))
             (col_created_at r) (SText (current_timestamp (now w)))
      else r in
    (Ok tt, set_db (mkDB (config d) (List.map upd (passwords d)) (passwords_seq d)) w).

(** [DeletePassword]. *)
Definition DeletePassword (id : Z) : M World unit :=
  fun w =>
    let w := log_io (SqlExec "DELETE FROM passwords WHERE id = ?") w in
    let d := db w in
    (Ok tt, set_db (mkDB (config d)
                      (List.filter (fun r => negb (Z.eqb (col_id r) id)) (passwords d))
                      (passwords_seq d)) w).

(** The query text and the arguments that [SearchPasswords] builds. *)
Definition search_query (params : SearchParams) : string * list SqlValue :=
  let query := "SELECT id, title, url, username, category, created_at, updated_at FROM passwords WHERE 1=1" in
  let args : list SqlValue := [] in
  let '(query, args) :=
    if negb (String.eqb (Keyword params) "") then
      let searchTerm := "%" ++ Keyword params ++ "%" in
      (query ++ " AND (title LIKE ? OR url LIKE ? OR username LIKE ?)",
       (args ++ [SText searchTerm; SText searchTerm; SText searchTerm])%list)
    else (query, args) in
  let '(query, args) :=
    if negb (String.eqb (SearchCategory params) "") then
      (query ++ " AND category = ?", (args ++ [SText (SearchCategory params)])%list)
    else (query, args) in
  let query :=
    if negb (String.eqb (SortBy params) "") then
      let query := query ++ " ORDER BY " ++ SortBy params in
      if SortDesc params then query ++ " DESC" else query ++ " ASC"
    else query ++ " ORDER BY title ASC" in
  if Z.ltb 0 (Limit params) then
    let query := query ++ " LIMIT ?" in
    let args := (args ++ [SInt (Limit params)])%list in
    if Z.ltb 0 (Offset params) then
      (query ++ " OFFSET ?", (args ++ [SInt (Offset params)])%list)
    else (query, args)
  else (query, args).

(** [SearchPasswords].  The text goes to [db.Query], taken here as one
    SELECT statement, which leaves the database as it is.  The sort key
    is part of that text: a sort key that is not a column name, and
    that could carry a statement of its own, is not represented. *)
Definition SearchPasswords (params : SearchParams) : M World (list PasswordEntry) :=
  fun w =>
    let '(query, args) := search_query params in
    let w := log_io (SqlQuery query) w in
    match sqlite_Query (db w) query args with
    | Err e => (Err e, w)
    | Ok rows => (scan_listing rows, w)
    end.

(** The [Scan] call and the map literal of [ExportData]. *)
Definition export_row (r : Row) : result (gmap string GoVal) :=
  match scan_string (col_title r) with Err e => Err e | Ok title =>
  match scan_string (col_url r) with Err e => Err e | Ok url =>
  match scan_string (col_username r) with Err e => Err e | Ok username =>
  let password := scan_bytes (col_password r) in
  let notes := scan_bytes (col_notes r) in
  match scan_string (col_category r) with Err e => Err e | Ok category =>
  match scan_time (col_created_at r) with Err e => Err e | Ok createdAt =>
  match scan_time (col_updated_at r) with Err e => Err e | Ok updatedAt =>
    Ok (<["id" := VInt64 (col_id r)]>
        (<["title" := VString title]>
        (<["url" := VString url]>
        (<["username" := VString username]>
        (<["password" := VBytes password]>
        (<["notes" := VBytes notes]>
        (<["category" := VString category]>
        (<["created_at" := VString createdAt]>
        (<["updated_at" := VString updatedAt]> ∅)))))))))
  end end end end end end.

Fixpoint export_rows (rows : list Row) : result (list (gmap string GoVal)) :=
  match rows with
  | [] => Ok []
  | r :: rest =>
      match export_row r with
      | Err e => Err e
      | Ok entry =>
          match export_rows rest with
          | Err e => Err e
          | Ok entries => Ok (entry :: entries)
          end
      end
  end.

(** [ExportData]: every row of the table, in rowid order. *)
Definition ExportData : M World (list (gmap string GoVal)) :=
  fun w =>
    let w := log_io (SqlQuery "SELECT id, title, url, username, password, notes, category, created_at, updated_at FROM passwords") w in
    (export_rows (passwords (db w)), w).

Definition import_sql : string :=
  "INSERT INTO passwords (title, url, username, password, notes, category, created_at, updated_at) VALUES (?, ?, ?, ?, ?, ?, ?, ?)".

(** [entry[key]]: a missing key gives the nil interface. *)
Definition index (entry : gmap string GoVal) (key : string) : GoVal :=
  default VNil (entry !! key).

(** One [stmt.Exec] of the import loop: the eight arguments are
    converted first, then the row is inserted. *)
Definition import_exec (entry : gmap string GoVal) : M World unit :=
  fun w =>
    let w := log_io (SqlExec import_sql) w in
    match bind_arg (index entry "title") with Err e => (Err e, w) | Ok title =>
    match bind_arg (index entry "url") with Err e => (Err e, w) | Ok url =>
    match bind_arg (index entry "username") with Err e => (Err e, w) | Ok username =>
    match bind_arg (index entry "password") with Err e => (Err e, w) | Ok password =>
    match bind_arg (index entry "notes") with Err e => (Err e, w) | Ok notes =>
    match bind_arg (index entry "category") with Err e => (Err e, w) | Ok category =>
    match bind_arg (index entry "created_at") with Err e => (Err e, w) | Ok created =>
    match bind_arg (index entry "updated_at") with Err e => (Err e, w) | Ok updated =>
      match insert_password title url username password notes category
              created updated (db w) with
      | Err e => (Err e, w)
      | Ok (_, d) => (Ok tt, set_db d w)
      end
    end end end end end end end end.

(** [for _, entry := range entries { _, err = stmt.Exec(...) ... }]. *)
Fixpoint import_loop (entries : list (gmap string GoVal)) : M World unit :=
  match entries with
  | [] => ret tt
  | entry :: rest => _ <- import_exec entry ;; import_loop rest
  end.

(** [ImportData].  The statements of the transaction work on the
    database of the connection; [tx.Rollback()], which the deferred
    function calls when [err] is not nil, puts back the state at
    [db.Begin()]. *)
Definition ImportData (entries : list (gmap string GoVal)) : M World unit :=
  fun w =>
    let w := log_io TxBegin w in
    let at_begin := db w in
    match import_loop entries w with
    | (Err e, w') => (Err e, log_io TxRollback (set_db at_begin w'))
    | (Ok _, w') => (Ok tt, log_io TxCommit w')
    end.

End storage.
End storage.

(** ** encoding/base64: [StdEncoding]

    The standard alphabet with [=] padding.  Three bytes make four
    sextets; a rest of one or two bytes is padded. *)

Module base64.

Definition alphabet : string :=
  "ABCDEFGHIJKLMNOPQRSTUVWXYZabcdefghijklmnopqrstuvwxyz0123456789+/".

Definition pad : ascii := "="%char.

Definition sextet_char (n : N) : ascii :=
  default pad (String.get (N.to_nat n) alphabet).

Fixpoint index_from (i : N) (c : ascii) (s : string) : option N :=
  match s with
  | EmptyString => None
  | String a rest => if Ascii.eqb a c then Some i else index_from (N.succ i) c rest
  end.

Definition char_sextet (c : ascii) : option N := index_from 0%N c alphabet.

Definition byte_of_N (n : N) : byte := default Byte.x00 (Byte.of_N n).

Local Open Scope N_scope.

Fixpoint EncodeToString (src : bytes) : string :=
  match src with
  | [] => ""
  | [a] =>
      let x := Byte.to_N a in
      String (sextet_char (x / 4))
        (String (sextet_char (x mod 4 * 16)) (String pad (String pad "")))
  | [a; b] =>
      let x := Byte.to_N a in
      let y := Byte.to_N b in
      String (sextet_char (x / 4))
        (String (sextet_char (x mod 4 * 16 + y / 16))
           (String (sextet_char (y mod 16 * 4)) (String pad "")))
  | a :: b :: c :: rest =>
      let x := Byte.to_N a in
      let y := Byte.to_N b in
      let z := Byte.to_N c in
      String (sextet_char (x / 4))
        (String (sextet_char (x mod 4 * 16 + y / 16))
           (String (sextet_char (y mod 16 * 4 + z / 64))
              (String (sextet_char (z mod 64)) (EncodeToString rest))))
  end.

(** The decoder skips carriage returns and line feeds. *)
Definition is_newline (c : ascii) : bool :=
  Ascii.eqb c "010"%char || Ascii.eqb c "013"%char.

Fixpoint strip_newlines (s : string) : string :=
  match s with
  | EmptyString => EmptyString
  | String c rest =>
      if is_newline c then strip_newlines rest else String c (strip_newlines rest)
  end.

Fixpoint decode_quanta (s : string) : option bytes :=
  match s with
  | EmptyString => Some []
  | String c0 (String c1 (String c2 (String c3 rest))) =>
      match char_sextet c0, char_sextet c1 with
      | Some s0, Some s1 =>
          let b0 := byte_of_N (s0 * 4 + s1 / 16) in
          if Ascii.eqb c3 pad then
            match rest with
            | EmptyString =>
                if Ascii.eqb c2 pad then Some [b0]
                else
                  match char_sextet c2 with
                  | Some s2 => Some [b0; byte_of_N (s1 mod 16 * 16 + s2 / 4)]
                  | None => None
                  end
            | _ => None
            end
          else
            match char_sextet c2, char_sextet c3, decode_quanta rest with
            | Some s2, Some s3, Some tl =>
                Some (b0 :: byte_of_N (s1 mod 16 * 16 + s2 / 4)
                         :: byte_of_N (s2 mod 4 * 64 + s3) :: tl)
            | _, _, _ => None
            end
      | _, _ => None
      end
  | _ => None
  end.

Definition DecodeString (s : string) : result bytes :=
  match decode_quanta (strip_newlines s) with
  | Some b => Ok b
  | None => Err base64_CorruptInputError
  end.

End base64.

(** ** encoding/json: how Go values become JSON and come back

    [Marshal] writes a [[]byte] as the base64 text of its bytes and a nil
    slice as [null]; [Unmarshal] into an [interface{}] gives a [string]
    for every JSON string, a [float64] for every number, nil for
    [null]. *)

Module encoding_json.
Section encoding_json.
Context `{Extern}.

Fixpoint marshal_value (v : GoVal) : json :=
  match v with
  | VNil => JNull
  | VBool b => JBool b
  | VInt64 z => JNum (pretty z)
  | VFloat64 lit => JNum lit
  | VString s => JStr (utf8_coerce s)
  | VBytes None => JNull
  | VBytes (Some b) => JStr (base64.EncodeToString b)
  | VSlice elems => JArr (List.map marshal_value elems)
  | VMap members =>
      JObj (List.map (fun kv => (utf8_coerce (fst kv), marshal_value (snd kv))) members)
  end.

(** A map as a JSON object.  Go writes the members sorted by key; here
    they come in the order of [map_to_list], and [Unmarshal] does not
    depend on the order. *)
Definition marshal_object (m : gmap string GoVal) : json :=
  JObj (prod_map id marshal_value <$> map_to_list m).

(** The document for a [[]map[string]interface{}]; the nil slice that
    [ExportData] returns for an empty table is [null]. *)
Definition marshal_entries (entries : list (gmap string GoVal)) : json :=
  match entries with
  | [] => JNull
  | _ => JArr (List.map marshal_object entries)
  end.

(** [json.Marshal(entries)]. *)
Definition Marshal (entries : list (gmap string GoVal)) : result string :=
  Ok (json_text (marshal_entries entries)).

Fixpoint unmarshal_value (j : json) : GoVal :=
  match j with
  | JNull => VNil
  | JBool b => VBool b
  | JNum lit => VFloat64 lit
  | JStr s => VString s
  | JArr elems => VSlice (List.map unmarshal_value elems)
  | JObj members =>
      VMap (List.map (fun kv => (fst kv, unmarshal_value (snd kv))) members)
  end.

(** An element of the array must be an object or [null] (a nil map); of
    a repeated key the last member counts. *)
Definition unmarshal_object (j : json) : result (gmap string GoVal) :=
  match j with
  | JNull => Ok ∅
  | JObj members =>
      Ok (list_to_map (reverse (prod_map id unmarshal_value <$> members)))
  | _ => Err json_error
  end.

Fixpoint unmarshal_objects (elems : list json) : result (list (gmap string GoVal)) :=
  match elems with
  | [] => Ok []
  | j :: rest =>
      match unmarshal_object j with
      | Err e => Err e
      | Ok m =>
          match unmarshal_objects rest with
          | Err e => Err e
          | Ok ms => Ok (m :: ms)
          end
      end
  end.

(** [json.Unmarshal([]byte(text), &entries)] for
    [entries []map[string]interface{}]. *)
Definition Unmarshal (text : string) : result (list (gmap string GoVal)) :=
  match json_parse text with
  | None => Err json_error
  | Some JNull => Ok []
  | Some (JArr elems) => unmarshal_objects elems
  | Some _ => Err json_error
  end.

End encoding_json.
End encoding_json.

(** ** Package generator (pkg/generator/generator.go)

    All the character classes are ASCII, so a rune is an [ascii]. *)

Module generator.

Record PasswordOptions : Type := mkPasswordOptions {
  Length : Z;
  IncludeLowercase : bool;
  IncludeUppercase : bool;
  IncludeNumbers : bool;
  IncludeSymbols : bool;
  ExcludeSimilar : bool;
  ExcludeAmbiguous : bool
}.

Definition DefaultOptions : PasswordOptions :=
  mkPasswordOptions 16 true true true true true false.

Definition lowercase : string := "abcdefghijklmnopqrstuvwxyz".
Definition uppercase : string := "ABCDEFGHIJKLMNOPQRSTUVWXYZ".
Definition numbers : string := "0123456789".
Definition symbols : string := "!@#$%^&*()-_=+[]{}|;:,./<>?~".
Definition similar : string := "il1Lo0O".
(** The double quote of the source, code 34, is written by its code. *)
Definition ambiguous : string :=
  "`{}[]()|\/'" ++ String "034"%char "`~,;:.<>".

(** [containsRune]. *)
Fixpoint containsRune (s : string) (r : ascii) : bool :=
  match s with
  | EmptyString => false
  | String c rest => if Ascii.eqb c r then true else containsRune rest r
  end.

(** [for _, c := range class { if skip(c) { continue }; chars = append(chars, c) }]. *)
Fixpoint append_class (skip : ascii -> bool) (class : string) (chars : list ascii)
    : list ascii :=
  match class with
  | EmptyString => chars
  | String c rest =>
      if skip c then append_class skip rest chars
      else append_class skip rest (chars ++ [c])%list
  end.

(** The character set that [GeneratePassword] builds. *)
Definition charset (options : PasswordOptions) : list ascii :=
  let chars : list ascii := [] in
  let skip_similar c := ExcludeSimilar options && containsRune similar c in
  let skip_ambiguous c := ExcludeAmbiguous options && containsRune ambiguous c in
  let chars :=
    if IncludeLowercase options then append_class skip_similar lowercase chars
    else chars in
  let chars :=
    if IncludeUppercase options then append_class skip_similar uppercase chars
    else chars in
  let chars :=
    if IncludeNumbers options then append_class skip_similar numbers chars
    else chars in
  let chars :=
    if IncludeSymbols options then append_class skip_ambiguous symbols chars
    else chars in
  chars.

(** The loop of [meetsRequirements] over the runes of the password. *)
Fixpoint scan_classes (password : string) (hasLower hasUpper hasNumber hasSymbol : bool)
    : bool * bool * bool * bool :=
  match password with
  | EmptyString => (hasLower, hasUpper, hasNumber, hasSymbol)
  | String c rest =>
      if containsRune lowercase c then scan_classes rest true hasUpper hasNumber hasSymbol
      else if containsRune uppercase c then scan_classes rest hasLower true hasNumber hasSymbol
      else if containsRune numbers c then scan_classes rest hasLower hasUpper true hasSymbol
      else if containsRune symbols c then scan_classes rest hasLower hasUpper hasNumber true
      else scan_classes rest hasLower hasUpper hasNumber hasSymbol
  end.

(** [meetsRequirements]. *)
Definition meetsRequirements (password : string) (options : PasswordOptions) : bool :=
  let hasLower := negb (IncludeLowercase options) in
  let hasUpper := negb (IncludeUppercase options) in
  let hasNumber := negb (IncludeNumbers options) in
  let hasSymbol := negb (IncludeSymbols options) in
  let '(hasLower, hasUpper, hasNumber, hasSymbol) :=
    scan_classes password hasLower hasUpper hasNumber hasSymbol in
  hasLower && hasUpper && hasNumber && hasSymbol.

Section generator.
Context `{Extern}.

(** [randomInt]. *)
Definition randomInt (max : Z) : M World Z :=
  fun w =>
    if Z.leb max 0 then (Err (errors_New "max must be positive"), w)
    else
      match rand_Int (rand_calls w) max with
      | None => (Err rand_error, tick_rand w)
      | Some n => (Ok n, tick_rand w)
      end.

(** [chars[idx]], which panics outside the slice. *)
Definition char_at (chars : list ascii) (idx : Z) : result ascii :=
  if Z.ltb idx 0 then Err (runtime_panic "index out of range")
  else
    match nth_error chars (Z.to_nat idx) with
    | Some c => Ok c
    | None => Err (runtime_panic "index out of range")
    end.

(** [for i := 0; i < options.Length; i++ { ... result[i] = chars[idx] }],
    for the iterations that are left. *)
Fixpoint draw (n : nat) (chars : list ascii) : M World (list ascii) :=
  match n with
  | O => ret []
  | S n' =>
      idx <- randomInt (Z.of_nat (length chars)) ;;
      c <- lift_result (char_at chars idx) ;;
      rest <- draw n' chars ;;
      ret (c :: rest)
  end.

(** [GeneratePassword].  The function calls itself when the drawn string
    misses a requested class; [fuel] bounds the number of attempts, and
    [None] means that none of them returned. *)
Fixpoint GeneratePassword (fuel : nat) (options : PasswordOptions) (w : World)
    : option (result string * World) :=
  match fuel with
  | O => None
  | S fuel' =>
      if Z.leb (Length options) 0
      then Some (Err (errors_New "password length must be positive"), w)
      else
        let chars := charset options in
        if Nat.eqb (length chars) 0
        then Some (Err (errors_New "no character set selected"), w)
        else
          match draw (Z.to_nat (Length options)) chars w with
          | (Err e, w') => Some (Err e, w')
          | (Ok result, w') =>
              let password := string_of_list_ascii result in
              if negb (meetsRequirements password options)
              then GeneratePassword fuel' options w'
              else Some (Ok password, w')
          end
  end.

End generator.
End generator.

(** ** os: files as a map from paths to contents

    The [files] of the world are the files beside the database's own,
    which [db] stands for: a write to the path of the database is not
    represented. *)

Section os.
Context `{Extern}.

(** [os.WriteFile]: the file is opened with [O_TRUNC], written and
    closed; the first error is returned. *)
Definition os_WriteFile (name : string) (data : string) : M World unit :=
  fun w =>
    let w := log_io (FileWrite name) w in
    match os_WriteFile_fault name data with
    | None => (Ok tt, set_files (<[name := data]> (files w)) w)
    | Some (e, None) => (Err e, w)
    | Some (e, Some n) =>
        (Err e, set_files (<[name := substring 0 n data]> (files w)) w)
    end.

End os.

Definition os_ReadFile (name : string) : M World string :=
  fun w =>
    let w := log_io (FileRead name) w in
    match files w !! name with
    | Some data => (Ok data, w)
    | None => (Err (os_error name), w)
    end.

(** ** Package manager (pkg/manager/manager.go) *)

Module manager.
Import models.

(** The fields of [PasswordManager] that change; [storage] and [crypto]
    are the two services above. *)
Record PasswordManager : Type := mkPasswordManager {
  masterKey : option bytes;
  initialized : bool;
  lastActivity : Z
}.

Definition State : Type := PasswordManager * World.

(** A call of a storage or crypto function from a method. *)
Definition call {A} (m : M World A) : M State A :=
  fun s => let '(r, w) := m (snd s) in (r, (fst s, w)).

Definition set_masterKey (k : option bytes) : M State unit :=
  modify (fun s : State =>
    (mkPasswordManager k (initialized (fst s)) (lastActivity (fst s)), snd s)).
Definition set_initialized (b : bool) : M State unit :=
  modify (fun s : State =>
    (mkPasswordManager (masterKey (fst s)) b (lastActivity (fst s)), snd s)).

(** [updateLastActivity]: [pm.lastActivity = time.Now()]. *)
Definition updateLastActivity : M State unit :=
  modify (fun s : State =>
    (mkPasswordManager (masterKey (fst s)) (initialized (fst s)) (now (snd s)), snd s)).

(** [NewPasswordManager]. *)
Definition NewPasswordManager (w : World) : PasswordManager :=
  mkPasswordManager None false (now w).

(** The guard [if !pm.initialized { return ..., errors.New(...) }]. *)
Definition require_initialized : M State unit :=
  fun s =>
    if negb (initialized (fst s))
    then (Err (errors_New "password manager not initialized"), s)
    else (Ok tt, s).

(** [pm.masterKey] passed as a slice. *)
Definition key_of (s : State) : bytes := slice_contents (masterKey (fst s)).
Definition get_masterKey : M State bytes := fun s => (Ok (key_of s), s).

Section manager.
Context `{Extern}.

(** [CreateMasterPassword]. *)
Definition CreateMasterPassword (masterPassword : string) : M State unit :=
  salt <- wrap "failed to generate salt" (call crypto.GenerateSalt) ;;
  _ <- wrap "failed to save salt" (call (storage.SaveSalt (Some salt))) ;;
  key <- wrap "failed to derive key"
           (fun s =>
              match crypto.DeriveKey masterPassword salt with
              | Ok key => (Ok key, snd (set_masterKey (Some key) s))
              | Err e => (Err e, snd (set_masterKey None s))
              end) ;;
  let testData := "This is a test string to verify the master password." in
  encryptedTest <- wrap "failed to encrypt test vector"
                     (call (crypto.Encrypt testData key)) ;;
  _ <- wrap "failed to save test vector"
         (call (storage.SaveTestVector (Some encryptedTest))) ;;
  _ <- set_initialized true ;;
  _ <- updateLastActivity ;;
  ret tt.

(** [UnlockVault]. *)
Definition UnlockVault (masterPassword : string) : M State unit :=
  salt <- wrap "failed to get salt" (call storage.GetSalt) ;;
  key <- wrap "failed to derive key"
           (lift_result (crypto.DeriveKey masterPassword (slice_contents salt))) ;;
  testVector <- wrap "failed to get test vector" (call storage.GetTestVector) ;;
  correct <- wrap "error verifying key"
               (lift_result (crypto.VerifyKey key testVector)) ;;
  if negb correct then fail (errors_New "invalid master password")
  else
    _ <- set_masterKey (Some key) ;;
    _ <- set_initialized true ;;
    _ <- updateLastActivity ;;
    ret tt.

(** [IsLocked]. *)
Definition IsLocked (pm : PasswordManager) : bool := negb (initialized pm).

(** [GetLastActivity]. *)
Definition GetLastActivity (pm : PasswordManager) : Z := lastActivity pm.

(** [Lock]. *)
Definition Lock : M State unit :=
  _ <- set_masterKey None ;;
  set_initialized false.

(** [AddPassword]: the password is encrypted always, the notes when
    they are not empty; [encNotes] stays nil otherwise. *)
Definition AddPassword (entry : PasswordEntry) : M State Z :=
  _ <- require_initialized ;;
  _ <- updateLastActivity ;;
  key <- get_masterKey ;;
  encPassword <- call (crypto.Encrypt (Password entry) key) ;;
  encNotes <-
    (if negb (String.eqb (Notes entry) "")
     then e <- call (crypto.Encrypt (Notes entry) key) ;; ret (Some e)
     else ret None) ;;
  id <- call (storage.AddPassword entry (Some encPassword) encNotes) ;;
  ret id.

(** [GetPassword]. *)
Definition GetPassword (id : Z) : M State PasswordEntry :=
  _ <- require_initialized ;;
  _ <- updateLastActivity ;;
  got <- call (storage.GetPassword id) ;;
  let '(entry, encPassword, encNotes) := got in
  key <- get_masterKey ;;
  password <- lift_result (crypto.Decrypt (slice_contents encPassword) key) ;;
  let entry := set_Password password entry in
  match encNotes with
  | Some ((_ :: _) as encNotes) =>
      notes <- lift_result (crypto.Decrypt encNotes key) ;;
      ret (set_Notes notes entry)
  | _ => ret entry
  end.

(** [GetAllPasswords]. *)
Definition GetAllPasswords : M State (list PasswordEntry) :=
  _ <- require_initialized ;;
  _ <- updateLastActivity ;;
  call storage.GetAllPasswords.

(** [UpdatePassword]. *)
Definition UpdatePassword (entry : PasswordEntry) : M State unit :=
  _ <- require_initialized ;;
  _ <- updateLastActivity ;;
  key <- get_masterKey ;;
  encPassword <- call (crypto.Encrypt (Password entry) key) ;;
  encNotes <-
    (if negb (String.eqb (Notes entry) "")
     then e <- call (crypto.Encrypt (Notes entry) key) ;; ret (Some e)
     else ret None) ;;
  call (storage.UpdatePassword entry (Some encPassword) encNotes).

(** [DeletePassword]. *)
Definition DeletePassword (id : Z) : M State unit :=
  _ <- require_initialized ;;
  _ <- updateLastActivity ;;
  call (storage.DeletePassword id).

(** [SearchPasswords]. *)
Definition SearchPasswords (params : SearchParams) : M State (list PasswordEntry) :=
  _ <- require_initialized ;;
  _ <- updateLastActivity ;;
  call (storage.SearchPasswords params).

(** [GeneratePassword], with the bound on the attempts of the
    generator. *)
Definition GeneratePassword (fuel : nat) (options : generator.PasswordOptions)
    (s : State) : option (result string * State) :=
  let s := snd (updateLastActivity s) in
  match generator.GeneratePassword fuel options (snd s) with
  | None => None
  | Some (r, w) => Some (r, (fst s, w))
  end.

(** [ExportVault]. *)
Definition ExportVault (filename : string) : M State unit :=
  _ <- require_initialized ;;
  _ <- updateLastActivity ;;
  entries <- call storage.ExportData ;;
  jsonData <- lift_result (encoding_json.Marshal entries) ;;
  key <- get_masterKey ;;
  encData <- call (crypto.Encrypt jsonData key) ;;
  let encodedData := base64.EncodeToString encData in
  call (os_WriteFile filename encodedData).

(** [ImportVault]. *)
Definition ImportVault (filename : string) : M State unit :=
  _ <- require_initialized ;;
  _ <- updateLastActivity ;;
  data <- call (os_ReadFile filename) ;;
  decodedData <- lift_result (base64.DecodeString data) ;;
  key <- get_masterKey ;;
  jsonData <- lift_result (crypto.Decrypt decodedData key) ;;
  entries <- lift_result (encoding_json.Unmarshal jsonData) ;;
  call (storage.ImportData entries).

End manager.
End manager.

(** ** Command passmanager (cmd/passmanager/main.go)

    The prompt that unlocks or creates the vault, and the string helpers
    of the listing and of the generator dialogue. *)

Module main.

(** [strings.Contains]. *)
Fixpoint strings_Contains (s substr : string) : bool :=
  if String.prefix substr s then true
  else
    match s with
    | EmptyString => false
    | String _ rest => strings_Contains rest substr
    end.

(** [err.Error()]: the message of [errors.New], and for [fmt.Errorf]
    with [": %w"] the message followed by the text of the cause; the
    texts of the library errors are given by [library_text]. *)
Fixpoint Error (library_text : error -> string) (e : error) : string :=
  match e with
  | errors_New msg => msg
  | fmt_Errorf msg cause => msg ++ ": " ++ Error library_text cause
  | e => library_text e
  end.

(** The terminal: the outcomes of the coming [term.ReadPassword] calls,
    the error of every call after them, and what has been printed. *)
Record Terminal : Type := mkTerminal {
  keyed : list (result string);
  closed : error;
  printed : list string
}.

Definition newline : string := String "010"%char EmptyString.

Definition fmt_Print (s : string) : M Terminal unit :=
  modify (fun t => mkTerminal (keyed t) (closed t) (printed t ++ [s])%list).
Definition fmt_Println (s : string) : M Terminal unit := fmt_Print (s ++ newline).

Definition term_ReadPassword : M Terminal string :=
  fun t =>
    match keyed t with
    | [] => (Err (closed t), t)
    | r :: rest => (r, mkTerminal rest (closed t) (printed t))
    end.

(** [readPassword]: the newline is printed before the error is looked
    at. *)
Definition readPassword : M Terminal string :=
  fun t =>
    let '(r, t) := term_ReadPassword t in
    let t := snd (fmt_Println EmptyString t) in
    (r, t).

(** The [for] loop of [createMasterPassword]; [fuel] bounds the number
    of rounds, and [None] means that the loop has not ended within
    them. *)
Fixpoint new_password (fuel : nat) (t : Terminal) : option (result string * Terminal) :=
  match fuel with
  | O => None
  | S fuel' =>
      let t := snd (fmt_Print "Create a new master password: " t) in
      match readPassword t with
      | (Err e, t) => Some (Err e, t)
      | (Ok password, t) =>
          if Nat.ltb (String.length password) 8 then
            let t := snd (fmt_Println "Password must be at least 8 characters long." t) in
            new_password fuel' t
          else
            let t := snd (fmt_Print "Confirm master password: " t) in
            match readPassword t with
            | (Err e, t) => Some (Err e, t)
            | (Ok confirm, t) =>
                if negb (String.eqb password confirm) then
                  let t := snd (fmt_Println "Passwords do not match. Please try again." t) in
                  new_password fuel' t
                else Some (Ok password, t)
            end
      end
  end.

(** [truncateString]: [s[:maxLen-3]] panics when [maxLen-3] is
    negative. *)
Definition truncateString (s : string) (maxLen : Z) : result string :=
  if Z.leb (Z.of_nat (String.length s)) maxLen then Ok s
  else if Z.ltb (maxLen - 3) 0 then Err (runtime_panic "slice bounds out of range")
  else Ok (substring 0 (Z.to_nat (maxLen - 3)) s ++ "...").

Definition is_ascii (c : ascii) : bool := Nat.ltb (nat_of_ascii c) 128.

Definition lower_ascii (c : ascii) : ascii :=
  if Nat.leb 65 (nat_of_ascii c) && Nat.leb (nat_of_ascii c) 90
  then ascii_of_nat (nat_of_ascii c + 32)
  else c.

Fixpoint map_string (f : ascii -> ascii) (s : string) : string :=
  match s with
  | EmptyString => EmptyString
  | String c rest => String (f c) (map_string f rest)
  end.

Fixpoint all_ascii (s : string) : bool :=
  match s with
  | EmptyString => true
  | String c rest => is_ascii c && all_ascii rest
  end.

(** [strings.ToLower]: a string of ASCII bytes is lowered byte by byte;
    any other string goes through [strings.Map(unicode.ToLower, s)],
    here [unicode_lower]. *)
Definition strings_ToLower (unicode_lower : string -> string) (s : string) : string :=
  if all_ascii s then map_string lower_ascii s else unicode_lower s.

(** [confirmOption]. *)
Definition confirmOption (unicode_lower : string -> string) (input : string)
    (defaultValue : bool) : bool :=
  let input := strings_ToLower unicode_lower input in
  if String.eqb input "" then defaultValue
  else String.eqb input "y" || String.eqb input "yes".

Section main.
Context `{Extern}.
Variable library_text : error -> string.

Definition Console : Type := Terminal * manager.State.

(** [createMasterPassword]. *)
Definition createMasterPassword (fuel : nat) (c : Console)
    : option (result unit * Console) :=
  match new_password fuel (fst c) with
  | None => None
  | Some (Err e, t) => Some (Err e, (t, snd c))
  | Some (Ok password, t) =>
      match manager.CreateMasterPassword password (snd c) with
      | (Err e, s) => Some (Err e, (t, s))
      | (Ok _, s) =>
          let t := snd (fmt_Println "Master password created successfully!" t) in
          Some (Ok tt, (t, s))
      end
  end.

(** [unlockVault]. *)
Definition unlockVault (fuel : nat) (c : Console) : option (result unit * Console) :=
  let '(t, s) := c in
  if manager.IsLocked (fst s) then
    let t := snd (fmt_Print "Enter master password: " t) in
    match readPassword t with
    | (Err e, t) => Some (Err e, (t, s))
    | (Ok password, t) =>
        match manager.UnlockVault password s with
        | (Err err, s) =>
            if strings_Contains (Error library_text err) "no salt found" then
              let t := snd (fmt_Println "No vault found. Let's create a new one." t) in
              createMasterPassword fuel (t, s)
            else Some (Err err, (t, s))
        | (Ok _, s) =>
            let t := snd (fmt_Println "Vault unlocked successfully!" t) in
            Some (Ok tt, (t, s))
        end
    end
  else Some (Ok tt, c).

End main.
End main.

(** ** An executable instance of the external packages

    Small stand-ins with the interfaces of [Extern], on which the model
    runs: a keyed tag in place of the GCM tag, a padded prefix in place of
    Argon2id, a counter in place of the entropy source, and a JSON syntax
    that writes a document as the binary digits of its code. *)

Module reference.

Fixpoint bytes_eqb (a b : bytes) : bool :=
  match a, b with
  | [], [] => true
  | x :: a', y :: b' => Byte.eqb x y && bytes_eqb a' b'
  | _, _ => false
  end.

Definition tag_size : nat := 16.

Definition tag (key nonce : bytes) : bytes :=
  firstn tag_size (firstn 8 key ++ firstn 8 nonce ++ repeat Byte.x00 tag_size)%list.

Definition ref_Seal (key nonce plaintext aad : bytes) : bytes :=
  (List.rev plaintext ++ tag key nonce)%list.

Definition ref_Open (key nonce ciphertext aad : bytes) : option bytes :=
  if Nat.ltb (length ciphertext) tag_size then None
  else
    let n := (length ciphertext - tag_size)%nat in
    if bytes_eqb (skipn n ciphertext) (tag key nonce)
    then Some (List.rev (firstn n ciphertext))
    else None.

Definition ref_IDKey (password salt : bytes) (time memory threads : Z) (keyLen : nat)
    : bytes :=
  firstn keyLen (password ++ salt ++ repeat Byte.x00 keyLen)%list.

Definition ref_rand_Read (i n : nat) : option bytes :=
  Some (repeat (base64.byte_of_N (N.of_nat i mod 256)) n).

Definition ref_rand_Int (i : nat) (max : Z) : option Z :=
  Some ((Z.of_nat i * 37 + 11) mod max).

(** JSON documents as trees with labelled nodes. *)
Fixpoint to_tree (j : json) : gen_tree (bool + string) :=
  match j with
  | JNull => GenNode 0 []
  | JBool b => GenLeaf (inl b)
  | JNum lit => GenNode 1 [GenLeaf (inr lit)]
  | JStr s => GenLeaf (inr s)
  | JArr elems => GenNode 2 (List.map to_tree elems)
  | JObj members =>
      GenNode 3 (List.map (fun kv => GenNode 4 [GenLeaf (inr (fst kv)); to_tree (snd kv)])
                   members)
  end.

Fixpoint from_tree (t : gen_tree (bool + string)) : option json :=
  match t with
  | GenLeaf (inl b) => Some (JBool b)
  | GenLeaf (inr s) => Some (JStr s)
  | GenNode 0 [] => Some JNull
  | GenNode 1 [GenLeaf (inr lit)] => Some (JNum lit)
  | GenNode 2 ts => JArr <$> mapM from_tree ts
  | GenNode 3 ts =>
      JObj <$> mapM (fun t =>
                       match t with
                       | GenNode 4 [GenLeaf (inr k); v] => pair k <$> from_tree v
                       | _ => None
                       end) ts
  | _ => None
  end.

Fixpoint digits_of_pos (p : positive) : string :=
  match p with
  | xH => EmptyString
  | xO p' => String "0"%char (digits_of_pos p')
  | xI p' => String "1"%char (digits_of_pos p')
  end.

Fixpoint pos_of_digits (s : string) : option positive :=
  match s with
  | EmptyString => Some xH
  | String c rest =>
      match pos_of_digits rest with
      | None => None
      | Some p =>
          if Ascii.eqb c "0"%char then Some (xO p)
          else if Ascii.eqb c "1"%char then Some (xI p)
          else None
      end
  end.

Definition ref_json_text (j : json) : string := digits_of_pos (encode (to_tree j)).

Definition ref_json_parse (s : string) : option json :=
  match pos_of_digits s with
  | None => None
  | Some p =>
      match decode p with
      | None => None
      | Some t => from_tree t
      end
  end.

(** A query engine that lists the seven clear columns of every row,
    whatever the text of the query. *)
Definition ref_Query (d : DB) (query : string) (args : list SqlValue)
    : result (list (list SqlValue)) :=
  Ok (List.map (fun r => [SInt (col_id r); col_title r; col_url r; col_username r;
                          col_category r; col_created_at r; col_updated_at r])
        (passwords d)).

#[local] Instance ref_Extern : Extern := {|
  rand_Read := ref_rand_Read;
  rand_Int := ref_rand_Int;
  gcm_Seal := ref_Seal;
  gcm_Open := ref_Open;
  argon2_IDKey := ref_IDKey;
  json_text := ref_json_text;
  json_parse := ref_json_parse;
  utf8_coerce := fun s => s;
  sqlite_Query := ref_Query;
  timestamp_text := fun s => s;
  current_timestamp := fun z => pretty z;
  time_Parse_RFC3339 := fun _ => None;
  os_WriteFile_fault := fun _ _ => None
|}.

Definition empty_db : DB := mkDB ∅ [] 0.
Definition empty_world : World := mkWorld empty_db ∅ 1700000000 0 [].

End reference.

(** * Vocabulary of the statements *)

Section vocabulary.
Context `{Extern}.

Definition salt_sql : string := "SELECT value FROM config WHERE key = 'salt'".
Definition test_vector_sql : string := "SELECT value FROM config WHERE key = 'test_vector'".

(** The key that [UnlockVault] derives from a password and the stored
    salt. *)
Definition candidate_key (masterPassword : string) (salt : SqlValue) : bytes :=
  argon2_IDKey (bytes_of_string masterPassword)
    (slice_contents (storage.scan_bytes salt))
    crypto.argonTime crypto.argonMemory crypto.argonThreads crypto.argonKeyLen.

Definition testData : string := "This is a test string to verify the master password.".

Definition master_key (masterPassword : string) (salt : bytes) : bytes :=
  argon2_IDKey (bytes_of_string masterPassword) salt
    crypto.argonTime crypto.argonMemory crypto.argonThreads crypto.argonKeyLen.

(** The manager is Unlocked and holds a key of 32 bytes, as it does
    after [CreateMasterPassword] or [UnlockVault]. *)
Definition Unlocked (pm : manager.PasswordManager) (key : bytes) : Prop :=
  manager.initialized pm = true /\ manager.masterKey pm = Some key /\ length key = 32%nat.

Definition entropy_error (e : error) : Prop :=
  e = rand_error \/ e = io_ErrUnexpectedEOF.

(** The draw of a nonce that sealing the record needs fails with [e]:
    the draw for the password, the first read of the entropy source
    from [w]; or, when the record has notes and the first draw has
    delivered, the draw for the notes, which is the next read. *)
Definition nonce_draw_fails (entry : models.PasswordEntry) (w : World) (e : error)
    : Prop :=
  fst (crypto.io_ReadFull_rand crypto.gcm_NonceSize w) = Err e \/
  (models.Notes entry <> EmptyString /\
   is_Ok (fst (crypto.io_ReadFull_rand crypto.gcm_NonceSize w)) = true /\
   fst (crypto.io_ReadFull_rand crypto.gcm_NonceSize (tick_rand w)) = Err e).

Definition sealed (key : bytes) (plaintext : string) (blob : bytes) : Prop :=
  exists nonce : bytes,
    length nonce = crypto.gcm_NonceSize /\
    blob = (nonce ++ gcm_Seal key nonce (bytes_of_string plaintext) [])%list.

(** The row that [storage.AddPassword] inserts. *)
Definition added_row (entry : models.PasswordEntry) (encPassword encNotes : option bytes)
    (w : World) : Row :=
  let ts := SText (current_timestamp (now w)) in
  mkRow (storage.next_rowid (db w)) (SText (models.Title entry))
    (SText (models.URL entry)) (SText (models.Username entry))
    (storage.bind_bytes encPassword) (storage.bind_bytes encNotes)
    (SText (models.Category entry)) ts ts.


(** The row that one [stmt.Exec] of the import inserts under a rowid, or
    the error of the conversion of its arguments or of the NOT NULL
    constraint. *)
Definition entry_row (id : Z) (entry : gmap string GoVal) : result Row :=
  match storage.bind_arg (storage.index entry "title") with Err e => Err e | Ok title =>
  match storage.bind_arg (storage.index entry "url") with Err e => Err e | Ok url =>
  match storage.bind_arg (storage.index entry "username") with Err e => Err e | Ok username =>
  match storage.bind_arg (storage.index entry "password") with Err e => Err e | Ok password =>
  match storage.bind_arg (storage.index entry "notes") with Err e => Err e | Ok notes =>
  match storage.bind_arg (storage.index entry "category") with Err e => Err e | Ok category =>
  match storage.bind_arg (storage.index entry "created_at") with Err e => Err e | Ok created =>
  match storage.bind_arg (storage.index entry "updated_at") with Err e => Err e | Ok updated =>
    match storage.text_affinity title with
    | SNull => Err (sql_error "NOT NULL constraint failed: passwords.title")
    | title' =>
        Ok (mkRow id title' (storage.text_affinity url) (storage.text_affinity username)
              password notes (storage.text_affinity category) created updated)
    end
  end end end end end end end end.

(** The rows of a batch, numbered from [first]. *)
Fixpoint batch_rows (first : Z) (entries : list (gmap string GoVal)) (rows : list Row)
    : Prop :=
  match entries, rows with
  | [], [] => True
  | entry :: entries', r :: rows' =>
      entry_row first entry = Ok r /\ batch_rows (first + 1) entries' rows'
  | _, _ => False
  end.

(** A value after [Marshal] and [Unmarshal]. *)
Definition reread (v : GoVal) : GoVal :=
  encoding_json.unmarshal_value (encoding_json.marshal_value v).

(** What the import stores for a blob column of an exported row: NULL
    stays NULL, bytes become the text of their base64 encoding. *)
Definition base64_column (v : SqlValue) : SqlValue :=
  match storage.scan_bytes v with
  | None => SNull
  | Some b => SText (base64.EncodeToString b)
  end.

(** An original row and the row that the import makes of its export. *)
Definition reimported (old new : Row) : Prop :=
  col_password new = base64_column (col_password old) /\
  col_notes new = base64_column (col_notes old) /\
  exists title, storage.scan_string (col_title old) = Ok title /\
                col_title new = SText (utf8_coerce title).

(** The password has a rune of the class. *)
Definition has_class (class : string) (password : string) : Prop :=
  exists c, In c (list_ascii_of_string password) /\ generator.containsRune class c = true.

(** The options of the failing call: one rune, two requested classes. *)
Definition one_rune_two_classes : generator.PasswordOptions :=
  generator.mkPasswordOptions 1 true true false false false false.

(** The contract of [rand.Int]: a number below [max]. *)
Definition rand_Int_delivers : Prop :=
  forall (i : nat) (max : Z), 0 < max ->
    exists n, rand_Int i max = Some n /\ 0 <= n < max.

(** A computation is stable for a relation when it takes every state to
    a state that the relation allows, whatever it returns. *)
Definition stable {S A : Type} (R : relation S) (m : M S A) : Prop :=
  forall s, R s (snd (m s)).

(** States that agree on [f]. *)
Definition same {S B : Type} (f : S -> B) : relation S := fun s s' => f s' = f s.

(** A relation on worlds, as a relation on the states of the manager. *)
Definition on_world (R : relation World) : relation manager.State :=
  fun s s' => R (snd s) (snd s').

(** The [config] table of the database of a world. *)
Definition config_of (w : World) : gmap string SqlValue := config (db w).

(** The AUTOINCREMENT counter does not go down. *)
Definition seq_grows : relation World :=
  fun w w' => passwords_seq (db w) <= passwords_seq (db w').

(** The methods that work on an existing vault. *)
Inductive Operation : Type :=
| OpAddPassword (entry : models.PasswordEntry)
| OpGetPassword (id : Z)
| OpGetAllPasswords
| OpUpdatePassword (entry : models.PasswordEntry)
| OpDeletePassword (id : Z)
| OpSearchPasswords (params : models.SearchParams)
| OpExportVault (filename : string)
| OpImportVault (filename : string)
| OpLock
| OpUnlockVault (masterPassword : string).

(** The state after a call, whatever the call returned. *)
Definition after (op : Operation) (s : manager.State) : manager.State :=
  match op with
  | OpAddPassword entry => snd (manager.AddPassword entry s)
  | OpGetPassword id => snd (manager.GetPassword id s)
  | OpGetAllPasswords => snd (manager.GetAllPasswords s)
  | OpUpdatePassword entry => snd (manager.UpdatePassword entry s)
  | OpDeletePassword id => snd (manager.DeletePassword id s)
  | OpSearchPasswords params => snd (manager.SearchPasswords params s)
  | OpExportVault filename => snd (manager.ExportVault filename s)
  | OpImportVault filename => snd (manager.ImportVault filename s)
  | OpLock => snd (manager.Lock s)
  | OpUnlockVault masterPassword => snd (manager.UnlockVault masterPassword s)
  end.

Definition after_all (ops : list Operation) (s : manager.State) : manager.State :=
  fold_left (fun s op => after op s) ops s.

(** What [UpdatePassword] makes of a row. *)
Definition updated_row (entry : models.PasswordEntry) (encPassword encNotes : option bytes)
    (clock : Z) (r : Row) : Row :=
  if Z.eqb (col_id r) (models.ID entry)
  then mkRow (col_id r) (SText (models.Title entry)) (SText (models.URL entry))
         (SText (models.Username entry)) (storage.bind_bytes encPassword)
         (storage.bind_bytes encNotes) (SText (models.Category entry))
         (col_created_at r) (SText (current_timestamp clock))
  else r.

(** The error of [Scan] for a NULL column and a [string] destination. *)
Definition null_scan_error : error :=
  sql_error "converting NULL to string is unsupported".

(** The number of [?] marks in a text. *)
Fixpoint placeholders (s : string) : nat :=
  match s with
  | EmptyString => O
  | String c rest => ((if Ascii.eqb c "?"%char then 1 else 0) + placeholders rest)%nat
  end.




(** A sort key made of letters, digits and underscores, as a column
    name is; the empty key is one.  With such a key the text that
    [SearchPasswords] builds is one SELECT statement. *)
Fixpoint plain_sort_key (s : string) : bool :=
  match s with
  | EmptyString => true
  | String c rest =>
      let n := nat_of_ascii c in
      ((Nat.leb 97 n && Nat.leb n 122) || (Nat.leb 65 n && Nat.leb n 90)
       || (Nat.leb 48 n && Nat.leb n 57) || Nat.eqb n 95)
      && plain_sort_key rest
  end.

(** The calls that reach the database through fixed statements with
    bound arguments and write no file: every method but [ExportVault],
    which writes a file of the caller's choice, and [SearchPasswords]
    with a plain sort key only, since it puts the sort key into the text
    of its query. *)
Definition bound_call (op : Operation) : bool :=
  match op with
  | OpSearchPasswords params => plain_sort_key (models.SortBy params)
  | OpExportVault _ => false
  | _ => true
  end.

(** The store takes the two writes to the [config] table: [SaveSalt]
    and [SaveTestVector] return no error. *)
Definition config_writes_succeed : Prop :=
  forall (value : option bytes) (w : World),
    fst (storage.SaveSalt value w) = Ok tt /\
    fst (storage.SaveTestVector value w) = Ok tt.

End vocabulary.

(** ** A scenario

    A vault on the reference instance: created with the master password
    of the specification, locked, and given one record. *)

Module scenario.
Import manager models.

Definition E : Extern := reference.ref_Extern.

Definition fresh : State :=
  (NewPasswordManager reference.empty_world, reference.empty_world).
Definition created : State := snd (CreateMasterPassword (H := E) "CorrectHorse1" fresh).
Definition locked : State := snd (Lock created).
Definition record : PasswordEntry :=
  mkPasswordEntry 0 "mail" "https://mail.example" "bob" "p@ssW0rd!" "secret note" "web" 0 0.
Definition plain_record : PasswordEntry :=
  mkPasswordEntry 0 "door" EmptyString "bob" "1234" EmptyString "home" 0 0.
Definition with_record : State := snd (AddPassword (H := E) record created).
Definition exported : State := snd (ExportVault (H := E) "vault.export" with_record).
Definition imported : State := snd (ImportVault (H := E) "vault.export" exported).
Definition vault_key : bytes := default [] (masterKey (fst created)).

(** The password blob that [AddPassword] stored for the record. *)
Definition password_blob : bytes :=
  match List.map col_password (passwords (db (snd with_record))) with
  | [SBlob blob] => blob
  | _ => []
  end.

(** After the export and the import: the password columns of the table,
    and what [GetPassword] returns for the original row and for its
    imported copy. *)
Definition import_outcome
    : list SqlValue * option string * result PasswordEntry :=
  (fun s : State =>
     (List.map col_password (passwords (db (snd s))),
      option_map Password (returned (fst (GetPassword (H := E) 1 s))),
      fst (GetPassword (H := E) 2 s))) imported.


(** A store with a salt and no test vector. *)
Definition salt_only : World :=
  snd (storage.SaveSalt (Some (repeat Byte.x07 16)) reference.empty_world).

(** Three records to import; the second has no title. *)
Definition good_entry (title : string) : gmap string GoVal :=
  <["title" := VString title]> (<["password" := VString "AQID"]> ∅).
Definition untitled_entry : gmap string GoVal :=
  <["username" := VString "eve"]> ∅.

(** A day of the vault: a record is added, the vault is locked, a wrong
    password is tried, the vault is unlocked, the record is deleted and
    the vault is locked again. *)
Definition busy : list Operation :=
  [OpAddPassword record; OpLock; OpUnlockVault "WrongPass";
   OpUnlockVault "CorrectHorse1"; OpDeletePassword 1; OpLock].

(** The row of the record in the vault, and the record with a new
    password and without notes. *)
Definition stored : Row :=
  nth 0 (passwords (db (snd with_record)))
    (mkRow 0 SNull SNull SNull SNull SNull SNull SNull SNull).
Definition changed : PasswordEntry :=
  mkPasswordEntry 1 "mail" "https://mail.example" "bob" "n3w-p@ss" EmptyString "web" 0 0.

(** The reference instance with an entropy source that delivers the
    first draw and no other. *)
Definition E_dry : Extern := {|
  rand_Read := fun i n => if Nat.eqb i 0 then reference.ref_rand_Read i n else None;
  rand_Int := reference.ref_rand_Int;
  gcm_Seal := reference.ref_Seal;
  gcm_Open := reference.ref_Open;
  argon2_IDKey := reference.ref_IDKey;
  json_text := reference.ref_json_text;
  json_parse := reference.ref_json_parse;
  utf8_coerce := fun s => s;
  sqlite_Query := reference.ref_Query;
  timestamp_text := fun s => s;
  current_timestamp := fun z => pretty z;
  time_Parse_RFC3339 := fun _ => None;
  os_WriteFile_fault := fun _ _ => None
|}.

(** A vault whose creation stopped after the salt. *)
Definition half_created : State :=
  snd (CreateMasterPassword (H := E_dry) "CorrectHorse1" fresh).


(** A terminal on which a short password, a pair that does not match
    and a pair that matches are typed. *)
Definition typed : main.Terminal :=
  main.mkTerminal
    [Ok "short"; Ok "CorrectHorse1"; Ok "CorrectHorse2"; Ok "CorrectHorse1";
     Ok "CorrectHorse1"]
    (os_error "/dev/stdin") [].

End scenario.

(** * Properties *)

(** ** The reference instance meets the contracts assumed below *)

Lemma bytes_eqb_refl (b : bytes) : reference.bytes_eqb b b = true.
Proof.
  induction b as [|x b IH]; simpl; [reflexivity|].
  rewrite IH, Byte.byte_dec_lb by reflexivity. reflexivity.
Qed.

Lemma ref_tag_length (key nonce : bytes) :
  length (reference.tag key nonce) = reference.tag_size.
Proof.
  unfold reference.tag. rewrite length_firstn, !length_app, repeat_length.
  unfold reference.tag_size. lia.
Qed.

Lemma ref_Open_Seal (key nonce plaintext aad : bytes) :
  reference.ref_Open key nonce (reference.ref_Seal key nonce plaintext aad) aad
  = Some plaintext.
Proof.
  unfold reference.ref_Open, reference.ref_Seal.
  rewrite length_app, ref_tag_length, length_rev.
  destruct (Nat.ltb_spec (length plaintext + reference.tag_size) reference.tag_size)
    as [Hlt|_]; [lia|].
  replace (length plaintext + reference.tag_size - reference.tag_size)%nat
    with (length (List.rev plaintext)) by (rewrite length_rev; lia).
  rewrite drop_app_length, take_app_length.
  rewrite bytes_eqb_refl, rev_involutive. reflexivity.
Qed.

Lemma ref_IDKey_length (password salt : bytes) (time memory threads : Z) (keyLen : nat) :
  length (reference.ref_IDKey password salt time memory threads keyLen) = keyLen.
Proof.
  unfold reference.ref_IDKey.
  rewrite length_firstn, !length_app, repeat_length. lia.
Qed.

Section json_induction.
Context (P : json -> Prop).
Hypothesis PNull : P JNull.
Hypothesis PBool : forall b, P (JBool b).
Hypothesis PNum : forall lit, P (JNum lit).
Hypothesis PStr : forall s, P (JStr s).
Hypothesis PArr : forall elems, Forall P elems -> P (JArr elems).
Hypothesis PObj : forall members, Forall (fun kv => P (snd kv)) members -> P (JObj members).

(** Induction on JSON documents, through the lists of elements and of
    members. *)
Fixpoint json_nested_ind (j : json) : P j :=
  match j with
  | JNull => PNull
  | JBool b => PBool b
  | JNum lit => PNum lit
  | JStr s => PStr s
  | JArr elems =>
      PArr elems
        ((fix go (l : list json) : Forall P l :=
            match l with
            | [] => @List.Forall_nil _ P
            | x :: l' => @List.Forall_cons _ P x l' (json_nested_ind x) (go l')
            end) elems)
  | JObj members =>
      PObj members
        ((fix go (l : list (string * json)) : Forall (fun kv => P (snd kv)) l :=
            match l with
            | [] => @List.Forall_nil _ _
            | (k, v) :: l' =>
                @List.Forall_cons _ (fun kv => P (snd kv)) (k, v) l'
                  (json_nested_ind v) (go l')
            end) members)
  end.
End json_induction.

Lemma from_tree_to_tree (j : json) : reference.from_tree (reference.to_tree j) = Some j.
Proof.
  induction j as [| | | |elems IH|members IH] using json_nested_ind; try reflexivity.
  - cbn [reference.to_tree reference.from_tree].
    assert (Hall : mapM reference.from_tree (List.map reference.to_tree elems) = Some elems).
    { induction IH as [|x l Hx _ IHl]; [reflexivity|].
      cbn [List.map mapM]. rewrite Hx. cbn. rewrite IHl. reflexivity. }
    rewrite Hall. reflexivity.
  - cbn [reference.to_tree reference.from_tree].
    match goal with |- JObj <$> mapM ?f ?l = _ =>
      assert (Hall : mapM f l = Some members) end.
    { induction IH as [|[k v] l Hx _ IHl]; [reflexivity|].
      cbn [List.map mapM fst snd]. cbn [snd] in Hx. rewrite Hx. cbn.
      rewrite IHl. reflexivity. }
    rewrite Hall. reflexivity.
Qed.

Lemma pos_of_digits_of_pos (p : positive) :
  reference.pos_of_digits (reference.digits_of_pos p) = Some p.
Proof. induction p as [p IH|p IH|]; cbn; rewrite ?IH; reflexivity. Qed.

Lemma ref_json_parse_text (j : json) :
  reference.ref_json_parse (reference.ref_json_text j) = Some j.
Proof.
  unfold reference.ref_json_parse, reference.ref_json_text.
  rewrite pos_of_digits_of_pos, decode_encode. apply from_tree_to_tree.
Qed.

Section properties.
Context `{Extern}.

(** ** Envelope encryption *)

(** The contract of AES-GCM: with the key and the nonce that sealed a
    text, and no additional data, [Open] returns the text. *)
Hypothesis gcm_Open_Seal :
  forall key nonce plaintext : bytes,
    length key = 32%nat -> length nonce = crypto.gcm_NonceSize ->
    gcm_Open key nonce (gcm_Seal key nonce plaintext []) [] = Some plaintext.

(** The contract of Argon2id: the key has the requested length. *)
Hypothesis argon2_IDKey_length :
  forall (password salt : bytes) (time memory threads : Z) (keyLen : nat),
    length (argon2_IDKey password salt time memory threads keyLen) = keyLen.

Lemma aes_NewCipher_32 (key : bytes) :
  length key = 32%nat -> crypto.aes_NewCipher key = Ok key.
Proof. intros Hk. unfold crypto.aes_NewCipher. rewrite Hk. reflexivity. Qed.

(** What [Encrypt] returns, by the outcome of the draw of the nonce. *)
Lemma Encrypt_unfold (plaintext : string) (key : bytes) (w : World) :
  length key = 32%nat ->
  crypto.Encrypt plaintext key w =
  match rand_Read (rand_calls w) crypto.gcm_NonceSize with
  | Some nonce =>
      if Nat.eqb (length nonce) crypto.gcm_NonceSize
      then (Ok (nonce ++ gcm_Seal key nonce (bytes_of_string plaintext) [])%list,
            tick_rand w)
      else (Err io_ErrUnexpectedEOF, tick_rand w)
  | None => (Err rand_error, tick_rand w)
  end.
Proof.
  intros Hk. unfold crypto.Encrypt, bind, lift_result, ret.
  rewrite (aes_NewCipher_32 key Hk). unfold crypto.io_ReadFull_rand.
  destruct (rand_Read (rand_calls w) crypto.gcm_NonceSize) as [nonce|]; [|reflexivity].
  destruct (Nat.eqb (length nonce) crypto.gcm_NonceSize); reflexivity.
Qed.

(** [Decrypt] of a nonce followed by a sealed text. *)
Lemma Decrypt_sealed (plaintext : string) (key nonce : bytes) :
  length key = 32%nat -> length nonce = crypto.gcm_NonceSize ->
  crypto.Decrypt (nonce ++ gcm_Seal key nonce (bytes_of_string plaintext) [])%list key
  = Ok plaintext.
Proof.
  intros Hk Hn. unfold crypto.Decrypt. rewrite (aes_NewCipher_32 key Hk).
  rewrite length_app, Hn.
  destruct (Nat.ltb_spec
              (crypto.gcm_NonceSize + length (gcm_Seal key nonce (bytes_of_string plaintext) []))
              crypto.gcm_NonceSize) as [Hlt|_]; [lia|].
  rewrite <- Hn, drop_app_length, take_app_length.
  rewrite (gcm_Open_Seal key nonce _ Hk Hn).
  unfold string_of_bytes, bytes_of_string.
  rewrite string_of_list_byte_of_string. reflexivity.
Qed.

(** Every blob that [Encrypt] returns decrypts to the plaintext. *)
Lemma Encrypt_Ok_Decrypt (plaintext : string) (key blob : bytes) (w w' : World) :
  length key = 32%nat ->
  crypto.Encrypt plaintext key w = (Ok blob, w') ->
  crypto.Decrypt blob key = Ok plaintext.
Proof.
  intros Hk. rewrite (Encrypt_unfold plaintext key w Hk).
  destruct (rand_Read (rand_calls w) crypto.gcm_NonceSize) as [nonce|]; [|discriminate].
  destruct (Nat.eqb_spec (length nonce) crypto.gcm_NonceSize) as [Hn|]; [|discriminate].
  intros [= <- _]. apply Decrypt_sealed; assumption.
Qed.

(** C2.  Round trip of the envelope encryption: for every plaintext and
    every 32-byte key, [Encrypt] fails only when the entropy source does
    not deliver the nonce, and [Decrypt] of the blob it returns, under
    the same key, succeeds and returns exactly the plaintext. *)
Theorem Decrypt_Encrypt (plaintext : string) (key : bytes) (w : World) :
  length key = 32%nat ->
  match crypto.Encrypt plaintext key w with
  | (Ok blob, _) => crypto.Decrypt blob key = Ok plaintext
  | (Err e, _) => fst (crypto.io_ReadFull_rand crypto.gcm_NonceSize w) = Err e
  end.
Proof.
  intros Hk.
  destruct (crypto.Encrypt plaintext key w) as [[blob|e] w'] eqn:HE.
  - eapply Encrypt_Ok_Decrypt; eassumption.
  - rewrite (Encrypt_unfold plaintext key w Hk) in HE.
    unfold crypto.io_ReadFull_rand.
    destruct (rand_Read (rand_calls w) crypto.gcm_NonceSize) as [nonce|].
    + destruct (Nat.eqb (length nonce) crypto.gcm_NonceSize); [discriminate|].
      injection HE as <- _. reflexivity.
    + injection HE as <- _. reflexivity.
Qed.

(** C8, as the code has it.  [DeriveKey] has no error return at all:
    for every password and every salt, of any length, it returns a key
    of 32 bytes. *)
Theorem DeriveKey_never_fails (password : string) (salt : bytes) :
  exists key, crypto.DeriveKey password salt = Ok key /\ length key = 32%nat.
Proof.
  eexists. split; [reflexivity|]. apply argon2_IDKey_length.
Qed.

(** ** The locked vault *)

Lemma require_initialized_locked (pm : manager.PasswordManager) (w : World) :
  manager.initialized pm = false ->
  manager.require_initialized (pm, w) = (Err NotUnlocked, (pm, w)).
Proof. intros Hl. unfold manager.require_initialized. simpl. rewrite Hl. reflexivity. Qed.

Lemma require_initialized_unlocked (pm : manager.PasswordManager) (w : World) :
  manager.initialized pm = true ->
  manager.require_initialized (pm, w) = (Ok tt, (pm, w)).
Proof. intros Hl. unfold manager.require_initialized. simpl. rewrite Hl. reflexivity. Qed.

(** A method that starts with the guard stops there on a locked
    manager. *)
Lemma guarded_locked {A} (body : M manager.State A) (pm : manager.PasswordManager)
    (w : World) :
  manager.initialized pm = false ->
  (_ <- manager.require_initialized ;; body) (pm, w) = (Err NotUnlocked, (pm, w)).
Proof.
  intros Hl. unfold bind. rewrite (require_initialized_locked pm w Hl). reflexivity.
Qed.

(** [Lock] leaves a manager without a key and with the flag down, and
    does not touch the world. *)
Lemma Lock_locks (s : manager.State) :
  manager.Lock s =
  (Ok tt, (manager.mkPasswordManager None false (manager.lastActivity (fst s)), snd s)).
Proof. reflexivity. Qed.

(** C1.  On a manager whose [initialized] flag is false (the vault is
    Locked or Uninitialized), each of the eight data operations returns
    the NotUnlocked error and leaves the manager (key, flag, activity
    time) and the world (database, files, log of storage and file
    operations) exactly as they were. *)
Theorem data_operations_need_unlock
    (pm : manager.PasswordManager) (w : World)
    (entry : models.PasswordEntry) (id : Z) (params : models.SearchParams)
    (filename : string) :
  manager.initialized pm = false ->
  manager.AddPassword entry (pm, w) = (Err NotUnlocked, (pm, w)) /\
  manager.GetPassword id (pm, w) = (Err NotUnlocked, (pm, w)) /\
  manager.GetAllPasswords (pm, w) = (Err NotUnlocked, (pm, w)) /\
  manager.UpdatePassword entry (pm, w) = (Err NotUnlocked, (pm, w)) /\
  manager.DeletePassword id (pm, w) = (Err NotUnlocked, (pm, w)) /\
  manager.SearchPasswords params (pm, w) = (Err NotUnlocked, (pm, w)) /\
  manager.ExportVault filename (pm, w) = (Err NotUnlocked, (pm, w)) /\
  manager.ImportVault filename (pm, w) = (Err NotUnlocked, (pm, w)).
Proof.
  intros Hl. repeat split; apply guarded_locked; exact Hl.
Qed.

(** ** Unlocking *)

(** [UnlockVault], case by case. *)
Lemma UnlockVault_unfold (masterPassword : string) (pm : manager.PasswordManager)
    (w : World) :
  manager.UnlockVault masterPassword (pm, w) =
  let w1 := log_io (SqlQuery salt_sql) w in
  match config (db w) !! "salt" with
  | None =>
      (Err (fmt_Errorf "failed to get salt"
              (errors_New "no salt found, please create a master password first")),
       (pm, w1))
  | Some salt =>
      let key := candidate_key masterPassword salt in
      let w2 := log_io (SqlQuery test_vector_sql) w1 in
      let testVector := config (db w) !! "test_vector" ≫= storage.scan_bytes in
      match crypto.Decrypt (slice_contents testVector) key with
      | Ok _ => (Ok tt, (manager.mkPasswordManager (Some key) true (now w), w2))
      | Err _ => (Err InvalidCredential, (pm, w2))
      end
  end.
Proof.
  unfold manager.UnlockVault, bind, wrap, manager.call, lift_result,
    storage.GetSalt, storage.GetTestVector, crypto.VerifyKey, crypto.DeriveKey,
    candidate_key.
  simpl.
  destruct (config (db w) !! "salt") as [salt|]; simpl; [|reflexivity].
  destruct (config (db w) !! "test_vector") as [tv|]; simpl.
  - destruct (crypto.Decrypt _ _); reflexivity.
  - destruct (crypto.Decrypt _ _); reflexivity.
Qed.

(** No key opens a missing test vector. *)
Lemma VerifyKey_nil (key : bytes) : crypto.VerifyKey key None = Ok false.
Proof.
  unfold crypto.VerifyKey, crypto.Decrypt. simpl.
  destruct (crypto.aes_NewCipher key); reflexivity.
Qed.

Lemma Decrypt_nil_too_short (key : bytes) :
  length key = 32%nat ->
  crypto.Decrypt (slice_contents None) key = Err (errors_New "ciphertext too short").
Proof.
  intros Hk. unfold crypto.Decrypt. rewrite (aes_NewCipher_32 key Hk). reflexivity.
Qed.

(** C10.  With a salt in the store and no [test_vector] entry,
    [GetTestVector] returns a nil vector and no error, [VerifyKey] of any
    key against it is false, for the derived key because the blob is too
    short, and [UnlockVault] with any password fails with the
    invalid-master-password error, the manager unchanged and the
    database and the files untouched. *)
Theorem unlock_without_test_vector
    (masterPassword : string) (pm : manager.PasswordManager) (w : World)
    (salt : SqlValue) :
  config (db w) !! "salt" = Some salt ->
  config (db w) !! "test_vector" = None ->
  fst (storage.GetTestVector w) = Ok None /\
  (forall key, crypto.VerifyKey key None = Ok false) /\
  crypto.Decrypt (slice_contents None) (candidate_key masterPassword salt)
    = Err (errors_New "ciphertext too short") /\
  exists w',
    manager.UnlockVault masterPassword (pm, w) = (Err InvalidCredential, (pm, w')) /\
    db w' = db w /\ files w' = files w.
Proof.
  intros Hsalt Htv. split; [|split; [|split]].
  - unfold storage.GetTestVector. simpl. rewrite Htv. reflexivity.
  - apply VerifyKey_nil.
  - apply Decrypt_nil_too_short. apply argon2_IDKey_length.
  - rewrite UnlockVault_unfold, Hsalt, Htv. simpl.
    rewrite Decrypt_nil_too_short by apply argon2_IDKey_length.
    eexists. split; [reflexivity|]. split; reflexivity.
Qed.

(** ** Creating the vault, then unlocking it *)

Lemma master_key_length (masterPassword : string) (salt : bytes) :
  length (master_key masterPassword salt) = 32%nat.
Proof. apply argon2_IDKey_length. Qed.

(** What a successful [CreateMasterPassword] leaves behind: the salt and
    the sealed test string in the [config] table, the derived key in the
    manager. *)
Lemma CreateMasterPassword_Ok (masterPassword : string)
    (pm pm1 : manager.PasswordManager) (w w1 : World) :
  manager.CreateMasterPassword masterPassword (pm, w) = (Ok tt, (pm1, w1)) ->
  exists salt nonce : bytes,
    length nonce = crypto.gcm_NonceSize /\
    config (db w1) !! "salt" = Some (SBlob salt) /\
    config (db w1) !! "test_vector" =
      Some (SBlob (nonce ++ gcm_Seal (master_key masterPassword salt) nonce
                              (bytes_of_string testData) [])%list) /\
    pm1 = manager.mkPasswordManager (Some (master_key masterPassword salt)) true (now w) /\
    passwords (db w1) = passwords (db w).
Proof.
  unfold manager.CreateMasterPassword, bind, wrap, manager.call, ret.
  cbn [fst snd].
  unfold crypto.GenerateSalt at 1. unfold crypto.io_ReadFull_rand at 1.
  destruct (rand_Read (rand_calls w) 16) as [salt|]; [|discriminate].
  destruct (Nat.eqb (length salt) 16); [|discriminate].
  cbn [storage.SaveSalt crypto.DeriveKey manager.set_masterKey modify fst snd].
  fold (master_key masterPassword salt). fold testData.
  rewrite Encrypt_unfold by apply master_key_length.
  match goal with |- context [rand_Read ?i ?n] =>
    destruct (rand_Read i n) as [nonce|]; [|discriminate] end.
  destruct (Nat.eqb_spec (length nonce) crypto.gcm_NonceSize) as [Hn|]; [|discriminate].
  cbn. intros [= <- <-]. exists salt, nonce.
  split; [exact Hn|]. cbn.
  split; [|split; [|split]]; try reflexivity.
  - rewrite lookup_insert_ne by discriminate. apply lookup_insert_eq.
  - apply lookup_insert_eq.
Qed.

(** C3.  After [CreateMasterPassword p] has succeeded, [UnlockVault p]
    succeeds on any manager over a store with that [config] table, keeps
    the store as it is, and leaves the manager Unlocked, holding the key
    derived from [p] and the salt.  And whenever the key derived from a
    password [q] and the stored salt does not verify against the stored
    test vector, [UnlockVault q] fails with the invalid-master-password
    error and leaves the manager as it was: a Locked manager without a
    key stays Locked without a key. *)
Theorem unlock_after_create
    (p : string) (pm0 pm1 : manager.PasswordManager) (w0 w1 : World) :
  manager.CreateMasterPassword p (pm0, w0) = (Ok tt, (pm1, w1)) ->
  (forall (pm : manager.PasswordManager) (w : World),
     config (db w) = config (db w1) ->
     exists (key : bytes) (w' : World),
       manager.UnlockVault p (pm, w) = (Ok tt, (manager.mkPasswordManager (Some key) true (now w), w')) /\
       manager.masterKey pm1 = Some key /\
       manager.IsLocked (manager.mkPasswordManager (Some key) true (now w)) = false /\
       db w' = db w) /\
  (forall (q : string) (pm : manager.PasswordManager) (w : World) (salt : SqlValue),
     config (db w) !! "salt" = Some salt ->
     crypto.VerifyKey (candidate_key q salt)
       (config (db w) !! "test_vector" ≫= storage.scan_bytes) = Ok false ->
     exists w' : World,
       manager.UnlockVault q (pm, w) = (Err InvalidCredential, (pm, w')) /\
       db w' = db w /\
       (manager.initialized pm = false -> manager.masterKey pm = None ->
        manager.IsLocked pm = true /\ manager.masterKey pm = None)).
Proof.
  intros Hcreate.
  destruct (CreateMasterPassword_Ok p pm0 pm1 w0 w1 Hcreate)
    as (salt & nonce & Hn & Hsalt & Htv & Hpm & _).
  split.
  - intros pm w Hcfg.
    rewrite UnlockVault_unfold, Hcfg, Hsalt, Htv.
    cbv zeta. cbn [mbind option_bind storage.scan_bytes slice_contents default].
    unfold candidate_key. cbn [storage.scan_bytes slice_contents default].
    unfold id. fold (master_key p salt).
    rewrite Decrypt_sealed by (apply master_key_length || exact Hn).
    eexists _, _. split; [reflexivity|]. subst pm1. cbn.
    repeat split.
  - intros q pm w vsalt Hs Hverify.
    rewrite UnlockVault_unfold, Hs. cbn.
    unfold crypto.VerifyKey in Hverify.
    destruct (crypto.Decrypt _ _); [discriminate|].
    eexists. split; [reflexivity|]. split; [reflexivity|].
    intros Hi Hk. unfold manager.IsLocked. rewrite Hi. split; [reflexivity|exact Hk].
Qed.

(** A manager that [CreateMasterPassword] or [UnlockVault] has just
    unlocked holds a key of 32 bytes. *)
Lemma unlocked_by_create (masterPassword : string)
    (pm pm1 : manager.PasswordManager) (w w1 : World) :
  manager.CreateMasterPassword masterPassword (pm, w) = (Ok tt, (pm1, w1)) ->
  exists key, Unlocked pm1 key.
Proof.
  intros Hcreate.
  destruct (CreateMasterPassword_Ok _ _ _ _ _ Hcreate) as (salt & _ & _ & _ & _ & -> & _).
  exists (master_key masterPassword salt). repeat split. apply master_key_length.
Qed.

Lemma unlocked_by_unlock (masterPassword : string)
    (pm pm1 : manager.PasswordManager) (w w1 : World) :
  manager.UnlockVault masterPassword (pm, w) = (Ok tt, (pm1, w1)) ->
  exists key, Unlocked pm1 key.
Proof.
  rewrite UnlockVault_unfold. cbv zeta.
  destruct (config (db w) !! "salt") as [salt|]; [|discriminate].
  destruct (crypto.Decrypt _ _); [|discriminate].
  intros [= <- _]. exists (candidate_key masterPassword salt).
  repeat split. apply argon2_IDKey_length.
Qed.

(** ** Records: add, then get *)

Lemma Encrypt_cases (plaintext : string) (key : bytes) (w : World) :
  length key = 32%nat ->
  (exists blob, crypto.Encrypt plaintext key w = (Ok blob, tick_rand w) /\
                sealed key plaintext blob) \/
  (exists e, crypto.Encrypt plaintext key w = (Err e, tick_rand w) /\ entropy_error e).
Proof.
  intros Hk. rewrite (Encrypt_unfold plaintext key w Hk).
  destruct (rand_Read (rand_calls w) crypto.gcm_NonceSize) as [nonce|].
  - destruct (Nat.eqb_spec (length nonce) crypto.gcm_NonceSize) as [Hn|Hn].
    + left. eexists. split; [reflexivity|]. exists nonce. split; [exact Hn|reflexivity].
    + right. eexists. split; [reflexivity|]. right. reflexivity.
  - right. eexists. split; [reflexivity|]. left. reflexivity.
Qed.

(** [Encrypt], by the outcome of the draw of the nonce. *)
Lemma Encrypt_by_draw (plaintext : string) (key : bytes) (w : World) :
  length key = 32%nat ->
  (exists blob, crypto.Encrypt plaintext key w = (Ok blob, tick_rand w) /\
                sealed key plaintext blob /\
                is_Ok (fst (crypto.io_ReadFull_rand crypto.gcm_NonceSize w)) = true) \/
  (exists e, crypto.Encrypt plaintext key w = (Err e, tick_rand w) /\
             entropy_error e /\
             fst (crypto.io_ReadFull_rand crypto.gcm_NonceSize w) = Err e).
Proof.
  intros Hk. rewrite (Encrypt_unfold plaintext key w Hk).
  unfold crypto.io_ReadFull_rand.
  destruct (rand_Read (rand_calls w) crypto.gcm_NonceSize) as [nonce|].
  - destruct (Nat.eqb_spec (length nonce) crypto.gcm_NonceSize) as [Hn|Hn].
    + left. eexists. split; [reflexivity|].
      split; [exists nonce; split; [exact Hn|reflexivity]|reflexivity].
    + right. eexists. split; [reflexivity|]. split; [right|]; reflexivity.
  - right. eexists. split; [reflexivity|]. split; [left|]; reflexivity.
Qed.

Lemma sealed_Decrypt (key : bytes) (plaintext : string) (blob : bytes) :
  length key = 32%nat -> sealed key plaintext blob ->
  crypto.Decrypt blob key = Ok plaintext.
Proof. intros Hk (nonce & Hn & ->). apply Decrypt_sealed; assumption. Qed.

Lemma sealed_nonempty (key : bytes) (plaintext : string) (blob : bytes) :
  sealed key plaintext blob -> exists b rest, blob = b :: rest.
Proof.
  intros (nonce & Hn & ->). destruct nonce as [|b nonce]; [discriminate Hn|].
  exists b. eexists. reflexivity.
Qed.

(** The rowid that AUTOINCREMENT assigns is larger than every rowid in
    the table. *)
Lemma max_id_ge (rows : list Row) (r : Row) :
  In r rows -> col_id r <= storage.max_id rows.
Proof.
  induction rows as [|r' rows IH]; simpl; [tauto|].
  intros [->|Hin]; [lia|]. specialize (IH Hin). lia.
Qed.

Lemma next_rowid_fresh (d : DB) (r : Row) :
  In r (passwords d) -> col_id r < storage.next_rowid d.
Proof. intros Hin. apply max_id_ge in Hin. unfold storage.next_rowid. lia. Qed.

Lemma find_fresh_row (rows : list Row) (r : Row) :
  (forall r', In r' rows -> col_id r' < col_id r) ->
  List.find (fun x => Z.eqb (col_id x) (col_id r)) (rows ++ [r])%list = Some r.
Proof.
  induction rows as [|r' rows IH]; simpl; intros Hlt.
  - rewrite Z.eqb_refl. reflexivity.
  - destruct (Z.eqb_spec (col_id r') (col_id r)) as [Heq|_].
    + specialize (Hlt r' (or_introl eq_refl)). lia.
    + apply IH. intros r'' Hin. apply Hlt. right. exact Hin.
Qed.

Lemma storage_AddPassword_unfold (entry : models.PasswordEntry)
    (encPassword encNotes : option bytes) (w : World) :
  storage.AddPassword entry encPassword encNotes w =
  (Ok (storage.next_rowid (db w)),
   set_db (mkDB (config (db w))
             (passwords (db w) ++ [added_row entry encPassword encNotes (log_io (SqlExec storage.insert_sql) w)])%list
             (storage.next_rowid (db w)))
     (log_io (SqlExec storage.insert_sql) w)).
Proof. reflexivity. Qed.

Lemma find_added_row (entry : models.PasswordEntry) (encPassword encNotes : option bytes)
    (w : World) (d : DB) :
  passwords d = (passwords (db w) ++ [added_row entry encPassword encNotes w])%list ->
  storage.find_password (storage.next_rowid (db w)) d
  = Some (added_row entry encPassword encNotes w).
Proof.
  intros Hd. unfold storage.find_password. rewrite Hd.
  apply (find_fresh_row (passwords (db w)) (added_row entry encPassword encNotes w)).
  intros r' Hin. apply next_rowid_fresh. exact Hin.
Qed.

Lemma slice_contents_Some (b : bytes) : slice_contents (Some b) = b.
Proof. reflexivity. Qed.

(** [GetPassword] on a row as [AddPassword] writes it. *)
Lemma GetPassword_added_row (entry : models.PasswordEntry) (pm : manager.PasswordManager)
    (key encPassword : bytes) (encNotes : option bytes) (w w0 : World) (id : Z) :
  Unlocked pm key ->
  storage.find_password id (db w) = Some (added_row entry (Some encPassword) encNotes w0) ->
  sealed key (models.Password entry) encPassword ->
  (encNotes = None /\ models.Notes entry = EmptyString \/
   exists blob, encNotes = Some blob /\ sealed key (models.Notes entry) blob) ->
  exists got s2,
    manager.GetPassword id (pm, w) = (Ok got, s2) /\
    models.ID got = storage.next_rowid (db w0) /\
    models.Title got = models.Title entry /\
    models.URL got = models.URL entry /\
    models.Username got = models.Username entry /\
    models.Category got = models.Category entry /\
    models.Password got = models.Password entry /\
    models.Notes got = models.Notes entry.
Proof.
  intros (Hi & Hkey & Hk) Hfind Hp Hnotes.
  unfold manager.GetPassword, bind.
  rewrite (require_initialized_unlocked pm w Hi).
  unfold manager.call, storage.GetPassword, lift_result, ret,
    manager.get_masterKey, manager.key_of.
  cbn [manager.updateLastActivity modify fst snd db log_io manager.masterKey].
  rewrite Hfind, Hkey.
  cbn [storage.scan_full_row added_row col_title col_url col_username col_password
       col_notes col_category col_created_at col_updated_at col_id
       storage.scan_string storage.scan_time storage.scan_bytes storage.bind_bytes].
  cbn [fst snd manager.masterKey]. rewrite !slice_contents_Some.
  rewrite (sealed_Decrypt key _ encPassword Hk Hp).
  destruct Hnotes as [[-> Hempty]|(blob & -> & Hn)].
  - cbn. eexists _, _. split; [reflexivity|]. cbn. rewrite Hempty. repeat split.
  - destruct (sealed_nonempty key _ blob Hn) as (b & rest & ->).
    cbn [storage.bind_bytes storage.scan_bytes].
    rewrite (sealed_Decrypt key _ (b :: rest) Hk Hn).
    eexists _, _. split; [reflexivity|]. cbn. repeat split.
Qed.

(** C4.  On an Unlocked manager, over a store that takes the INSERT,
    [AddPassword] fails only when the entropy source does not deliver a
    nonce: when it returns an error, that error is the one of the draw
    of the nonce for the password, or, for a record with notes, of the
    draw for the notes after the first draw has delivered, and no row
    has been written.  Otherwise, that is whenever the draws deliver,
    the new row holds the password as a sealed blob, and the notes as a
    sealed blob when they are not empty and as NULL when they are; and
    [GetPassword] of the returned id succeeds and returns the password
    and the notes exactly as supplied, the empty notes as the empty
    string. *)
Theorem add_then_get
    (entry : models.PasswordEntry) (pm : manager.PasswordManager) (w : World)
    (key : bytes) :
  Unlocked pm key ->
  match manager.AddPassword entry (pm, w) with
  | (Ok id, s1) =>
      (exists row,
         storage.find_password id (db (snd s1)) = Some row /\
         (exists blob, col_password row = SBlob blob /\
                       sealed key (models.Password entry) blob) /\
         (if String.eqb (models.Notes entry) EmptyString
          then col_notes row = SNull
          else exists blob, col_notes row = SBlob blob /\
                            sealed key (models.Notes entry) blob)) /\
      (exists got s2,
         manager.GetPassword id s1 = (Ok got, s2) /\
         models.ID got = id /\
         models.Password got = models.Password entry /\
         models.Notes got = models.Notes entry)
  | (Err e, s1) =>
      entropy_error e /\ nonce_draw_fails entry w e /\ db (snd s1) = db w
  end.
Proof.
  intros HU. pose proof HU as (Hi & Hkey & Hk).
  unfold manager.AddPassword, bind.
  rewrite (require_initialized_unlocked pm w Hi).
  unfold manager.call, ret, manager.get_masterKey, manager.key_of.
  cbn [manager.updateLastActivity modify fst snd manager.masterKey].
  rewrite Hkey, Hi, !slice_contents_Some.
  destruct (Encrypt_by_draw (models.Password entry) key w Hk)
    as [(bp & HE & Hp & Hdraw)|(e & HE & He & Hdraw)]; rewrite HE;
    [|split; [exact He|split; [left; exact Hdraw|reflexivity]]].
  cbn [fst snd].
  set (pm' := manager.mkPasswordManager (Some key) true (now w)).
  assert (HU' : Unlocked pm' key) by (repeat split; assumption).
  destruct (String.eqb_spec (models.Notes entry) EmptyString) as [Hempty|Hfull].
  - cbn [negb fst snd]. rewrite storage_AddPassword_unfold. cbn [fst snd].
    split.
    + eexists. split.
      * apply (find_added_row entry (Some bp) None w). reflexivity.
      * split; [exists bp; split; [reflexivity|exact Hp]|reflexivity].
    + match goal with |- context [manager.GetPassword ?i (_, ?ww)] =>
        destruct (GetPassword_added_row entry pm' key bp None ww w i)
          as (got & s2 & HG & Hid & _ & _ & _ & _ & Hpw & Hn) end;
        [exact HU'| |exact Hp|left; split; [reflexivity|exact Hempty]|].
      * apply (find_added_row entry (Some bp) None w). reflexivity.
      * exists got, s2. split; [exact HG|]. split; [exact Hid|]. split; assumption.
  - cbn [negb fst snd].
    destruct (Encrypt_by_draw (models.Notes entry) key (tick_rand w) Hk)
      as [(bn & HE2 & Hn & _)|(e & HE2 & He & Hdraw2)]; rewrite HE2;
      [|split; [exact He|split; [right; repeat split; assumption|reflexivity]]].
    cbn [fst snd]. rewrite storage_AddPassword_unfold. cbn [fst snd].
    split.
    + eexists. split.
      * apply (find_added_row entry (Some bp) (Some bn) w). reflexivity.
      * split; [exists bp; split; [reflexivity|exact Hp]|].
        exists bn. split; [reflexivity|exact Hn].
    + match goal with |- context [manager.GetPassword ?i (_, ?ww)] =>
        destruct (GetPassword_added_row entry pm' key bp (Some bn) ww w i)
          as (got & s2 & HG & Hid & _ & _ & _ & _ & Hpw & Hnn) end;
        [exact HU'| |exact Hp|right; exists bn; split; [reflexivity|exact Hn]|].
      * apply (find_added_row entry (Some bp) (Some bn) w). reflexivity.
      * exists got, s2. split; [exact HG|]. split; [exact Hid|]. split; assumption.
Qed.

(** ** Listing and search *)




(** ** Import as one transaction *)

Lemma import_exec_unfold (entry : gmap string GoVal) (w : World) :
  storage.import_exec entry w =
  let w1 := log_io (SqlExec storage.import_sql) w in
  match entry_row (storage.next_rowid (db w)) entry with
  | Err e => (Err e, w1)
  | Ok r =>
      (Ok tt, set_db (mkDB (config (db w)) (passwords (db w) ++ [r])%list (col_id r)) w1)
  end.
Proof.
  unfold storage.import_exec, entry_row, storage.insert_password. cbv zeta.
  destruct (storage.bind_arg (storage.index entry "title")) as [title|]; [|reflexivity].
  destruct (storage.bind_arg (storage.index entry "url")); [|reflexivity].
  destruct (storage.bind_arg (storage.index entry "username")); [|reflexivity].
  destruct (storage.bind_arg (storage.index entry "password")); [|reflexivity].
  destruct (storage.bind_arg (storage.index entry "notes")); [|reflexivity].
  destruct (storage.bind_arg (storage.index entry "category")); [|reflexivity].
  destruct (storage.bind_arg (storage.index entry "created_at")); [|reflexivity].
  destruct (storage.bind_arg (storage.index entry "updated_at")); [|reflexivity].
  destruct (storage.text_affinity title); reflexivity.
Qed.

Lemma entry_row_id (id : Z) (entry : gmap string GoVal) (r : Row) :
  entry_row id entry = Ok r -> col_id r = id.
Proof.
  unfold entry_row.
  repeat match goal with
         | |- context [match storage.bind_arg ?v with _ => _ end] =>
             destruct (storage.bind_arg v); [|discriminate]
         end.
  match goal with |- context [storage.text_affinity ?t] =>
    destruct (storage.text_affinity t) end;
    try discriminate; intros [= <-]; reflexivity.
Qed.

Lemma max_id_app (rows : list Row) (r : Row) :
  storage.max_id (rows ++ [r]) = Z.max (storage.max_id rows) (Z.max (col_id r) 0).
Proof.
  induction rows as [|r' rows IH]; simpl; [lia|]. rewrite IH. lia.
Qed.

Lemma max_id_nonneg (rows : list Row) : 0 <= storage.max_id rows.
Proof. induction rows as [|r rows IH]; simpl; lia. Qed.

Lemma next_rowid_after_insert (d : DB) (r : Row) :
  col_id r = storage.next_rowid d ->
  storage.next_rowid (mkDB (config d) (passwords d ++ [r])%list (col_id r))
  = storage.next_rowid d + 1.
Proof.
  intros Hid. unfold storage.next_rowid in *. cbn [passwords passwords_seq].
  rewrite max_id_app. pose proof (max_id_nonneg (passwords d)). lia.
Qed.

(** The loop of the import: either every entry is inserted, in order and
    under consecutive fresh rowids, or the loop stops at the first entry
    that cannot be inserted. *)
Lemma import_loop_spec (entries : list (gmap string GoVal)) :
  forall w : World,
    match storage.import_loop entries w with
    | (Ok _, w') =>
        exists rows,
          batch_rows (storage.next_rowid (db w)) entries rows /\
          passwords (db w') = (passwords (db w) ++ rows)%list /\
          config (db w') = config (db w) /\
          files w' = files w
    | (Err e, w') =>
        exists (done : list (gmap string GoVal)) (rows : list Row)
               (entry : gmap string GoVal) (rest : list (gmap string GoVal)),
          entries = (done ++ entry :: rest)%list /\
          batch_rows (storage.next_rowid (db w)) done rows /\
          entry_row (storage.next_rowid (db w) + Z.of_nat (length done)) entry = Err e /\
          passwords (db w') = (passwords (db w) ++ rows)%list /\
          files w' = files w
    end.
Proof.
  induction entries as [|entry entries IH]; intros w.
  - cbn. exists []. cbn. rewrite app_nil_r. repeat split.
  - cbn [storage.import_loop]. unfold bind at 1. rewrite import_exec_unfold. cbv zeta.
    destruct (entry_row (storage.next_rowid (db w)) entry) as [r|e] eqn:Hrow.
    + pose proof (entry_row_id _ _ _ Hrow) as Hid.
      match goal with |- context [storage.import_loop entries ?w1] =>
        specialize (IH w1); destruct (storage.import_loop entries w1) as [[[]|e] w'] end.
      * destruct IH as (rows & Hbatch & Hrows & Hcfg & Hfiles).
        cbn [db set_db log_io] in Hbatch, Hrows, Hcfg.
        rewrite (next_rowid_after_insert (db w) r Hid) in Hbatch.
        exists (r :: rows). split; [split; assumption|].
        rewrite Hrows. cbn [passwords]. rewrite <- app_assoc. repeat split; assumption.
      * destruct IH as (done & rows & bad & rest & -> & Hbatch & Hbad & Hrows & Hfiles).
        cbn [db set_db log_io] in Hbatch, Hbad, Hrows.
        rewrite (next_rowid_after_insert (db w) r Hid) in Hbatch, Hbad.
        exists (entry :: done), (r :: rows), bad, rest.
        split; [reflexivity|]. split; [split; assumption|].
        split; [|split; [|exact Hfiles]].
        -- cbn [length]. rewrite Nat2Z.inj_succ.
           replace (storage.next_rowid (db w) + Z.succ (Z.of_nat (length done)))
             with (storage.next_rowid (db w) + 1 + Z.of_nat (length done)) by lia.
           exact Hbad.
        -- rewrite Hrows. cbn [passwords]. rewrite <- app_assoc. reflexivity.
    + exists [], [], entry, entries. cbn. rewrite Z.add_0_r, app_nil_r.
      repeat split. exact Hrow.
Qed.

(** C6.  [ImportData] is all or nothing.  When an insert of the batch
    fails, after any number of successful ones, the call returns that
    error and the database is the one before the call: no row of the
    batch remains.  When it succeeds, the table is the old table followed
    by one new row per entry, in order, under consecutive rowids that the
    store assigns beyond every rowid in use, and the [config] table is
    unchanged. *)
Theorem import_all_or_nothing (entries : list (gmap string GoVal)) (w : World) :
  match storage.ImportData entries w with
  | (Err e, w') =>
      db w' = db w /\
      exists (done : list (gmap string GoVal)) (rows : list Row)
             (entry : gmap string GoVal) (rest : list (gmap string GoVal)),
        entries = (done ++ entry :: rest)%list /\
        batch_rows (storage.next_rowid (db w)) done rows /\
        entry_row (storage.next_rowid (db w) + Z.of_nat (length done)) entry = Err e
  | (Ok _, w') =>
      exists rows,
        batch_rows (storage.next_rowid (db w)) entries rows /\
        passwords (db w') = (passwords (db w) ++ rows)%list /\
        config (db w') = config (db w) /\
        (forall old, In old (passwords (db w)) -> col_id old < storage.next_rowid (db w))
  end.
Proof.
  unfold storage.ImportData.
  pose proof (import_loop_spec entries (log_io TxBegin w)) as Hloop.
  destruct (storage.import_loop entries (log_io TxBegin w)) as [[[]|e] w'].
  - destruct Hloop as (rows & Hbatch & Hrows & Hcfg & _).
    exists rows. repeat split; try assumption.
    intros old Hin. apply next_rowid_fresh. exact Hin.
  - destruct Hloop as (done & rows & entry & rest & Hsplit & Hbatch & Hbad & _).
    split; [reflexivity|]. exists done, rows, entry, rest. repeat split; assumption.
Qed.

(** ** base64 *)

Section list_ind3.
Context {A : Type} (P : list A -> Prop).
Hypothesis P0 : P [].
Hypothesis P1 : forall a, P [a].
Hypothesis P2 : forall a b, P [a; b].
Hypothesis P3 : forall a b c rest, P rest -> P (a :: b :: c :: rest).

(** Induction three elements at a time, as the encoder consumes its
    input. *)
Fixpoint list_ind3 (l : list A) : P l :=
  match l with
  | [] => P0
  | [a] => P1 a
  | [a; b] => P2 a b
  | a :: b :: c :: rest => P3 a b c rest (list_ind3 rest)
  end.
End list_ind3.

Lemma sextets_decode :
  forallb (fun i => match base64.char_sextet (base64.sextet_char (N.of_nat i)) with
                    | Some m => N.eqb m (N.of_nat i)
                    | None => false
                    end
                    && negb (Ascii.eqb (base64.sextet_char (N.of_nat i)) base64.pad)
                    && negb (base64.is_newline (base64.sextet_char (N.of_nat i))))
    (seq 0 64) = true.
Proof. vm_compute. reflexivity. Qed.

Lemma sextet_char_spec (n : N) :
  (n < 64)%N ->
  base64.char_sextet (base64.sextet_char n) = Some n /\
  Ascii.eqb (base64.sextet_char n) base64.pad = false /\
  base64.is_newline (base64.sextet_char n) = false.
Proof.
  intros Hn. pose proof sextets_decode as Hall.
  rewrite forallb_forall in Hall. specialize (Hall (N.to_nat n)).
  rewrite N2Nat.id in Hall.
  assert (Hin : In (N.to_nat n) (seq 0 64)) by (apply in_seq; lia).
  specialize (Hall Hin).
  apply andb_prop in Hall as [Hall Hnl]. apply andb_prop in Hall as [Hdec Hpad].
  apply negb_true_iff in Hnl, Hpad.
  destruct (base64.char_sextet (base64.sextet_char n)) as [m|]; [|discriminate].
  apply N.eqb_eq in Hdec. subst m. repeat split; assumption.
Qed.

Lemma byte_of_to_N (a : byte) : base64.byte_of_N (Byte.to_N a) = a.
Proof. unfold base64.byte_of_N. rewrite Byte.of_to_N. reflexivity. Qed.

Lemma to_N_lt (a : byte) : (Byte.to_N a < 256)%N.
Proof. pose proof (Byte.to_N_bounded a). lia. Qed.

Ltac sextet c :=
  let H := fresh "Hs" in
  destruct (sextet_char_spec c) as (H & ? & ?);
  [ zify; Z.to_euclidean_division_equations; lia
  | rewrite ?H ].

Lemma decode_quanta_encode (src : bytes) :
  base64.decode_quanta (base64.EncodeToString src) = Some src.
Proof.
  induction src as [|a|a b|a b c rest IH] using list_ind3.
  - reflexivity.
  - pose proof (to_N_lt a).
    cbn [base64.EncodeToString base64.decode_quanta].
    sextet (Byte.to_N a / 4)%N. sextet (Byte.to_N a mod 4 * 16)%N.
    replace (Byte.to_N a / 4 * 4 + Byte.to_N a mod 4 * 16 / 16)%N with (Byte.to_N a)
      by (zify; Z.to_euclidean_division_equations; lia).
    rewrite byte_of_to_N. reflexivity.
  - pose proof (to_N_lt a). pose proof (to_N_lt b).
    cbn [base64.EncodeToString base64.decode_quanta].
    sextet (Byte.to_N a / 4)%N.
    sextet (Byte.to_N a mod 4 * 16 + Byte.to_N b / 16)%N.
    sextet (Byte.to_N b mod 16 * 4)%N.
    match goal with H : Ascii.eqb (base64.sextet_char (_ mod 16 * 4)) _ = false |- _ =>
      rewrite H end.
    replace (Byte.to_N a / 4 * 4 + (Byte.to_N a mod 4 * 16 + Byte.to_N b / 16) / 16)%N
      with (Byte.to_N a) by (zify; Z.to_euclidean_division_equations; lia).
    replace ((Byte.to_N a mod 4 * 16 + Byte.to_N b / 16) mod 16 * 16
             + Byte.to_N b mod 16 * 4 / 4)%N
      with (Byte.to_N b) by (zify; Z.to_euclidean_division_equations; lia).
    rewrite !byte_of_to_N. reflexivity.
  - pose proof (to_N_lt a). pose proof (to_N_lt b). pose proof (to_N_lt c).
    cbn [base64.EncodeToString base64.decode_quanta].
    sextet (Byte.to_N a / 4)%N.
    sextet (Byte.to_N a mod 4 * 16 + Byte.to_N b / 16)%N.
    sextet (Byte.to_N b mod 16 * 4 + Byte.to_N c / 64)%N.
    sextet (Byte.to_N c mod 64)%N.
    match goal with H : Ascii.eqb (base64.sextet_char (_ mod 64)) _ = false |- _ =>
      rewrite H end.
    rewrite IH.
    replace (Byte.to_N a / 4 * 4 + (Byte.to_N a mod 4 * 16 + Byte.to_N b / 16) / 16)%N
      with (Byte.to_N a) by (zify; Z.to_euclidean_division_equations; lia).
    replace ((Byte.to_N a mod 4 * 16 + Byte.to_N b / 16) mod 16 * 16
             + (Byte.to_N b mod 16 * 4 + Byte.to_N c / 64) / 4)%N
      with (Byte.to_N b) by (zify; Z.to_euclidean_division_equations; lia).
    replace ((Byte.to_N b mod 16 * 4 + Byte.to_N c / 64) mod 4 * 64 + Byte.to_N c mod 64)%N
      with (Byte.to_N c) by (zify; Z.to_euclidean_division_equations; lia).
    rewrite !byte_of_to_N. reflexivity.
Qed.

Lemma strip_newlines_encode (src : bytes) :
  base64.strip_newlines (base64.EncodeToString src) = base64.EncodeToString src.
Proof.
  assert (Hpad : base64.is_newline base64.pad = false) by reflexivity.
  induction src as [|a|a b|a b c rest IH] using list_ind3.
  - reflexivity.
  - pose proof (to_N_lt a).
    cbn [base64.EncodeToString base64.strip_newlines].
    sextet (Byte.to_N a / 4)%N. sextet (Byte.to_N a mod 4 * 16)%N.
    repeat match goal with H : base64.is_newline _ = false |- _ => rewrite H; clear H end.
    reflexivity.
  - pose proof (to_N_lt a). pose proof (to_N_lt b).
    cbn [base64.EncodeToString base64.strip_newlines].
    sextet (Byte.to_N a / 4)%N.
    sextet (Byte.to_N a mod 4 * 16 + Byte.to_N b / 16)%N.
    sextet (Byte.to_N b mod 16 * 4)%N.
    repeat match goal with H : base64.is_newline _ = false |- _ => rewrite H; clear H end.
    reflexivity.
  - pose proof (to_N_lt a). pose proof (to_N_lt b). pose proof (to_N_lt c).
    cbn [base64.EncodeToString base64.strip_newlines].
    sextet (Byte.to_N a / 4)%N.
    sextet (Byte.to_N a mod 4 * 16 + Byte.to_N b / 16)%N.
    sextet (Byte.to_N b mod 16 * 4 + Byte.to_N c / 64)%N.
    sextet (Byte.to_N c mod 64)%N.
    repeat match goal with H : base64.is_newline _ = false |- _ => rewrite H; clear H end.
    rewrite IH. reflexivity.
Qed.

(** [DecodeString] inverts [EncodeToString]. *)
Lemma DecodeString_EncodeToString (src : bytes) :
  base64.DecodeString (base64.EncodeToString src) = Ok src.
Proof.
  unfold base64.DecodeString.
  rewrite strip_newlines_encode, decode_quanta_encode. reflexivity.
Qed.

(** The encoding of a non-empty slice is longer than the slice. *)
Lemma EncodeToString_longer (src : bytes) :
  src <> [] -> (length src < String.length (base64.EncodeToString src))%nat.
Proof.
  induction src as [|a|a b|a b c rest IH] using list_ind3; intros Hne.
  - congruence.
  - cbn [base64.EncodeToString String.length length]. lia.
  - cbn [base64.EncodeToString String.length length]. lia.
  - cbn [base64.EncodeToString String.length length].
    destruct rest as [|d rest];
      [cbn [base64.EncodeToString String.length length]; lia|].
    assert (Hrest : d :: rest <> []) by discriminate.
    specialize (IH Hrest). cbn [length] in IH |- *. lia.
Qed.

Lemma length_bytes_of_string (s : string) :
  length (bytes_of_string s) = String.length s.
Proof.
  unfold bytes_of_string, list_byte_of_string.
  rewrite length_map. induction s as [|c s IH]; cbn; [reflexivity|]. rewrite IH. reflexivity.
Qed.

(** So the base64 text of a non-empty blob, read as bytes, is not the
    blob. *)
Lemma base64_text_differs (blob : bytes) :
  blob <> [] -> bytes_of_string (base64.EncodeToString blob) <> blob.
Proof.
  intros Hne Heq. pose proof (EncodeToString_longer blob Hne) as Hlt.
  rewrite <- length_bytes_of_string, Heq in Hlt. lia.
Qed.

(** ** JSON: what comes back from a document that [Marshal] wrote *)

Lemma unmarshal_marshal_object (m : gmap string GoVal) :
  encoding_json.unmarshal_object (encoding_json.marshal_object m) = Ok (reread <$> m).
Proof.
  unfold encoding_json.unmarshal_object, encoding_json.marshal_object. f_equal.
  rewrite <- list_fmap_compose.
  rewrite (list_fmap_ext _ (prod_map id reread) (map_to_list m))
    by (intros i [k v] _; reflexivity).
  rewrite <- fmap_reverse, list_to_map_fmap. f_equal.
  rewrite <- (list_to_map_to_list m) at 2.
  apply list_to_map_proper.
  - rewrite fmap_reverse, reverse_Permutation. apply NoDup_fst_map_to_list.
  - apply reverse_Permutation.
Qed.

Lemma unmarshal_marshal_objects (entries : list (gmap string GoVal)) :
  encoding_json.unmarshal_objects (List.map encoding_json.marshal_object entries)
  = Ok (List.map (fmap reread) entries).
Proof.
  induction entries as [|m entries IH]; [reflexivity|].
  cbn [List.map encoding_json.unmarshal_objects].
  rewrite unmarshal_marshal_object, IH. reflexivity.
Qed.

(** The contract of the JSON syntax: the parser reads back the document
    that the encoder wrote for a list of records. *)
Hypothesis json_parse_text :
  forall entries : list (gmap string GoVal),
    json_parse (json_text (encoding_json.marshal_entries entries))
    = Some (encoding_json.marshal_entries entries).

Lemma Unmarshal_Marshal (entries : list (gmap string GoVal)) (text : string) :
  encoding_json.Marshal entries = Ok text ->
  encoding_json.Unmarshal text = Ok (List.map (fmap reread) entries).
Proof.
  unfold encoding_json.Marshal, encoding_json.Unmarshal. intros [= <-].
  rewrite json_parse_text.
  destruct entries as [|m entries]; [reflexivity|].
  apply (unmarshal_marshal_objects (m :: entries)).
Qed.

(** ** Export, then import *)

Ltac lookup_literal :=
  unfold storage.index; rewrite ?lookup_fmap;
  repeat first [ rewrite lookup_insert_eq
               | rewrite lookup_insert_ne by discriminate ];
  cbn [fmap option_fmap option_map default reread
       encoding_json.marshal_value encoding_json.unmarshal_value storage.bind_arg].

Lemma entry_row_of_export (r : Row) (m : gmap string GoVal) (id : Z) :
  storage.export_row r = Ok m ->
  exists r', entry_row id (reread <$> m) = Ok r' /\ reimported r r'.
Proof.
  unfold storage.export_row.
  destruct (storage.scan_string (col_title r)) as [title|] eqn:Ht; [|discriminate].
  destruct (storage.scan_string (col_url r)) as [url|]; [|discriminate].
  destruct (storage.scan_string (col_username r)) as [username|]; [|discriminate].
  destruct (storage.scan_string (col_category r)) as [category|]; [|discriminate].
  destruct (storage.scan_time (col_created_at r)) as [createdAt|]; [|discriminate].
  destruct (storage.scan_time (col_updated_at r)) as [updatedAt|]; [|discriminate].
  intros [= <-]. unfold entry_row.
  do 8 lookup_literal.
  unfold reimported, base64_column.
  destruct (storage.scan_bytes (col_password r)) as [pb|];
    destruct (storage.scan_bytes (col_notes r)) as [nb|];
    cbn; eexists; (split; [reflexivity|]); cbn;
    (split; [reflexivity|]); (split; [reflexivity|]); exists title;
    (split; [exact Ht|reflexivity]).
Qed.

Lemma batch_rows_of_export (rows : list Row) :
  forall (entries : list (gmap string GoVal)) (first : Z) (news : list Row),
    storage.export_rows rows = Ok entries ->
    batch_rows first (List.map (fmap reread) entries) news ->
    Forall2 reimported rows news.
Proof.
  induction rows as [|r rows IH]; cbn [storage.export_rows]; intros entries first news.
  - intros [= <-]. destruct news; cbn; [constructor|tauto].
  - destruct (storage.export_row r) as [m|] eqn:Hrow; [|discriminate].
    destruct (storage.export_rows rows) as [ms|]; [|discriminate].
    intros [= <-]. cbn [List.map batch_rows].
    destruct news as [|new news]; [tauto|]. intros [Hnew Hbatch].
    destruct (entry_row_of_export r m first Hrow) as (r' & Hr' & Hre).
    rewrite Hr' in Hnew. injection Hnew as <-.
    constructor; [exact Hre|]. eapply IH; [reflexivity|exact Hbatch].
Qed.

Lemma export_rows_importable (rows : list Row) :
  forall (entries done rest : list (gmap string GoVal)) (entry : gmap string GoVal)
         (id : Z) (e : error),
    storage.export_rows rows = Ok entries ->
    List.map (fmap reread) entries = (done ++ entry :: rest)%list ->
    entry_row id entry <> Err e.
Proof.
  induction rows as [|r rows IH]; cbn [storage.export_rows];
    intros entries done rest entry id e.
  - intros [= <-]. destruct done; discriminate.
  - destruct (storage.export_row r) as [m|] eqn:Hrow; [|discriminate].
    destruct (storage.export_rows rows) as [ms|]; [|discriminate].
    intros [= <-]. cbn [List.map]. destruct done as [|d done]; cbn [app].
    + intros [= <- _].
      destruct (entry_row_of_export r m id Hrow) as (r' & Hr' & _).
      rewrite Hr'. discriminate.
    + intros [= _ Hrest]. eapply IH; [reflexivity|exact Hrest].
Qed.

(** What a successful [ExportVault] has done. *)
Lemma ExportVault_Ok (filename : string) (pm : manager.PasswordManager) (w : World)
    (key : bytes) (s1 : manager.State) :
  Unlocked pm key ->
  manager.ExportVault filename (pm, w) = (Ok tt, s1) ->
  exists (entries : list (gmap string GoVal)) (text : string) (blob : bytes),
    storage.export_rows (passwords (db w)) = Ok entries /\
    encoding_json.Marshal entries = Ok text /\
    sealed key text blob /\
    files (snd s1) !! filename = Some (base64.EncodeToString blob) /\
    db (snd s1) = db w /\
    Unlocked (fst s1) key.
Proof.
  intros (Hi & Hkey & Hk).
  unfold manager.ExportVault, bind.
  rewrite (require_initialized_unlocked pm w Hi).
  unfold manager.call, lift_result, manager.get_masterKey, manager.key_of,
    storage.ExportData.
  cbn [manager.updateLastActivity modify fst snd db log_io manager.masterKey].
  rewrite Hkey, Hi, !slice_contents_Some.
  destruct (storage.export_rows (passwords (db w))) as [entries|]; [|discriminate].
  cbn [encoding_json.Marshal].
  match goal with |- context [crypto.Encrypt ?t key ?w1] =>
    destruct (Encrypt_cases t key w1 Hk) as [(blob & HE & Hs)|(e & HE & He)];
    rewrite HE; [|discriminate] end.
  cbn [fst snd]. unfold os_WriteFile. cbv zeta.
  destruct (os_WriteFile_fault filename _) as [[e [n|]]|]; try discriminate.
  intros [= <-]. cbn [fst snd files set_files db log_io].
  eexists entries, _, blob. split; [reflexivity|]. split; [reflexivity|].
  split; [exact Hs|]. split; [apply lookup_insert_eq|]. split; [reflexivity|].
  repeat split. exact Hk.
Qed.

(** The imported copy of a row with a non-empty password blob does not
    hold that blob. *)
Lemma reimported_blob_differs (old new : Row) (blob : bytes) :
  reimported old new -> col_password old = SBlob blob -> blob <> [] ->
  col_password new = SText (base64.EncodeToString blob) /\
  storage.scan_bytes (col_password new) <> Some blob.
Proof.
  intros (Hp & _ & _) Hold Hne. rewrite Hp, Hold. unfold base64_column. cbn.
  split; [reflexivity|]. intros [= Heq]. exact (base64_text_differs blob Hne Heq).
Qed.

(** C5, as the code has it.  On an Unlocked manager, [ImportVault] of a
    file that [ExportVault] has just written succeeds and appends one row
    per original row, in order.  The password and notes columns of the
    new row are not the blobs of the original row: they hold the base64
    text that [json.Marshal] wrote for them, which [ImportData] binds as
    it comes from [json.Unmarshal], a string.  For a non-empty original
    blob the bytes read back from the new row therefore differ from
    it. *)
Theorem export_then_import
    (filename : string) (pm : manager.PasswordManager) (w : World) (key : bytes)
    (s1 : manager.State) :
  Unlocked pm key ->
  manager.ExportVault filename (pm, w) = (Ok tt, s1) ->
  exists (s2 : manager.State) (news : list Row),
    manager.ImportVault filename s1 = (Ok tt, s2) /\
    passwords (db (snd s2)) = (passwords (db w) ++ news)%list /\
    Forall2 reimported (passwords (db w)) news /\
    Forall2 (fun old new =>
               forall blob, col_password old = SBlob blob -> blob <> [] ->
                            storage.scan_bytes (col_password new) <> Some blob)
      (passwords (db w)) news.
Proof.
  intros HU Hexport.
  destruct (ExportVault_Ok filename pm w key s1 HU Hexport)
    as (entries & text & blob & Hrows & Hmarshal & Hsealed & Hfile & Hdb & HU1).
  destruct s1 as [pm1 w1]. cbn [fst snd] in *.
  destruct HU1 as (Hi1 & Hkey1 & Hk).
  unfold manager.ImportVault, bind.
  rewrite (require_initialized_unlocked pm1 w1 Hi1).
  unfold manager.call, lift_result, manager.get_masterKey, manager.key_of,
    os_ReadFile.
  cbn [manager.updateLastActivity modify fst snd files log_io manager.masterKey].
  rewrite Hfile, DecodeString_EncodeToString.
  cbn [fst snd manager.masterKey]. rewrite Hkey1, slice_contents_Some.
  rewrite (sealed_Decrypt key text blob Hk Hsealed).
  rewrite (Unmarshal_Marshal entries text Hmarshal). cbn [fst snd].
  unfold storage.ImportData.
  match goal with |- context [storage.import_loop ?es ?w2] =>
    pose proof (import_loop_spec es w2) as Himport;
    destruct (storage.import_loop es w2) as [[[]|e] w3] end.
  - destruct Himport as (news & Hbatch & Hpw & _).
    cbn [db log_io] in Hbatch, Hpw. rewrite Hdb in Hbatch, Hpw.
    pose proof (batch_rows_of_export _ _ _ _ Hrows Hbatch) as Hre.
    eexists _, news. split; [reflexivity|]. cbn [fst snd db log_io].
    split; [exact Hpw|]. split; [exact Hre|].
    eapply Forall2_impl; [exact Hre|].
    intros old new Hon blob' Hold Hne.
    apply (reimported_blob_differs old new blob' Hon Hold Hne).
  - destruct Himport as (done & rows & entry & rest & Hsplit & _ & Hbad & _).
    exfalso. exact (export_rows_importable _ _ _ _ _ _ _ Hrows Hsplit Hbad).
Qed.

(** ** The password generator *)

Lemma has_class_cons (class : string) (c : ascii) (password : string) :
  has_class class password -> has_class class (String c password).
Proof. intros (c' & Hin & Hc). exists c'. split; [right; exact Hin|exact Hc]. Qed.

Lemma has_class_here (class : string) (c : ascii) (password : string) :
  generator.containsRune class c = true -> has_class class (String c password).
Proof. intros Hc. exists c. split; [left; reflexivity|exact Hc]. Qed.

(** A flag that the loop of [meetsRequirements] leaves set was set
    before or was set by a rune of its class. *)
Lemma scan_classes_sound (password : string) :
  forall l u n s l' u' n' s',
    generator.scan_classes password l u n s = (l', u', n', s') ->
    (l' = true -> l = true \/ has_class generator.lowercase password) /\
    (u' = true -> u = true \/ has_class generator.uppercase password) /\
    (n' = true -> n = true \/ has_class generator.numbers password) /\
    (s' = true -> s = true \/ has_class generator.symbols password).
Proof.
  induction password as [|c password IH]; intros l u n s l' u' n' s'.
  - cbn. intros [= <- <- <- <-]. repeat split; intros ->; left; reflexivity.
  - cbn [generator.scan_classes].
    destruct (generator.containsRune generator.lowercase c) eqn:Hl;
      [|destruct (generator.containsRune generator.uppercase c) eqn:Hu;
        [|destruct (generator.containsRune generator.numbers c) eqn:Hn;
          [|destruct (generator.containsRune generator.symbols c) eqn:Hs]]];
      intros Hscan; destruct (IH _ _ _ _ _ _ _ _ Hscan) as (Hl' & Hu' & Hn' & Hs');
      repeat split; intros Hflag;
      first [ destruct (Hl' Hflag) as [?|?] | destruct (Hu' Hflag) as [?|?]
            | destruct (Hn' Hflag) as [?|?] | destruct (Hs' Hflag) as [?|?] ];
      solve [ left; assumption
            | right; apply has_class_cons; assumption
            | right; apply has_class_here; assumption ].
Qed.

(** [meetsRequirements] accepts only passwords with a rune of every
    requested class. *)
Lemma meetsRequirements_sound (password : string) (options : generator.PasswordOptions) :
  generator.meetsRequirements password options = true ->
  (generator.IncludeLowercase options = true -> has_class generator.lowercase password) /\
  (generator.IncludeUppercase options = true -> has_class generator.uppercase password) /\
  (generator.IncludeNumbers options = true -> has_class generator.numbers password) /\
  (generator.IncludeSymbols options = true -> has_class generator.symbols password).
Proof.
  unfold generator.meetsRequirements.
  destruct (generator.scan_classes password _ _ _ _) as [[[l' u'] n'] s'] eqn:Hscan.
  intros Hall.
  apply andb_prop in Hall as [Hall Hs]. apply andb_prop in Hall as [Hall Hn].
  apply andb_prop in Hall as [Hl Hu].
  destruct (scan_classes_sound _ _ _ _ _ _ _ _ _ Hscan) as (Hl' & Hu' & Hn' & Hs').
  repeat split; intros Hinc; rewrite Hinc in *; cbn [negb] in *.
  - destruct (Hl' Hl); [discriminate|assumption].
  - destruct (Hu' Hu); [discriminate|assumption].
  - destruct (Hn' Hn); [discriminate|assumption].
  - destruct (Hs' Hs); [discriminate|assumption].
Qed.

Lemma draw_length (n : nat) (chars : list ascii) :
  forall (w w' : World) (result : list ascii),
    generator.draw n chars w = (Ok result, w') -> length result = n.
Proof.
  induction n as [|n IH]; intros w w' result.
  - cbn. intros [= <- _]. reflexivity.
  - cbn [generator.draw]. unfold bind, lift_result, ret.
    destruct (generator.randomInt _ w) as [[idx|] w1]; [|discriminate].
    destruct (generator.char_at chars idx) as [c|]; [|discriminate].
    destruct (generator.draw n chars w1) as [[rest|] w2] eqn:Hrest; [|discriminate].
    intros [= <- _]. cbn. f_equal. eapply IH. exact Hrest.
Qed.

Lemma length_string_of_list_ascii (l : list ascii) :
  String.length (string_of_list_ascii l) = length l.
Proof. induction l as [|c l IH]; cbn; [reflexivity|]. rewrite IH. reflexivity. Qed.

(** Whenever [GeneratePassword] returns a password, the password has
    [Length] runes and a rune of every requested class. *)
Lemma GeneratePassword_returns (fuel : nat) (options : generator.PasswordOptions) :
  forall (w w' : World) (password : string),
    generator.GeneratePassword fuel options w = Some (Ok password, w') ->
    String.length password = Z.to_nat (generator.Length options) /\
    generator.meetsRequirements password options = true.
Proof.
  induction fuel as [|fuel IH]; intros w w' password; [discriminate|].
  cbn [generator.GeneratePassword].
  destruct (Z.leb (generator.Length options) 0); [discriminate|].
  destruct (Nat.eqb (length (generator.charset options)) 0); [discriminate|].
  destruct (generator.draw _ _ w) as [[result|] w1] eqn:Hdraw; [|discriminate].
  destruct (generator.meetsRequirements (string_of_list_ascii result) options) eqn:Hmeets;
    cbn [negb].
  - intros [= <- _]. split; [|exact Hmeets].
    rewrite length_string_of_list_ascii. eapply draw_length. exact Hdraw.
  - apply IH.
Qed.

Lemma one_rune_misses_a_class (c : ascii) :
  generator.meetsRequirements (String c EmptyString) one_rune_two_classes = false.
Proof.
  unfold generator.meetsRequirements. cbn [generator.scan_classes
    one_rune_two_classes generator.IncludeLowercase generator.IncludeUppercase
    generator.IncludeNumbers generator.IncludeSymbols negb].
  destruct (generator.containsRune generator.lowercase c); [reflexivity|].
  destruct (generator.containsRune generator.uppercase c); [reflexivity|].
  destruct (generator.containsRune generator.numbers c); [reflexivity|].
  destruct (generator.containsRune generator.symbols c); reflexivity.
Qed.

(** With these options, which have a positive [Length] and two included
    classes, [GeneratePassword] returns a password for no number of
    attempts and no behaviour of the entropy source: every drawn string
    has one rune, misses a requested class, and makes the function call
    itself again. *)
Lemma GeneratePassword_one_rune_never_returns (fuel : nat) :
  forall (w w' : World) (password : string),
    generator.GeneratePassword fuel one_rune_two_classes w <> Some (Ok password, w').
Proof.
  induction fuel as [|fuel IH]; intros w w' password; [discriminate|].
  cbn [generator.GeneratePassword].
  change (Z.leb (generator.Length one_rune_two_classes) 0) with false. cbv iota.
  destruct (Nat.eqb (length (generator.charset one_rune_two_classes)) 0); [discriminate|].
  destruct (generator.draw _ _ w) as [[result|] w1] eqn:Hdraw; [|discriminate].
  pose proof (draw_length _ _ _ _ _ Hdraw) as Hlen.
  destruct result as [|c [|c' result]]; try discriminate Hlen.
  cbn [string_of_list_ascii]. rewrite one_rune_misses_a_class. cbn [negb].
  apply IH.
Qed.

Lemma draw_delivers (n : nat) (chars : list ascii) :
  rand_Int_delivers -> chars <> [] ->
  forall w, exists result w', generator.draw n chars w = (Ok result, w').
Proof.
  intros Hrand Hne. induction n as [|n IH]; intros w.
  - eexists _, _. reflexivity.
  - cbn [generator.draw]. unfold bind, lift_result, ret, generator.randomInt.
    assert (Hpos : 0 < Z.of_nat (length chars)) by (destruct chars; [congruence|cbn; lia]).
    destruct (Z.leb_spec (Z.of_nat (length chars)) 0) as [|_]; [lia|].
    destruct (Hrand (rand_calls w) _ Hpos) as (idx & -> & Hidx).
    unfold generator.char_at.
    destruct (Z.ltb_spec idx 0) as [|_]; [lia|].
    destruct (nth_error chars (Z.to_nat idx)) as [c|] eqn:Hnth.
    + destruct (IH (tick_rand w)) as (rest & w' & ->). eexists _, _. reflexivity.
    + apply nth_error_None in Hnth. lia.
Qed.

(** With an entropy source that delivers, the call with these options
    does not return at all, whatever the bound on the attempts. *)
Lemma GeneratePassword_one_rune_diverges (fuel : nat) :
  rand_Int_delivers ->
  forall w, generator.GeneratePassword fuel one_rune_two_classes w = None.
Proof.
  intros Hrand. induction fuel as [|fuel IH]; intros w; [reflexivity|].
  cbn [generator.GeneratePassword].
  change (Z.leb (generator.Length one_rune_two_classes) 0) with false. cbv iota.
  change (Nat.eqb (length (generator.charset one_rune_two_classes)) 0) with false.
  cbv iota.
  destruct (draw_delivers (Z.to_nat (generator.Length one_rune_two_classes))
              (generator.charset one_rune_two_classes) Hrand) with (w := w)
    as (result & w1 & Hdraw); [discriminate|].
  rewrite Hdraw. pose proof (draw_length _ _ _ _ _ Hdraw) as Hlen.
  destruct result as [|c [|c' result]]; try discriminate Hlen.
  cbn [string_of_list_ascii]. rewrite one_rune_misses_a_class. cbn [negb].
  apply IH.
Qed.

(** X26.  What [GeneratePassword] returns.  Whenever it returns a
    password, the length asked for is positive, the password has exactly
    [Length] runes, and it has a rune of every requested class.  A drawn
    string that misses a requested class is dropped whole and the
    function starts again with the same options: nothing is truncated or
    patched.  Whether the call returns is not part of this statement. *)
Theorem GeneratePassword_sound
    (fuel : nat) (options : generator.PasswordOptions) (w w' : World)
    (password : string) :
  generator.GeneratePassword fuel options w = Some (Ok password, w') ->
  (0 < generator.Length options /\
   String.length password = Z.to_nat (generator.Length options) /\
   (generator.IncludeLowercase options = true -> has_class generator.lowercase password) /\
   (generator.IncludeUppercase options = true -> has_class generator.uppercase password) /\
   (generator.IncludeNumbers options = true -> has_class generator.numbers password) /\
   (generator.IncludeSymbols options = true -> has_class generator.symbols password)) /\
  (forall (result : list ascii) (w1 : World),
     generator.draw (Z.to_nat (generator.Length options)) (generator.charset options) w
       = (Ok result, w1) ->
     generator.meetsRequirements (string_of_list_ascii result) options = false ->
     generator.GeneratePassword (S fuel) options w
       = generator.GeneratePassword fuel options w1).
Proof.
  intros Hrun.
  assert (Hpos : 0 < generator.Length options).
  { destruct fuel as [|fuel]; [discriminate|]. cbn [generator.GeneratePassword] in Hrun.
    destruct (Z.leb_spec (generator.Length options) 0); [discriminate|assumption]. }
  assert (Hchars : Nat.eqb (length (generator.charset options)) 0 = false).
  { destruct fuel as [|fuel]; [discriminate|]. cbn [generator.GeneratePassword] in Hrun.
    destruct (Z.leb (generator.Length options) 0); [discriminate|].
    destruct (Nat.eqb (length (generator.charset options)) 0); [discriminate|reflexivity]. }
  split.
  - destruct (GeneratePassword_returns fuel options w w' password Hrun) as [Hlen Hmeets].
    split; [exact Hpos|]. split; [exact Hlen|].
    apply meetsRequirements_sound. exact Hmeets.
  - intros result w1 Hdraw Hmiss. cbn [generator.GeneratePassword].
    destruct (Z.leb_spec (generator.Length options) 0); [lia|].
    rewrite Hchars, Hdraw, Hmiss. reflexivity.
Qed.

(** ** What the operations leave as it is *)

#[local] Instance same_PreOrder {S B : Type} (f : S -> B) : PreOrder (same f).
Proof.
  split; [intros s; reflexivity|].
  intros s1 s2 s3 H12 H23. unfold same in *. congruence.
Qed.

#[local] Instance seq_grows_PreOrder : PreOrder seq_grows.
Proof. split; [intros w|intros w1 w2 w3]; unfold seq_grows; lia. Qed.

#[local] Instance on_world_PreOrder (R : relation World) `{!PreOrder R} :
  PreOrder (on_world R).
Proof.
  split; [intros s; unfold on_world; reflexivity|].
  intros s1 s2 s3. unfold on_world. apply transitivity.
Qed.

Section stable.
Context {S : Type} (R : relation S) `{!PreOrder R}.

Lemma stable_ret {A} (a : A) : stable R (ret a).
Proof. intros s. reflexivity. Qed.

Lemma stable_fail {A} (e : error) : stable R (fail (A := A) e).
Proof. intros s. reflexivity. Qed.

Lemma stable_lift_result {A} (r : result A) : stable R (lift_result r).
Proof. intros s. reflexivity. Qed.

Lemma stable_bind {A B} (m : M S A) (k : A -> M S B) :
  stable R m -> (forall a, stable R (k a)) -> stable R (bind m k).
Proof.
  intros Hm Hk s. unfold bind. specialize (Hm s).
  destruct (m s) as [[a|e] s1]; cbn [snd] in *; [|exact Hm].
  transitivity s1; [exact Hm|apply Hk].
Qed.

Lemma stable_wrap {A} (msg : string) (m : M S A) : stable R m -> stable R (wrap msg m).
Proof.
  intros Hm s. unfold wrap. specialize (Hm s).
  destruct (m s) as [[a|e] s1]; exact Hm.
Qed.

Lemma stable_if {A} (b : bool) (m1 m2 : M S A) :
  stable R m1 -> stable R m2 -> stable R (if b then m1 else m2).
Proof. destruct b; tauto. Qed.

End stable.

(** The computations that only read the store, draw entropy and write
    the log are stable for every relation that ignores the log and the
    number of draws. *)
Section stable_world.
Context (R : relation World) `{!PreOrder R}.
Hypothesis R_log : forall ev w, R w (log_io ev w).
Hypothesis R_tick : forall w, R w (tick_rand w).

Lemma stable_io_ReadFull_rand (n : nat) : stable R (crypto.io_ReadFull_rand n).
Proof.
  intros w. unfold crypto.io_ReadFull_rand.
  destruct (rand_Read (rand_calls w) n) as [b|]; [|apply R_tick].
  destruct (Nat.eqb (length b) n); apply R_tick.
Qed.

Lemma stable_Encrypt (plaintext : string) (key : bytes) :
  stable R (crypto.Encrypt plaintext key).
Proof.
  unfold crypto.Encrypt.
  apply stable_bind; [assumption|apply stable_lift_result; assumption|intros block].
  apply stable_bind; [assumption|apply stable_io_ReadFull_rand|intros nonce].
  apply stable_ret; assumption.
Qed.

Lemma stable_GetSalt : stable R storage.GetSalt.
Proof.
  intros w. unfold storage.GetSalt. cbv zeta.
  destruct (config (db (log_io _ w)) !! "salt"); apply R_log.
Qed.

Lemma stable_GetTestVector : stable R storage.GetTestVector.
Proof.
  intros w. unfold storage.GetTestVector. cbv zeta.
  destruct (config (db (log_io _ w)) !! "test_vector"); apply R_log.
Qed.

Lemma stable_storage_GetPassword (id : Z) : stable R (storage.GetPassword id).
Proof.
  intros w. unfold storage.GetPassword. cbv zeta.
  destruct (storage.find_password id _); apply R_log.
Qed.

Lemma stable_storage_GetAllPasswords : stable R storage.GetAllPasswords.
Proof.
  intros w. unfold storage.GetAllPasswords. cbv zeta.
  destruct (sqlite_Query _ _ _); apply R_log.
Qed.

Lemma stable_storage_SearchPasswords (params : models.SearchParams) :
  stable R (storage.SearchPasswords params).
Proof.
  intros w. unfold storage.SearchPasswords.
  destruct (storage.search_query params) as [query args]. cbv zeta.
  destruct (sqlite_Query _ _ _); apply R_log.
Qed.

Lemma stable_ExportData : stable R storage.ExportData.
Proof. intros w. apply R_log. Qed.

Lemma stable_os_ReadFile (name : string) : stable R (os_ReadFile name).
Proof.
  intros w. unfold os_ReadFile. cbv zeta.
  destruct (files (log_io _ w) !! name); apply R_log.
Qed.

Lemma stable_randomInt (max : Z) : stable R (generator.randomInt max).
Proof.
  intros w. unfold generator.randomInt.
  destruct (Z.leb max 0); [reflexivity|].
  destruct (rand_Int (rand_calls w) max); apply R_tick.
Qed.

Lemma stable_draw (n : nat) (chars : list ascii) : stable R (generator.draw n chars).
Proof.
  induction n as [|n IH]; cbn [generator.draw]; [apply stable_ret; assumption|].
  apply stable_bind; [assumption|apply stable_randomInt|intros idx].
  apply stable_bind; [assumption|apply stable_lift_result; assumption|intros c].
  apply stable_bind; [assumption|exact IH|intros rest].
  apply stable_ret; assumption.
Qed.

Lemma stable_generator_GeneratePassword (fuel : nat) (options : generator.PasswordOptions) :
  forall (w w' : World) (r : result string),
    generator.GeneratePassword fuel options w = Some (r, w') -> R w w'.
Proof.
  induction fuel as [|fuel IH]; intros w w' r; [discriminate|].
  cbn [generator.GeneratePassword].
  destruct (Z.leb (generator.Length options) 0); [intros [= _ <-]; reflexivity|].
  destruct (Nat.eqb (length (generator.charset options)) 0);
    [intros [= _ <-]; reflexivity|].
  pose proof (stable_draw (Z.to_nat (generator.Length options))
                (generator.charset options) w) as Hdraw.
  destruct (generator.draw _ _ w) as [[result|e] w1]; cbn [snd] in Hdraw;
    [|intros [= _ <-]; exact Hdraw].
  destruct (negb (generator.meetsRequirements _ options)).
  - intros Hrec. transitivity w1; [exact Hdraw|]. eapply IH. exact Hrec.
  - intros [= _ <-]. exact Hdraw.
Qed.

(** *** The methods of the manager *)

Lemma stable_call {A} (m : M World A) : stable R m -> stable (on_world R) (manager.call m).
Proof.
  intros Hm s. unfold on_world, manager.call. specialize (Hm (snd s)).
  destruct (m (snd s)) as [r w]. exact Hm.
Qed.

Lemma stable_modify_manager (f : manager.State -> manager.PasswordManager) :
  stable (on_world R) (modify (fun s => (f s, snd s))).
Proof. intros s. unfold on_world. cbn. reflexivity. Qed.

Lemma stable_require_initialized : stable (on_world R) manager.require_initialized.
Proof.
  intros s. unfold manager.require_initialized.
  destruct (negb (manager.initialized (fst s))); reflexivity.
Qed.

Lemma stable_get_masterKey : stable (on_world R) manager.get_masterKey.
Proof. intros s. reflexivity. Qed.

End stable_world.

Ltac stabilize :=
  repeat match goal with
  | |- PreOrder _ => typeclasses eauto
  | |- forall _, _ => assumption
  | |- stable _ (bind _ _) => apply stable_bind; [| |intros ?]
  | |- stable _ (wrap _ _) => apply stable_wrap
  | |- stable _ (ret _) => apply stable_ret
  | |- stable _ (fail _) => apply stable_fail
  | |- stable _ (lift_result _) => apply stable_lift_result
  | |- stable _ (if _ then _ else _) => apply stable_if
  | |- stable _ (manager.call _) => apply stable_call
  | |- stable _ manager.require_initialized => apply stable_require_initialized
  | |- stable _ manager.get_masterKey => apply stable_get_masterKey
  | |- stable _ manager.updateLastActivity => apply stable_modify_manager
  | |- stable _ (manager.set_masterKey _) => apply stable_modify_manager
  | |- stable _ (manager.set_initialized _) => apply stable_modify_manager
  | |- stable _ (crypto.Encrypt _ _) => apply stable_Encrypt
  | |- stable _ storage.GetSalt => apply stable_GetSalt
  | |- stable _ storage.GetTestVector => apply stable_GetTestVector
  | |- stable _ (storage.GetPassword _) => apply stable_storage_GetPassword
  | |- stable _ storage.GetAllPasswords => apply stable_storage_GetAllPasswords
  | |- stable _ (storage.SearchPasswords _) => apply stable_storage_SearchPasswords
  | |- stable _ storage.ExportData => apply stable_ExportData
  | |- stable _ (os_ReadFile _) => apply stable_os_ReadFile
  | |- stable _ (let '(_, _) := ?a in _) => destruct a
  | |- stable _ (match ?a with Some _ => _ | None => _ end) => destruct a
  | |- stable _ (match ?a with [] => _ | _ :: _ => _ end) => destruct a
  | H : _ |- stable _ _ => apply H
  end.

Section stable_manager.
Context (R : relation World) `{!PreOrder R}.
Hypothesis R_log : forall ev w, R w (log_io ev w).
Hypothesis R_tick : forall w, R w (tick_rand w).

Lemma stable_UnlockVault (masterPassword : string) :
  stable (on_world R) (manager.UnlockVault masterPassword).
Proof. unfold manager.UnlockVault. stabilize. Qed.

Lemma stable_Lock : stable (on_world R) manager.Lock.
Proof. unfold manager.Lock. stabilize. Qed.

Lemma stable_GetPassword (id : Z) : stable (on_world R) (manager.GetPassword id).
Proof. unfold manager.GetPassword. stabilize. Qed.

Lemma stable_GetAllPasswords : stable (on_world R) manager.GetAllPasswords.
Proof. unfold manager.GetAllPasswords. stabilize. Qed.

Lemma stable_SearchPasswords (params : models.SearchParams) :
  stable (on_world R) (manager.SearchPasswords params).
Proof. unfold manager.SearchPasswords. stabilize. Qed.

Lemma stable_AddPassword (entry : models.PasswordEntry) :
  (forall encPassword encNotes, stable R (storage.AddPassword entry encPassword encNotes)) ->
  stable (on_world R) (manager.AddPassword entry).
Proof. intros Hadd. unfold manager.AddPassword. stabilize. Qed.

Lemma stable_UpdatePassword (entry : models.PasswordEntry) :
  (forall encPassword encNotes,
     stable R (storage.UpdatePassword entry encPassword encNotes)) ->
  stable (on_world R) (manager.UpdatePassword entry).
Proof. intros Hupdate. unfold manager.UpdatePassword. stabilize. Qed.

Lemma stable_DeletePassword (id : Z) :
  stable R (storage.DeletePassword id) ->
  stable (on_world R) (manager.DeletePassword id).
Proof. intros Hdelete. unfold manager.DeletePassword. stabilize. Qed.

Lemma stable_ExportVault (filename : string) :
  (forall data, stable R (os_WriteFile filename data)) ->
  stable (on_world R) (manager.ExportVault filename).
Proof. intros Hwrite. unfold manager.ExportVault. stabilize. Qed.

Lemma stable_ImportVault (filename : string) :
  (forall entries, stable R (storage.ImportData entries)) ->
  stable (on_world R) (manager.ImportVault filename).
Proof. intros Himport. unfold manager.ImportVault. stabilize. Qed.

Lemma stable_manager_GeneratePassword (fuel : nat) (options : generator.PasswordOptions)
    (s s' : manager.State) (r : result string) :
  manager.GeneratePassword fuel options s = Some (r, s') -> on_world R s s'.
Proof.
  unfold manager.GeneratePassword, on_world.
  cbn [manager.updateLastActivity modify fst snd].
  destruct (generator.GeneratePassword fuel options (snd s)) as [[r1 w1]|] eqn:Hgen;
    [|discriminate].
  intros [= _ <-]. cbn [snd].
  eapply stable_generator_GeneratePassword; eassumption.
Qed.

End stable_manager.

(** *** The relations that the operations respect *)

Ltac bookkeeping :=
  try typeclasses eauto;
  try (unfold stable; intros; unfold same, seq_grows, config_of, os_WriteFile; cbv zeta;
       try match goal with
           | |- context [os_WriteFile_fault ?name ?data] =>
               destruct (os_WriteFile_fault name data) as [[? [?|]]|]
           end;
       cbn; first [reflexivity|lia]).

Lemma import_loop_stable (R : relation World) `{!PreOrder R} :
  (forall entry, stable R (storage.import_exec entry)) ->
  forall entries, stable R (storage.import_loop entries).
Proof.
  intros Hexec entries. induction entries as [|entry entries IH]; cbn [storage.import_loop].
  - apply stable_ret. assumption.
  - apply stable_bind; [assumption|apply Hexec|intros _; exact IH].
Qed.

Lemma import_exec_same_config (entry : gmap string GoVal) :
  stable (same config_of) (storage.import_exec entry).
Proof.
  intros w. rewrite import_exec_unfold. cbv zeta.
  destruct (entry_row _ entry); reflexivity.
Qed.

Lemma import_exec_same_files (entry : gmap string GoVal) :
  stable (same files) (storage.import_exec entry).
Proof.
  intros w. rewrite import_exec_unfold. cbv zeta.
  destruct (entry_row _ entry); reflexivity.
Qed.

Lemma import_exec_seq_grows (entry : gmap string GoVal) :
  stable seq_grows (storage.import_exec entry).
Proof.
  intros w. rewrite import_exec_unfold. cbv zeta. unfold seq_grows.
  destruct (entry_row _ entry) as [r|] eqn:Hrow; cbn; [|lia].
  rewrite (entry_row_id _ _ _ Hrow). unfold storage.next_rowid. lia.
Qed.

Lemma ImportData_same_config (entries : list (gmap string GoVal)) :
  stable (same config_of) (storage.ImportData entries).
Proof.
  intros w. unfold storage.ImportData. cbv zeta.
  pose proof (import_loop_stable (same config_of) import_exec_same_config entries
                (log_io TxBegin w)) as Hloop.
  destruct (storage.import_loop entries (log_io TxBegin w)) as [[[]|e] w'];
    [exact Hloop|reflexivity].
Qed.

Lemma ImportData_same_files (entries : list (gmap string GoVal)) :
  stable (same files) (storage.ImportData entries).
Proof.
  intros w. unfold storage.ImportData. cbv zeta.
  pose proof (import_loop_stable (same files) import_exec_same_files entries
                (log_io TxBegin w)) as Hloop.
  destruct (storage.import_loop entries (log_io TxBegin w)) as [[[]|e] w'];
    exact Hloop.
Qed.

Lemma ImportData_seq_grows (entries : list (gmap string GoVal)) :
  stable seq_grows (storage.ImportData entries).
Proof.
  intros w. unfold storage.ImportData. cbv zeta.
  pose proof (import_loop_stable seq_grows import_exec_seq_grows entries
                (log_io TxBegin w)) as Hloop.
  destruct (storage.import_loop entries (log_io TxBegin w)) as [[[]|e] w'];
    [exact Hloop|]. unfold seq_grows. cbn. lia.
Qed.

Lemma storage_AddPassword_seq_grows (entry : models.PasswordEntry)
    (encPassword encNotes : option bytes) :
  stable seq_grows (storage.AddPassword entry encPassword encNotes).
Proof.
  intros w. rewrite storage_AddPassword_unfold. unfold seq_grows, storage.next_rowid.
  cbn. lia.
Qed.

(** A bound call leaves the [config] table as it is. *)
Lemma after_same_config (op : Operation) (s : manager.State) :
  bound_call op = true ->
  config_of (snd (after op s)) = config_of (snd s).
Proof.
  intros Hbound. change (on_world (same config_of) s (after op s)).
  destruct op; cbn [after]; try discriminate Hbound.
  - apply stable_AddPassword; bookkeeping.
  - apply stable_GetPassword; bookkeeping.
  - apply stable_GetAllPasswords; bookkeeping.
  - apply stable_UpdatePassword; bookkeeping.
  - apply stable_DeletePassword; bookkeeping.
  - apply stable_SearchPasswords; bookkeeping.
  - apply stable_ImportVault; bookkeeping. apply ImportData_same_config.
  - apply stable_Lock; bookkeeping.
  - apply stable_UnlockVault; bookkeeping.
Qed.

(** A bound call does not lower the AUTOINCREMENT counter. *)
Lemma after_seq_grows (op : Operation) (s : manager.State) :
  bound_call op = true ->
  seq_grows (snd s) (snd (after op s)).
Proof.
  intros Hbound. change (on_world seq_grows s (after op s)).
  destruct op; cbn [after]; try discriminate Hbound.
  - apply stable_AddPassword; bookkeeping. apply storage_AddPassword_seq_grows.
  - apply stable_GetPassword; bookkeeping.
  - apply stable_GetAllPasswords; bookkeeping.
  - apply stable_UpdatePassword; bookkeeping.
  - apply stable_DeletePassword; bookkeeping.
  - apply stable_SearchPasswords; bookkeeping.
  - apply stable_ImportVault; bookkeeping. apply ImportData_seq_grows.
  - apply stable_Lock; bookkeeping.
  - apply stable_UnlockVault; bookkeeping.
Qed.

Lemma after_all_same_config (ops : list Operation) :
  forallb bound_call ops = true ->
  forall s, config_of (snd (after_all ops s)) = config_of (snd s).
Proof.
  induction ops as [|op ops IH]; cbn [forallb]; intros Hbound s; [reflexivity|].
  apply andb_prop in Hbound as [Hop Hops].
  cbn [after_all fold_left]. fold (after_all ops (after op s)).
  rewrite (IH Hops). apply after_same_config. exact Hop.
Qed.

Lemma after_all_seq_grows (ops : list Operation) :
  forallb bound_call ops = true ->
  forall s, seq_grows (snd s) (snd (after_all ops s)).
Proof.
  induction ops as [|op ops IH]; cbn [forallb]; intros Hbound s;
    [unfold seq_grows; cbn; lia|].
  apply andb_prop in Hbound as [Hop Hops].
  cbn [after_all fold_left]. fold (after_all ops (after op s)).
  transitivity (snd (after op s)); [apply after_seq_grows; exact Hop|apply (IH Hops)].
Qed.

(** X1.  What each method leaves as it is, whatever it returns and
    whether the manager is locked or not.  [GetPassword],
    [GetAllPasswords], [Lock] and [UnlockVault] change neither the
    database nor the files, and neither does [SearchPasswords] when its
    sort key is a plain column name (the sort key goes into the text of
    the query, so nothing is said of other keys).  [AddPassword],
    [UpdatePassword], [DeletePassword] and [ImportVault] do not touch
    the [config] table, which holds the salt and the test vector, do not
    lower the AUTOINCREMENT counter, and change no file.  [ExportVault]
    changes no file but the one it is given, also when the write
    fails. *)
Theorem operations_frame (op : Operation) (s : manager.State) :
  match op with
  | OpGetPassword _ | OpGetAllPasswords | OpLock | OpUnlockVault _ =>
      db (snd (after op s)) = db (snd s) /\ files (snd (after op s)) = files (snd s)
  | OpSearchPasswords params =>
      plain_sort_key (models.SortBy params) = true ->
      db (snd (after op s)) = db (snd s) /\ files (snd (after op s)) = files (snd s)
  | OpExportVault filename =>
      forall name, name <> filename ->
        files (snd (after op s)) !! name = files (snd s) !! name
  | OpAddPassword _ | OpUpdatePassword _ | OpDeletePassword _ | OpImportVault _ =>
      config (db (snd (after op s))) = config (db (snd s)) /\
      passwords_seq (db (snd s)) <= passwords_seq (db (snd (after op s))) /\
      files (snd (after op s)) = files (snd s)
  end.
Proof.
  destruct op.
  - split; [exact (after_same_config (OpAddPassword entry) s eq_refl)|].
    split; [exact (after_seq_grows (OpAddPassword entry) s eq_refl)|].
    cbn [after]. apply (stable_AddPassword (same files)); bookkeeping.
  - cbn [after].
    split; [apply (stable_GetPassword (same db))|apply (stable_GetPassword (same files))];
      bookkeeping.
  - cbn [after].
    split; [apply (stable_GetAllPasswords (same db))
           |apply (stable_GetAllPasswords (same files))]; bookkeeping.
  - split; [exact (after_same_config (OpUpdatePassword entry) s eq_refl)|].
    split; [exact (after_seq_grows (OpUpdatePassword entry) s eq_refl)|].
    cbn [after]. apply (stable_UpdatePassword (same files)); bookkeeping.
  - split; [exact (after_same_config (OpDeletePassword id) s eq_refl)|].
    split; [exact (after_seq_grows (OpDeletePassword id) s eq_refl)|].
    cbn [after]. apply (stable_DeletePassword (same files)); bookkeeping.
  - intros _. cbn [after].
    split; [apply (stable_SearchPasswords (same db))
           |apply (stable_SearchPasswords (same files))]; bookkeeping.
  - intros name Hname. cbn [after].
    apply (stable_ExportVault (same (fun w => files w !! name))); bookkeeping.
    intros data w. unfold same, os_WriteFile. cbv zeta.
    destruct (os_WriteFile_fault filename data) as [[e [n|]]|]; cbn;
      try reflexivity; apply lookup_insert_ne; congruence.
  - split; [exact (after_same_config (OpImportVault filename) s eq_refl)|].
    split; [exact (after_seq_grows (OpImportVault filename) s eq_refl)|].
    cbn [after]. apply (stable_ImportVault (same files)); bookkeeping.
    apply ImportData_same_files.
  - cbn [after].
    split; [apply (stable_Lock (same db))|apply (stable_Lock (same files))]; bookkeeping.
  - cbn [after].
    split; [apply (stable_UnlockVault (same db))|apply (stable_UnlockVault (same files))];
      bookkeeping.
Qed.

(** ** The life of a vault *)

(** [UnlockVault] on a store whose [config] table holds a salt and the
    test string sealed under the key of the password and that salt. *)
Lemma UnlockVault_sealed_vector (p : string) (salt nonce : bytes)
    (pm : manager.PasswordManager) (w : World) :
  length nonce = crypto.gcm_NonceSize ->
  config (db w) !! "salt" = Some (SBlob salt) ->
  config (db w) !! "test_vector" =
    Some (SBlob (nonce ++ gcm_Seal (master_key p salt) nonce
                            (bytes_of_string testData) [])%list) ->
  manager.UnlockVault p (pm, w) =
  (Ok tt, (manager.mkPasswordManager (Some (master_key p salt)) true (now w),
           log_io (SqlQuery test_vector_sql) (log_io (SqlQuery salt_sql) w))).
Proof.
  intros Hn Hsalt Htv. rewrite UnlockVault_unfold, Hsalt, Htv.
  cbv zeta. cbn [mbind option_bind storage.scan_bytes slice_contents default].
  unfold candidate_key. cbn [storage.scan_bytes slice_contents default].
  unfold id. fold (master_key p salt).
  rewrite Decrypt_sealed by (apply master_key_length || exact Hn).
  reflexivity.
Qed.

(** X2.  A vault stays unlockable.  After [CreateMasterPassword p] has
    succeeded, and after any sequence of bound calls, whatever they
    return, [UnlockVault p] succeeds, leaves the database as it is, and
    gives the manager the key that the creation gave it.  The bound
    calls are [AddPassword], [GetPassword], [GetAllPasswords],
    [UpdatePassword], [DeletePassword], [ImportVault], [Lock],
    [UnlockVault] with any password, and [SearchPasswords] with a sort
    key that is a plain column name; [ExportVault] is not among them. *)
Theorem unlock_after_operations
    (p : string) (s0 s1 : manager.State) (ops : list Operation) :
  manager.CreateMasterPassword p s0 = (Ok tt, s1) ->
  forallb bound_call ops = true ->
  exists (key : bytes) (w' : World),
    manager.UnlockVault p (after_all ops s1)
      = (Ok tt, (manager.mkPasswordManager (Some key) true
                   (now (snd (after_all ops s1))), w')) /\
    manager.masterKey (fst s1) = Some key /\
    length key = 32%nat /\
    db w' = db (snd (after_all ops s1)).
Proof.
  destruct s0 as [pm0 w0], s1 as [pm1 w1]. intros Hcreate Hbound.
  destruct (CreateMasterPassword_Ok p pm0 pm1 w0 w1 Hcreate)
    as (salt & nonce & Hn & Hsalt & Htv & Hpm & _).
  pose proof (after_all_same_config ops Hbound (pm1, w1)) as Hcfg.
  unfold config_of in Hcfg. cbn [snd] in Hcfg.
  destruct (after_all ops (pm1, w1)) as [pm2 w2] eqn:Hops. cbn [snd] in *.
  rewrite <- Hcfg in Hsalt, Htv.
  rewrite (UnlockVault_sealed_vector p salt nonce pm2 w2 Hn Hsalt Htv).
  eexists _, _. split; [reflexivity|]. subst pm1. cbn.
  split; [reflexivity|]. split; [apply master_key_length|reflexivity].
Qed.

(** ** Rowids *)

(** A successful [AddPassword] returns the value of the AUTOINCREMENT
    counter after the call, which is above the value before it. *)
Lemma AddPassword_Ok_seq (entry : models.PasswordEntry) (s s1 : manager.State) (id : Z) :
  manager.AddPassword entry s = (Ok id, s1) ->
  passwords_seq (db (snd s)) < id /\ passwords_seq (db (snd s1)) = id.
Proof.
  unfold manager.AddPassword, bind, manager.require_initialized.
  destruct (negb (manager.initialized (fst s))); [discriminate|].
  unfold manager.call, ret, manager.get_masterKey.
  cbn [manager.updateLastActivity modify fst snd].
  match goal with |- context [crypto.Encrypt ?t ?k ?w] =>
    pose proof (stable_Encrypt (same db) ltac:(bookkeeping) t k w) as Hp;
    destruct (crypto.Encrypt t k w) as [[bp|e] w1]; [|discriminate] end.
  unfold same in Hp. cbn [fst snd] in *.
  destruct (negb (String.eqb (models.Notes entry) EmptyString)).
  - match goal with |- context [crypto.Encrypt ?t ?k ?w] =>
      pose proof (stable_Encrypt (same db) ltac:(bookkeeping) t k w) as Hn;
      destruct (crypto.Encrypt t k w) as [[bn|e] w2]; [|discriminate] end.
    unfold same in Hn. cbn [fst snd] in *.
    rewrite storage_AddPassword_unfold. cbn [fst snd]. intros [= <- <-].
    cbn. rewrite Hn, Hp. unfold storage.next_rowid. lia.
  - cbn [fst snd]. rewrite storage_AddPassword_unfold. cbn [fst snd]. intros [= <- <-].
    cbn. rewrite Hp. unfold storage.next_rowid. lia.
Qed.

(** X3.  A rowid is given once.  The id that [AddPassword] returns for a
    record is below the id that any later [AddPassword] returns,
    whatever bound calls come in between ([ExportVault] and
    [SearchPasswords] with a sort key that is not a plain column name
    are left out): deleting the record, or every record, does not make
    its id available again. *)
Theorem rowid_never_reused
    (entry entry' : models.PasswordEntry) (s s1 s2 : manager.State) (id id' : Z)
    (ops : list Operation) :
  manager.AddPassword entry s = (Ok id, s1) ->
  forallb bound_call ops = true ->
  manager.AddPassword entry' (after_all ops s1) = (Ok id', s2) ->
  id < id'.
Proof.
  intros Hadd Hbound Hadd'.
  destruct (AddPassword_Ok_seq _ _ _ _ Hadd) as [_ Hseq].
  destruct (AddPassword_Ok_seq _ _ _ _ Hadd') as [Hlt _].
  pose proof (after_all_seq_grows ops Hbound s1) as Hgrow. unfold seq_grows in Hgrow. lia.
Qed.

(** ** Records: update and delete *)

Lemma find_password_filter (id id' : Z) (rows : list Row) :
  List.find (fun r => Z.eqb (col_id r) id')
    (List.filter (fun r => negb (Z.eqb (col_id r) id)) rows) =
  if Z.eqb id' id then None else List.find (fun r => Z.eqb (col_id r) id') rows.
Proof.
  induction rows as [|r rows IH]; cbn [List.find List.filter].
  - destruct (Z.eqb id' id); reflexivity.
  - destruct (Z.eqb_spec (col_id r) id) as [Hr|Hr]; cbn [negb List.find].
    + rewrite IH. destruct (Z.eqb_spec id' id) as [->|Hne]; [reflexivity|].
      destruct (Z.eqb_spec (col_id r) id'); [congruence|reflexivity].
    + destruct (Z.eqb_spec (col_id r) id') as [<-|Hr'].
      * destruct (Z.eqb_spec (col_id r) id); [congruence|reflexivity].
      * exact IH.
Qed.

Lemma filter_absent (id : Z) (rows : list Row) :
  List.find (fun r => Z.eqb (col_id r) id) rows = None ->
  List.filter (fun r => negb (Z.eqb (col_id r) id)) rows = rows.
Proof.
  induction rows as [|r rows IH]; cbn [List.find List.filter]; [reflexivity|].
  destruct (Z.eqb (col_id r) id); [discriminate|]. cbn [negb].
  intros Hnone. rewrite (IH Hnone). reflexivity.
Qed.

(** X4.  Delete, then get.  On an unlocked manager [DeletePassword]
    always succeeds; afterwards [GetPassword] of the id fails with
    [sql.ErrNoRows], every other id finds the row it found before, and
    the [config] table and the files are as before.  Deleting an id that
    the table does not hold is not an error and leaves the table as it
    is. *)
Theorem delete_then_get (pm : manager.PasswordManager) (w : World) (id : Z) :
  manager.initialized pm = true ->
  exists s1 : manager.State,
    manager.DeletePassword id (pm, w) = (Ok tt, s1) /\
    (exists s2, manager.GetPassword id s1 = (Err sql_ErrNoRows, s2)) /\
    (forall id', id' <> id ->
       storage.find_password id' (db (snd s1)) = storage.find_password id' (db w)) /\
    (storage.find_password id (db w) = None -> db (snd s1) = db w) /\
    config (db (snd s1)) = config (db w) /\
    files (snd s1) = files w.
Proof.
  intros Hi. unfold manager.DeletePassword, bind.
  rewrite (require_initialized_unlocked pm w Hi).
  cbn [manager.updateLastActivity modify fst snd manager.call storage.DeletePassword].
  eexists. split; [reflexivity|]. cbn [fst snd db set_db log_io passwords config files].
  split; [|split; [|split; [|split; reflexivity]]].
  - unfold manager.GetPassword, bind.
    rewrite require_initialized_unlocked by exact Hi.
    unfold manager.call, storage.GetPassword, storage.find_password.
    cbn [manager.updateLastActivity modify fst snd db set_db log_io passwords].
    rewrite find_password_filter, Z.eqb_refl. eexists. reflexivity.
  - intros id' Hne. unfold storage.find_password. cbn [passwords].
    rewrite find_password_filter. destruct (Z.eqb_spec id' id); [contradiction|reflexivity].
  - unfold storage.find_password. intros Hnone. rewrite (filter_absent id _ Hnone).
    destruct (db w). reflexivity.
Qed.

(** [GetPassword] on a row whose clear columns scan and whose blobs are
    sealed under the key of the manager. *)
Lemma GetPassword_row (pm : manager.PasswordManager) (key : bytes) (w : World) (id : Z)
    (r : Row) (title url username category created updated password notes : string)
    (bp : bytes) :
  Unlocked pm key ->
  storage.find_password id (db w) = Some r ->
  storage.scan_string (col_title r) = Ok title ->
  storage.scan_string (col_url r) = Ok url ->
  storage.scan_string (col_username r) = Ok username ->
  storage.scan_string (col_category r) = Ok category ->
  storage.scan_time (col_created_at r) = Ok created ->
  storage.scan_time (col_updated_at r) = Ok updated ->
  col_password r = SBlob bp -> sealed key password bp ->
  (col_notes r = SNull /\ notes = EmptyString \/
   exists blob, col_notes r = SBlob blob /\ sealed key notes blob) ->
  exists s2,
    manager.GetPassword id (pm, w) =
    (Ok (models.mkPasswordEntry (col_id r) title url username password notes category
           (storage.parse_time created) (storage.parse_time updated)), s2).
Proof.
  intros (Hi & Hkey & Hk) Hfind Ht Hu Hn Hc Hcr Hup Hpw Hp Hnotes.
  unfold manager.GetPassword, bind.
  rewrite (require_initialized_unlocked pm w Hi).
  unfold manager.call, storage.GetPassword, lift_result, ret,
    manager.get_masterKey, manager.key_of.
  cbn [manager.updateLastActivity modify fst snd db log_io manager.masterKey].
  rewrite Hfind, Hkey. unfold storage.scan_full_row.
  rewrite Ht, Hu, Hn, Hc, Hcr, Hup, Hpw.
  cbn [fst snd manager.masterKey storage.scan_bytes]. rewrite !slice_contents_Some.
  rewrite (sealed_Decrypt key _ bp Hk Hp).
  destruct Hnotes as [[-> ->]|(blob & -> & Hb)].
  - cbn. eexists. reflexivity.
  - destruct (sealed_nonempty key _ blob Hb) as (b & rest & ->).
    cbn [storage.scan_bytes]. rewrite (sealed_Decrypt key _ (b :: rest) Hk Hb).
    eexists. reflexivity.
Qed.

Lemma find_password_map (upd : Row -> Row) (id : Z) (rows : list Row) :
  (forall r, col_id (upd r) = col_id r) ->
  List.find (fun r => Z.eqb (col_id r) id) (List.map upd rows) =
  option_map upd (List.find (fun r => Z.eqb (col_id r) id) rows).
Proof.
  intros Hid. induction rows as [|r rows IH]; cbn [List.find List.map]; [reflexivity|].
  rewrite Hid. destruct (Z.eqb (col_id r) id); [reflexivity|exact IH].
Qed.

(** What [UpdatePassword] does to the store, by the outcome of the
    draws of the nonces. *)
Lemma UpdatePassword_cases (entry : models.PasswordEntry) (pm : manager.PasswordManager)
    (w : World) (key : bytes) :
  Unlocked pm key ->
  (exists (e : error) (s1 : manager.State),
     manager.UpdatePassword entry (pm, w) = (Err e, s1) /\
     entropy_error e /\ db (snd s1) = db w /\ files (snd s1) = files w /\
     nonce_draw_fails entry w e) \/
  (exists (bp : bytes) (encNotes : option bytes) (w1 : World),
     manager.UpdatePassword entry (pm, w) =
       (fst (storage.UpdatePassword entry (Some bp) encNotes w1),
        (manager.mkPasswordManager (Some key) true (now w),
         snd (storage.UpdatePassword entry (Some bp) encNotes w1))) /\
     sealed key (models.Password entry) bp /\
     (encNotes = None /\ models.Notes entry = EmptyString \/
      exists blob, encNotes = Some blob /\ sealed key (models.Notes entry) blob) /\
     db w1 = db w /\ files w1 = files w /\ now w1 = now w).
Proof.
  intros (Hi & Hkey & Hk).
  unfold manager.UpdatePassword, bind.
  rewrite (require_initialized_unlocked pm w Hi).
  unfold manager.call, ret, manager.get_masterKey, manager.key_of.
  cbn [manager.updateLastActivity modify fst snd manager.masterKey].
  rewrite Hkey, Hi, !slice_contents_Some.
  destruct (Encrypt_by_draw (models.Password entry) key w Hk)
    as [(bp & HE & Hp & Hdraw)|(e & HE & He & Hdraw)]; rewrite HE.
  2:{ left. eexists _, _. split; [reflexivity|]. split; [exact He|].
      split; [reflexivity|]. split; [reflexivity|]. left. exact Hdraw. }
  cbn [fst snd].
  destruct (String.eqb_spec (models.Notes entry) EmptyString) as [Hempty|Hfull];
    cbn [negb fst snd].
  - right. exists bp, None, (tick_rand w). split.
    + destruct (storage.UpdatePassword _ _ _ _). reflexivity.
    + split; [exact Hp|]. split; [left; split; [reflexivity|exact Hempty]|].
      repeat split.
  - destruct (Encrypt_by_draw (models.Notes entry) key (tick_rand w) Hk)
      as [(bn & HE2 & Hn & _)|(e & HE2 & He & Hdraw2)]; rewrite HE2.
    2:{ left. eexists _, _. split; [reflexivity|]. split; [exact He|].
        split; [reflexivity|]. split; [reflexivity|].
        right. repeat split; assumption. }
    cbn [fst snd]. right. exists bp, (Some bn), (tick_rand (tick_rand w)). split.
    + destruct (storage.UpdatePassword _ _ _ _). reflexivity.
    + split; [exact Hp|]. split; [right; exists bn; split; [reflexivity|exact Hn]|].
      repeat split.
Qed.

Lemma storage_UpdatePassword_unfold (entry : models.PasswordEntry)
    (encPassword encNotes : option bytes) (w : World) :
  storage.UpdatePassword entry encPassword encNotes w =
  (Ok tt,
   set_db (mkDB (config (db w))
             (List.map (updated_row entry encPassword encNotes (now w)) (passwords (db w)))
             (passwords_seq (db w)))
     (log_io (SqlExec "UPDATE passwords SET title = ?, url = ?, username = ?, password = ?, notes = ?, category = ?, updated_at = CURRENT_TIMESTAMP WHERE id = ?") w)).
Proof. reflexivity. Qed.

Lemma updated_row_id (entry : models.PasswordEntry) (encPassword encNotes : option bytes)
    (clock : Z) (r : Row) :
  col_id (updated_row entry encPassword encNotes clock r) = col_id r.
Proof. unfold updated_row. destruct (Z.eqb (col_id r) (models.ID entry)); reflexivity. Qed.

Lemma updated_row_other (entry : models.PasswordEntry) (encPassword encNotes : option bytes)
    (clock : Z) (r : Row) :
  col_id r <> models.ID entry -> updated_row entry encPassword encNotes clock r = r.
Proof.
  intros Hne. unfold updated_row.
  destruct (Z.eqb_spec (col_id r) (models.ID entry)); [contradiction|reflexivity].
Qed.

(** X5.  Update, then get.  On an Unlocked manager, over a store that
    takes the UPDATE, [UpdatePassword] fails only when the entropy
    source does not deliver a nonce: when
    it returns an error, that error is the one of the draw of the nonce
    for the password, or, for a record with notes, of the draw for the
    notes after the first draw has delivered, and the database is as
    before.  Otherwise, that is whenever the draws deliver, for an id
    that the table holds with a creation time that scans, [GetPassword]
    of the id succeeds and returns the title, URL, username, category,
    password and notes of the update, empty notes as the empty string,
    and the creation time that the row had before. *)
Theorem update_then_get
    (entry : models.PasswordEntry) (pm : manager.PasswordManager) (w : World)
    (key : bytes) (r : Row) (created : string) :
  Unlocked pm key ->
  storage.find_password (models.ID entry) (db w) = Some r ->
  storage.scan_time (col_created_at r) = Ok created ->
  match manager.UpdatePassword entry (pm, w) with
  | (Ok _, s1) =>
      exists got s2,
        manager.GetPassword (models.ID entry) s1 = (Ok got, s2) /\
        models.ID got = models.ID entry /\
        models.Title got = models.Title entry /\
        models.URL got = models.URL entry /\
        models.Username got = models.Username entry /\
        models.Category got = models.Category entry /\
        models.Password got = models.Password entry /\
        models.Notes got = models.Notes entry /\
        models.CreatedAt got = storage.parse_time created
  | (Err e, s1) =>
      entropy_error e /\ nonce_draw_fails entry w e /\ db (snd s1) = db w
  end.
Proof.
  intros HU Hfind Hcreated. pose proof HU as (Hi & Hkey & Hk).
  destruct (UpdatePassword_cases entry pm w key HU)
    as [(e & s1 & -> & He & Hdb & _ & Hdraw)
       |(bp & encNotes & w1 & -> & Hp & Hnotes & Hdb & _ & Hnow)];
    [repeat split; assumption|].
  rewrite storage_UpdatePassword_unfold. cbn [fst snd].
  pose proof Hfind as Hr. unfold storage.find_password in Hr.
  apply List.find_some in Hr as [_ Hr]. apply Z.eqb_eq in Hr.
  match goal with |- context [manager.GetPassword _ (?pm1, ?w2)] =>
    destruct (GetPassword_row pm1 key w2 (models.ID entry)
                (updated_row entry (Some bp) encNotes (now w1) r)
                (models.Title entry) (models.URL entry) (models.Username entry)
                (models.Category entry) created (timestamp_text (current_timestamp (now w1)))
                (models.Password entry) (models.Notes entry) bp) as (s2 & HG) end.
  - repeat split; assumption.
  - unfold storage.find_password. cbn [db set_db passwords].
    rewrite find_password_map by (intros; apply updated_row_id).
    rewrite Hdb. unfold storage.find_password in Hfind. rewrite Hfind. reflexivity.
  - unfold updated_row. rewrite Hr, Z.eqb_refl. reflexivity.
  - unfold updated_row. rewrite Hr, Z.eqb_refl. reflexivity.
  - unfold updated_row. rewrite Hr, Z.eqb_refl. reflexivity.
  - unfold updated_row. rewrite Hr, Z.eqb_refl. reflexivity.
  - unfold updated_row. rewrite Hr, Z.eqb_refl. exact Hcreated.
  - unfold updated_row. rewrite Hr, Z.eqb_refl. reflexivity.
  - unfold updated_row. rewrite Hr, Z.eqb_refl. reflexivity.
  - exact Hp.
  - unfold updated_row. rewrite Hr, Z.eqb_refl. cbn [col_notes].
    destruct Hnotes as [[-> Hempty]|(blob & -> & Hb)].
    + left. split; [reflexivity|exact Hempty].
    + right. exists blob. split; [reflexivity|exact Hb].
  - eexists _, s2. split; [exact HG|]. cbn. rewrite updated_row_id.
    repeat split. exact Hr.
Qed.

(** X6.  [UpdatePassword] touches one id.  When it succeeds, the table
    holds the same ids in the same order, every other id finds the row
    it found before, and the [config] table is as before.  An update of
    an id that the table does not hold is not an error and leaves the
    database as it is. *)
Theorem update_touches_one_id
    (entry : models.PasswordEntry) (pm : manager.PasswordManager) (w : World)
    (key : bytes) :
  Unlocked pm key ->
  match manager.UpdatePassword entry (pm, w) with
  | (Ok _, s1) =>
      List.map col_id (passwords (db (snd s1))) = List.map col_id (passwords (db w)) /\
      (forall id, id <> models.ID entry ->
         storage.find_password id (db (snd s1)) = storage.find_password id (db w)) /\
      (storage.find_password (models.ID entry) (db w) = None -> db (snd s1) = db w) /\
      config (db (snd s1)) = config (db w)
  | (Err e, s1) => entropy_error e /\ db (snd s1) = db w
  end.
Proof.
  intros HU.
  destruct (UpdatePassword_cases entry pm w key HU)
    as [(e & s1 & -> & He & Hdb & _)
       |(bp & encNotes & w1 & -> & Hp & Hnotes & Hdb & _ & Hnow)];
    [split; assumption|].
  rewrite storage_UpdatePassword_unfold. cbn [fst snd db set_db passwords config].
  rewrite Hdb. split; [|split; [|split; [|reflexivity]]].
  - rewrite List.map_map. apply List.map_ext. intros r. apply updated_row_id.
  - intros id Hne. unfold storage.find_password. cbn [passwords].
    rewrite find_password_map by (intros; apply updated_row_id).
    destruct (List.find _ (passwords (db w))) as [r|] eqn:Hfind; [|reflexivity].
    apply List.find_some in Hfind as [_ Hr]. apply Z.eqb_eq in Hr.
    cbn [option_map]. rewrite updated_row_other by congruence. reflexivity.
  - unfold storage.find_password. intros Hnone.
    assert (Hrows : List.map (updated_row entry (Some bp) encNotes (now w1))
                      (passwords (db w)) = passwords (db w)).
    { rewrite <- (List.map_id (passwords (db w))) at 2.
      apply List.map_ext_in. intros r Hin. apply updated_row_other.
      pose proof (List.find_none _ _ Hnone r Hin) as Hr. cbn beta in Hr.
      apply Z.eqb_neq. exact Hr. }
    rewrite Hrows. destruct (db w). reflexivity.
Qed.

(** ** Export and import, as the manager runs them *)

(** X7.  What a failed transfer leaves behind.  When [ImportVault]
    returns an error, for a missing file, text that is not base64, a
    blob that the key does not open, a document that is not a list of
    records, or an insert that fails, the database and the files are as
    before the call; when it succeeds, the old rows are still there, in
    front of the new ones.  When [ExportVault] returns an error, either
    no file has changed, or [os.WriteFile] failed after it had truncated
    the named file, which then holds the part of the text written so
    far, [n] bytes of it; every other file is as before.  When it
    succeeds the named file, and no other, has been replaced by the
    text that [os.WriteFile] took without a fault.  The files are those
    beside the database's own, and nothing is said here of the database
    after an export. *)
Theorem transfer_failures_are_contained
    (filename : string) (pm : manager.PasswordManager) (w : World) :
  match manager.ImportVault filename (pm, w) with
  | (Err _, s1) => db (snd s1) = db w /\ files (snd s1) = files w
  | (Ok _, s1) =>
      exists news, passwords (db (snd s1)) = (passwords (db w) ++ news)%list
  end /\
  match manager.ExportVault filename (pm, w) with
  | (Err e, s1) =>
      files (snd s1) = files w \/
      exists (text : string) (n : nat),
        os_WriteFile_fault filename text = Some (e, Some n) /\
        files (snd s1) = <[filename := substring 0 n text]> (files w)
  | (Ok _, s1) =>
      exists text : string,
        os_WriteFile_fault filename text = None /\
        files (snd s1) = <[filename := text]> (files w)
  end.
Proof.
  split.
  - unfold manager.ImportVault, bind, manager.require_initialized. cbn [fst snd].
    destruct (negb (manager.initialized pm)); [split; reflexivity|].
    unfold manager.call, lift_result, manager.get_masterKey, os_ReadFile.
    cbn [manager.updateLastActivity modify fst snd files log_io].
    destruct (files w !! filename) as [data|]; [|split; reflexivity].
    cbn [fst snd]. destruct (base64.DecodeString data) as [blob|]; [|split; reflexivity].
    destruct (crypto.Decrypt blob _) as [text|]; [|split; reflexivity].
    destruct (encoding_json.Unmarshal text) as [entries|]; [|split; reflexivity].
    cbn [fst snd]. unfold storage.ImportData. cbv zeta.
    match goal with |- context [storage.import_loop ?es ?w1] =>
      pose proof (import_loop_spec es w1) as Hloop;
      destruct (storage.import_loop es w1) as [[[]|e] w2] end.
    + destruct Hloop as (news & _ & Hrows & _). exists news. exact Hrows.
    + destruct Hloop as (_ & _ & _ & _ & _ & _ & _ & _ & Hfiles).
      split; [reflexivity|exact Hfiles].
  - unfold manager.ExportVault, bind, manager.require_initialized. cbn [fst snd].
    destruct (negb (manager.initialized pm)); [left; reflexivity|].
    unfold manager.call, lift_result, manager.get_masterKey, storage.ExportData.
    cbn [manager.updateLastActivity modify fst snd db log_io].
    destruct (storage.export_rows (passwords (db w))) as [entries|];
      [|left; reflexivity].
    destruct (encoding_json.Marshal entries) as [text|]; [|left; reflexivity].
    cbn [fst snd].
    match goal with |- context [crypto.Encrypt ?t ?k ?w1] =>
      pose proof (stable_Encrypt (same files) ltac:(bookkeeping) t k w1) as Hfiles;
      destruct (crypto.Encrypt t k w1) as [[blob|e] w2] end;
      unfold same in Hfiles; cbn [fst snd db files log_io] in *.
    + unfold os_WriteFile. cbv zeta.
      destruct (os_WriteFile_fault filename (base64.EncodeToString blob))
        as [[e [n|]]|] eqn:Hfault; cbn [fst snd files set_files log_io].
      * right. exists (base64.EncodeToString blob), n. rewrite Hfiles.
        split; [exact Hfault|reflexivity].
      * left. exact Hfiles.
      * exists (base64.EncodeToString blob). rewrite Hfiles.
        split; [exact Hfault|reflexivity].
    + left. exact Hfiles.
Qed.

(** ** Rows that the import accepts and no reader scans *)

Lemma scan_string_Err (v : SqlValue) (e : error) :
  storage.scan_string v = Err e -> e = null_scan_error.
Proof. destruct v; cbn; intros Heq; inversion Heq; reflexivity. Qed.

Lemma scan_time_Err (v : SqlValue) (e : error) :
  storage.scan_time v = Err e -> e = null_scan_error.
Proof. destruct v; cbn; intros Heq; inversion Heq; reflexivity. Qed.

Lemma export_row_Err (r : Row) (e : error) :
  storage.export_row r = Err e -> e = null_scan_error.
Proof.
  unfold storage.export_row.
  destruct (storage.scan_string (col_title r)) eqn:H1;
    [|intros [= <-]; eapply scan_string_Err; eassumption].
  destruct (storage.scan_string (col_url r)) eqn:H2;
    [|intros [= <-]; eapply scan_string_Err; eassumption].
  destruct (storage.scan_string (col_username r)) eqn:H3;
    [|intros [= <-]; eapply scan_string_Err; eassumption].
  destruct (storage.scan_string (col_category r)) eqn:H4;
    [|intros [= <-]; eapply scan_string_Err; eassumption].
  destruct (storage.scan_time (col_created_at r)) eqn:H5;
    [|intros [= <-]; eapply scan_time_Err; eassumption].
  destruct (storage.scan_time (col_updated_at r)) eqn:H6;
    [|intros [= <-]; eapply scan_time_Err; eassumption].
  discriminate.
Qed.

Lemma export_rows_Err (rows : list Row) (e : error) :
  storage.export_rows rows = Err e -> e = null_scan_error.
Proof.
  induction rows as [|r rows IH]; cbn [storage.export_rows]; [discriminate|].
  destruct (storage.export_row r) eqn:Hrow;
    [|intros [= <-]; eapply export_row_Err; eassumption].
  destruct (storage.export_rows rows); [discriminate|].
  intros [= <-]. apply IH. reflexivity.
Qed.

Lemma export_rows_app_Err (rows : list Row) (r : Row) :
  is_Ok (storage.export_row r) = false ->
  storage.export_rows (rows ++ [r]) = Err null_scan_error.
Proof.
  intros Hr.
  destruct (storage.export_rows (rows ++ [r])) as [entries|e] eqn:Hall.
  - exfalso. revert entries Hall.
    induction rows as [|r' rows IH]; cbn [app storage.export_rows]; intros entries.
    + destruct (storage.export_row r); [discriminate Hr|discriminate].
    + destruct (storage.export_row r'); [|discriminate].
      destruct (storage.export_rows (rows ++ [r])) as [rest|]; [|discriminate].
      intros _. eapply IH. reflexivity.
  - f_equal. eapply export_rows_Err. exact Hall.
Qed.

(** A column of the new row is NULL when the record has no value under
    its key. *)
Lemma entry_row_null (id : Z) (entry : gmap string GoVal) (r : Row) (column : string) :
  entry_row id entry = Ok r ->
  In column ["url"; "username"; "category"; "created_at"; "updated_at"] ->
  storage.index entry column = VNil ->
  storage.scan_full_row r = Err null_scan_error /\
  is_Ok (storage.export_row r) = false.
Proof.
  unfold entry_row. intros Hrow Hin Hnil.
  destruct (storage.bind_arg (storage.index entry "title")) as [title|]; [|discriminate].
  destruct (storage.bind_arg (storage.index entry "url")) as [url|] eqn:Hurl;
    [|discriminate].
  destruct (storage.bind_arg (storage.index entry "username")) as [username|] eqn:Huser;
    [|discriminate].
  destruct (storage.bind_arg (storage.index entry "password")) as [password|];
    [|discriminate].
  destruct (storage.bind_arg (storage.index entry "notes")) as [notes|]; [|discriminate].
  destruct (storage.bind_arg (storage.index entry "category")) as [category|] eqn:Hcat;
    [|discriminate].
  destruct (storage.bind_arg (storage.index entry "created_at")) as [created|] eqn:Hcr;
    [|discriminate].
  destruct (storage.bind_arg (storage.index entry "updated_at")) as [updated|] eqn:Hup;
    [|discriminate].
  assert (Htitle : exists t, storage.scan_string (storage.text_affinity title) = Ok t
                             /\ storage.text_affinity title <> SNull).
  { destruct title; cbn in Hrow |- *; try discriminate Hrow; eexists; split;
      try reflexivity; discriminate. }
  destruct Htitle as (t & Ht & Hnn).
  assert (Hr : r = mkRow id (storage.text_affinity title) (storage.text_affinity url)
                     (storage.text_affinity username) password notes
                     (storage.text_affinity category) created updated).
  { destruct (storage.text_affinity title); congruence. }
  subst r. unfold storage.scan_full_row, storage.export_row.
  cbn [col_title col_url col_username col_category col_created_at col_updated_at
       col_password col_notes col_id].
  rewrite Ht.
  cbn [In] in Hin.
  destruct Hin as [<-|[<-|[<-|[<-|[<-|[]]]]]]; rewrite Hnil in *;
    cbn [storage.bind_arg] in *.
  - injection Hurl as <-. split; reflexivity.
  - injection Huser as <-.
    destruct (storage.scan_string (storage.text_affinity url)) eqn:Hs;
      [split; reflexivity|].
    apply scan_string_Err in Hs as ->. split; reflexivity.
  - injection Hcat as <-.
    destruct (storage.scan_string (storage.text_affinity url)) eqn:Hs1;
      [|apply scan_string_Err in Hs1 as ->; split; reflexivity].
    destruct (storage.scan_string (storage.text_affinity username)) eqn:Hs2;
      [split; reflexivity|apply scan_string_Err in Hs2 as ->; split; reflexivity].
  - injection Hcr as <-.
    destruct (storage.scan_string (storage.text_affinity url)) eqn:Hs1;
      [|apply scan_string_Err in Hs1 as ->; split; reflexivity].
    destruct (storage.scan_string (storage.text_affinity username)) eqn:Hs2;
      [|apply scan_string_Err in Hs2 as ->; split; reflexivity].
    destruct (storage.scan_string (storage.text_affinity category)) eqn:Hs3;
      [split; reflexivity|apply scan_string_Err in Hs3 as ->; split; reflexivity].
  - injection Hup as <-.
    destruct (storage.scan_string (storage.text_affinity url)) eqn:Hs1;
      [|apply scan_string_Err in Hs1 as ->; split; reflexivity].
    destruct (storage.scan_string (storage.text_affinity username)) eqn:Hs2;
      [|apply scan_string_Err in Hs2 as ->; split; reflexivity].
    destruct (storage.scan_string (storage.text_affinity category)) eqn:Hs3;
      [|apply scan_string_Err in Hs3 as ->; split; reflexivity].
    destruct (storage.scan_time created) eqn:Hs4;
      [split; reflexivity|apply scan_time_Err in Hs4 as ->; split; reflexivity].
Qed.

(** X8.  The import accepts rows that no reader scans.  A record
    without a value under [url], [username], [category], [created_at]
    or [updated_at] is inserted, the column being NULL; from then on
    [GetPassword] of the new row fails in [Scan], and [ExportData]
    fails for the whole table, both with the error of a NULL read into
    a string. *)
Theorem import_accepts_rows_that_do_not_scan
    (entry : gmap string GoVal) (column : string) (w w' : World) :
  In column ["url"; "username"; "category"; "created_at"; "updated_at"] ->
  storage.index entry column = VNil ->
  storage.ImportData [entry] w = (Ok tt, w') ->
  fst (storage.GetPassword (storage.next_rowid (db w)) w') = Err null_scan_error /\
  fst (storage.ExportData w') = Err null_scan_error.
Proof.
  intros Hin Hnil. unfold storage.ImportData. cbv zeta.
  cbn [storage.import_loop]. unfold bind. rewrite import_exec_unfold. cbv zeta.
  cbn [db log_io].
  destruct (entry_row (storage.next_rowid (db w)) entry) as [r|] eqn:Hrow;
    [|discriminate].
  cbn [ret]. intros [= <-].
  destruct (entry_row_null _ _ _ _ Hrow Hin Hnil) as [Hscan Hexport].
  unfold storage.GetPassword, storage.ExportData. cbv zeta.
  cbn [fst db set_db log_io passwords].
  split.
  - unfold storage.find_password. cbn [passwords].
    rewrite <- (entry_row_id _ _ _ Hrow).
    rewrite find_fresh_row.
    + exact Hscan.
    + intros r' Hr'. rewrite (entry_row_id _ _ _ Hrow). apply next_rowid_fresh. exact Hr'.
  - apply export_rows_app_Err. exact Hexport.
Qed.

(** ** The text of a search *)

Lemma placeholders_app (a b : string) :
  placeholders (a ++ b) = (placeholders a + placeholders b)%nat.
Proof.
  induction a as [|c a IH]; [reflexivity|].
  change (String c a ++ b) with (String c (a ++ b)). cbn [placeholders].
  rewrite IH. lia.
Qed.

(** X9.  The query that [SearchPasswords] builds has one [?] for each
    argument it passes, and the [?] marks of the sort key on top: the
    keyword, the category, the limit and the offset go into the
    arguments, and the sort key goes into the text as it is.  Every
    argument is the keyword between two [%], the category, the limit or
    the offset; the offset is passed only together with a limit. *)
Theorem search_query_placeholders (params : models.SearchParams) :
  placeholders (fst (storage.search_query params))
    = (placeholders (models.SortBy params) + length (snd (storage.search_query params)))%nat /\
  Forall (fun arg =>
            arg = SText ("%" ++ models.Keyword params ++ "%") \/
            arg = SText (models.SearchCategory params) \/
            arg = SInt (models.Limit params) \/
            arg = SInt (models.Offset params) /\ 0 < models.Limit params)
    (snd (storage.search_query params)).
Proof.
  unfold storage.search_query.
  destruct (negb (String.eqb (models.Keyword params) EmptyString));
    destruct (negb (String.eqb (models.SearchCategory params) EmptyString));
    destruct (negb (String.eqb (models.SortBy params) EmptyString)) eqn:Hsort;
    destruct (models.SortDesc params);
    destruct (Z.ltb_spec 0 (models.Limit params));
    destruct (Z.ltb 0 (models.Offset params));
    cbn [fst snd app length];
    (split;
     [ rewrite ?placeholders_app; cbn [placeholders Ascii.eqb Bool.eqb Nat.add];
       try (apply Bool.negb_false_iff, String.eqb_eq in Hsort; rewrite Hsort;
            cbn [placeholders]);
       lia
     | repeat constructor; tauto ]).
Qed.

(** ** The runes of a generated password *)

Lemma In_append_class (skip : ascii -> bool) (class : string) (c : ascii) :
  forall chars : list ascii,
    In c (generator.append_class skip class chars) ->
    In c chars \/ generator.containsRune class c = true /\ skip c = false.
Proof.
  induction class as [|a class IH]; cbn [generator.append_class generator.containsRune];
    intros chars Hin; [left; exact Hin|].
  destruct (skip a) eqn:Hskip.
  - destruct (IH _ Hin) as [Hc|[Hc Hs]]; [left; exact Hc|].
    right. split; [|exact Hs]. destruct (Ascii.eqb a c); [reflexivity|exact Hc].
  - destruct (IH _ Hin) as [Hc|[Hc Hs]].
    + apply in_app_or in Hc as [Hc|[<-|[]]]; [left; exact Hc|].
      right. rewrite Ascii.eqb_refl. split; [reflexivity|exact Hskip].
    + right. split; [|exact Hs]. destruct (Ascii.eqb a c); [reflexivity|exact Hc].
Qed.

(** A rune of the character set is a rune of an included class that the
    exclusion of the class does not skip. *)
Lemma In_charset (options : generator.PasswordOptions) (c : ascii) :
  In c (generator.charset options) ->
  generator.IncludeLowercase options = true /\
    generator.containsRune generator.lowercase c = true /\
    generator.ExcludeSimilar options && generator.containsRune generator.similar c = false \/
  generator.IncludeUppercase options = true /\
    generator.containsRune generator.uppercase c = true /\
    generator.ExcludeSimilar options && generator.containsRune generator.similar c = false \/
  generator.IncludeNumbers options = true /\
    generator.containsRune generator.numbers c = true /\
    generator.ExcludeSimilar options && generator.containsRune generator.similar c = false \/
  generator.IncludeSymbols options = true /\
    generator.containsRune generator.symbols c = true /\
    generator.ExcludeAmbiguous options && generator.containsRune generator.ambiguous c = false.
Proof.
  unfold generator.charset. cbv zeta.
  destruct (generator.IncludeSymbols options).
  - intros Hin. apply In_append_class in Hin as [Hin|Hin]; [|tauto]. revert Hin.
    destruct (generator.IncludeNumbers options).
    + intros Hin. apply In_append_class in Hin as [Hin|Hin]; [|tauto]. revert Hin.
      destruct (generator.IncludeUppercase options).
      * intros Hin. apply In_append_class in Hin as [Hin|Hin]; [|tauto]. revert Hin.
        destruct (generator.IncludeLowercase options); [|intros []].
        intros Hin. apply In_append_class in Hin as [[]|Hin]. tauto.
      * destruct (generator.IncludeLowercase options); [|intros []].
        intros Hin. apply In_append_class in Hin as [[]|Hin]. tauto.
    + destruct (generator.IncludeUppercase options).
      * intros Hin. apply In_append_class in Hin as [Hin|Hin]; [|tauto]. revert Hin.
        destruct (generator.IncludeLowercase options); [|intros []].
        intros Hin. apply In_append_class in Hin as [[]|Hin]. tauto.
      * destruct (generator.IncludeLowercase options); [|intros []].
        intros Hin. apply In_append_class in Hin as [[]|Hin]. tauto.
  - destruct (generator.IncludeNumbers options).
    + intros Hin. apply In_append_class in Hin as [Hin|Hin]; [|tauto]. revert Hin.
      destruct (generator.IncludeUppercase options).
      * intros Hin. apply In_append_class in Hin as [Hin|Hin]; [|tauto]. revert Hin.
        destruct (generator.IncludeLowercase options); [|intros []].
        intros Hin. apply In_append_class in Hin as [[]|Hin]. tauto.
      * destruct (generator.IncludeLowercase options); [|intros []].
        intros Hin. apply In_append_class in Hin as [[]|Hin]. tauto.
    + destruct (generator.IncludeUppercase options).
      * intros Hin. apply In_append_class in Hin as [Hin|Hin]; [|tauto]. revert Hin.
        destruct (generator.IncludeLowercase options); [|intros []].
        intros Hin. apply In_append_class in Hin as [[]|Hin]. tauto.
      * destruct (generator.IncludeLowercase options); [|intros []].
        intros Hin. apply In_append_class in Hin as [[]|Hin]. tauto.
Qed.

(** The classes have no rune in common; no symbol is a similar rune and
    no letter or digit an ambiguous one. *)
Lemma classes_apart (c : ascii) :
  (generator.containsRune generator.lowercase c = true ->
     generator.containsRune generator.uppercase c = false /\
     generator.containsRune generator.numbers c = false /\
     generator.containsRune generator.symbols c = false /\
     generator.containsRune generator.ambiguous c = false) /\
  (generator.containsRune generator.uppercase c = true ->
     generator.containsRune generator.lowercase c = false /\
     generator.containsRune generator.numbers c = false /\
     generator.containsRune generator.symbols c = false /\
     generator.containsRune generator.ambiguous c = false) /\
  (generator.containsRune generator.numbers c = true ->
     generator.containsRune generator.lowercase c = false /\
     generator.containsRune generator.uppercase c = false /\
     generator.containsRune generator.symbols c = false /\
     generator.containsRune generator.ambiguous c = false) /\
  (generator.containsRune generator.symbols c = true ->
     generator.containsRune generator.lowercase c = false /\
     generator.containsRune generator.uppercase c = false /\
     generator.containsRune generator.numbers c = false /\
     generator.containsRune generator.similar c = false).
Proof.
  destruct c as [[] [] [] [] [] [] [] []]; vm_compute;
    repeat split; intros; congruence.
Qed.

Lemma draw_in_chars (n : nat) (chars : list ascii) :
  forall (w w' : World) (result : list ascii),
    generator.draw n chars w = (Ok result, w') -> Forall (fun c => In c chars) result.
Proof.
  induction n as [|n IH]; intros w w' result.
  - cbn. intros [= <- _]. constructor.
  - cbn [generator.draw]. unfold bind, lift_result, ret.
    destruct (generator.randomInt _ w) as [[idx|] w1]; [|discriminate].
    unfold generator.char_at. destruct (Z.ltb idx 0); [discriminate|].
    destruct (nth_error chars (Z.to_nat idx)) as [c|] eqn:Hnth; [|discriminate].
    destruct (generator.draw n chars w1) as [[rest|] w2] eqn:Hrest; [|discriminate].
    intros [= <- _]. constructor.
    + eapply nth_error_In. exact Hnth.
    + eapply IH. exact Hrest.
Qed.

Lemma GeneratePassword_in_charset (fuel : nat) (options : generator.PasswordOptions) :
  forall (w w' : World) (password : string),
    generator.GeneratePassword fuel options w = Some (Ok password, w') ->
    Forall (fun c => In c (generator.charset options)) (list_ascii_of_string password).
Proof.
  induction fuel as [|fuel IH]; intros w w' password; [discriminate|].
  cbn [generator.GeneratePassword].
  destruct (Z.leb (generator.Length options) 0); [discriminate|].
  destruct (Nat.eqb (length (generator.charset options)) 0); [discriminate|].
  destruct (generator.draw _ _ w) as [[result|] w1] eqn:Hdraw; [|discriminate].
  destruct (negb (generator.meetsRequirements (string_of_list_ascii result) options)).
  - apply IH.
  - intros [= <- _]. rewrite list_ascii_of_string_of_list_ascii.
    eapply draw_in_chars. exact Hdraw.
Qed.

(** X10.  The runes of a generated password.  Every rune of a password
    that [GeneratePassword] returns belongs to a class that the options
    include; with [ExcludeSimilar] it is none of [il1Lo0O], and with
    [ExcludeAmbiguous] it is none of the ambiguous symbols. *)
Theorem GeneratePassword_runes
    (fuel : nat) (options : generator.PasswordOptions) (w w' : World)
    (password : string) (c : ascii) :
  generator.GeneratePassword fuel options w = Some (Ok password, w') ->
  In c (list_ascii_of_string password) ->
  (generator.IncludeLowercase options = true /\
     generator.containsRune generator.lowercase c = true \/
   generator.IncludeUppercase options = true /\
     generator.containsRune generator.uppercase c = true \/
   generator.IncludeNumbers options = true /\
     generator.containsRune generator.numbers c = true \/
   generator.IncludeSymbols options = true /\
     generator.containsRune generator.symbols c = true) /\
  (generator.ExcludeSimilar options = true ->
     generator.containsRune generator.similar c = false) /\
  (generator.ExcludeAmbiguous options = true ->
     generator.containsRune generator.ambiguous c = false).
Proof.
  intros Hrun Hin.
  pose proof (GeneratePassword_in_charset fuel options w w' password Hrun) as Hall.
  rewrite List.Forall_forall in Hall. specialize (Hall c Hin).
  apply In_charset in Hall.
  destruct (classes_apart c) as (Hl & Hu & Hn & Hs).
  destruct Hall as [(Hi & Hc & Hx)|[(Hi & Hc & Hx)|[(Hi & Hc & Hx)|(Hi & Hc & Hx)]]].
  - destruct (Hl Hc) as (_ & _ & _ & Hamb). clear Hl Hu Hn Hs.
    split; [left; split; assumption|].
    split; [intros He; rewrite He in Hx; exact Hx|intros _; exact Hamb].
  - destruct (Hu Hc) as (_ & _ & _ & Hamb). clear Hl Hu Hn Hs.
    split; [right; left; split; assumption|].
    split; [intros He; rewrite He in Hx; exact Hx|intros _; exact Hamb].
  - destruct (Hn Hc) as (_ & _ & _ & Hamb). clear Hl Hu Hn Hs.
    split; [right; right; left; split; assumption|].
    split; [intros He; rewrite He in Hx; exact Hx|intros _; exact Hamb].
  - destruct (Hs Hc) as (_ & _ & _ & Hsim). clear Hl Hu Hn Hs.
    split; [right; right; right; split; assumption|].
    split; [intros _; exact Hsim|intros He; rewrite He in Hx; exact Hx].
Qed.

(** ** What [meetsRequirements] accepts *)

Lemma has_class_inv (class : string) (c : ascii) (password : string) :
  has_class class (String c password) ->
  generator.containsRune class c = true \/ has_class class password.
Proof.
  intros (c' & [<-|Hin] & Hc); [left; exact Hc|].
  right. exists c'. split; assumption.
Qed.

(** A flag of the loop of [meetsRequirements] that was set stays set,
    and a rune of a class sets the flag of the class. *)
Lemma scan_classes_complete (password : string) :
  forall l u n s l' u' n' s',
    generator.scan_classes password l u n s = (l', u', n', s') ->
    (l = true \/ has_class generator.lowercase password -> l' = true) /\
    (u = true \/ has_class generator.uppercase password -> u' = true) /\
    (n = true \/ has_class generator.numbers password -> n' = true) /\
    (s = true \/ has_class generator.symbols password -> s' = true).
Proof.
  induction password as [|c password IH]; intros l u n s l' u' n' s'.
  - cbn. intros [= <- <- <- <-].
    repeat split; (intros [Hflag|(c & [] & _)]; exact Hflag).
  - cbn [generator.scan_classes].
    destruct (classes_apart c) as (Hl & Hu & Hn & Hs).
    destruct (generator.containsRune generator.lowercase c) eqn:El.
    { destruct (Hl eq_refl) as (Eu & En & Es & _). clear Hl Hu Hn Hs.
      intros Hscan. destruct (IH _ _ _ _ _ _ _ _ Hscan) as (Il & Iu & In' & Is).
      repeat split; intros [Hflag|Hclass];
        first [ apply Il; left; reflexivity
              | apply Iu; left; exact Hflag | apply In'; left; exact Hflag
              | apply Is; left; exact Hflag
              | apply has_class_inv in Hclass as [Hc|Hc];
                [congruence
                |first [apply Iu; right; exact Hc | apply In'; right; exact Hc
                       |apply Is; right; exact Hc]] ]. }
    destruct (generator.containsRune generator.uppercase c) eqn:Eu.
    { destruct (Hu eq_refl) as (_ & En & Es & _). clear Hl Hu Hn Hs.
      intros Hscan. destruct (IH _ _ _ _ _ _ _ _ Hscan) as (Il & Iu & In' & Is).
      repeat split; intros [Hflag|Hclass];
        first [ apply Iu; left; reflexivity
              | apply Il; left; exact Hflag | apply In'; left; exact Hflag
              | apply Is; left; exact Hflag
              | apply has_class_inv in Hclass as [Hc|Hc];
                [congruence
                |first [apply Il; right; exact Hc | apply In'; right; exact Hc
                       |apply Is; right; exact Hc]] ]. }
    destruct (generator.containsRune generator.numbers c) eqn:En.
    { destruct (Hn eq_refl) as (_ & _ & Es & _). clear Hl Hu Hn Hs.
      intros Hscan. destruct (IH _ _ _ _ _ _ _ _ Hscan) as (Il & Iu & In' & Is).
      repeat split; intros [Hflag|Hclass];
        first [ apply In'; left; reflexivity
              | apply Il; left; exact Hflag | apply Iu; left; exact Hflag
              | apply Is; left; exact Hflag
              | apply has_class_inv in Hclass as [Hc|Hc];
                [congruence
                |first [apply Il; right; exact Hc | apply Iu; right; exact Hc
                       |apply Is; right; exact Hc]] ]. }
    clear Hl Hu Hn Hs.
    destruct (generator.containsRune generator.symbols c) eqn:Es.
    { intros Hscan. destruct (IH _ _ _ _ _ _ _ _ Hscan) as (Il & Iu & In' & Is).
      repeat split; intros [Hflag|Hclass];
        first [ apply Is; left; reflexivity
              | apply Il; left; exact Hflag | apply Iu; left; exact Hflag
              | apply In'; left; exact Hflag
              | apply has_class_inv in Hclass as [Hc|Hc];
                [congruence
                |first [apply Il; right; exact Hc | apply Iu; right; exact Hc
                       |apply In'; right; exact Hc]] ]. }
    intros Hscan. destruct (IH _ _ _ _ _ _ _ _ Hscan) as (Il & Iu & In' & Is).
    repeat split; intros [Hflag|Hclass];
      first [ apply Il; left; exact Hflag | apply Iu; left; exact Hflag
            | apply In'; left; exact Hflag | apply Is; left; exact Hflag
            | apply has_class_inv in Hclass as [Hc|Hc];
              [congruence
              |first [apply Il; right; exact Hc | apply Iu; right; exact Hc
                     |apply In'; right; exact Hc | apply Is; right; exact Hc]] ].
Qed.

Lemma meetsRequirements_complete (password : string) (options : generator.PasswordOptions) :
  (generator.IncludeLowercase options = true -> has_class generator.lowercase password) /\
  (generator.IncludeUppercase options = true -> has_class generator.uppercase password) /\
  (generator.IncludeNumbers options = true -> has_class generator.numbers password) /\
  (generator.IncludeSymbols options = true -> has_class generator.symbols password) ->
  generator.meetsRequirements password options = true.
Proof.
  intros (Hl & Hu & Hn & Hs). unfold generator.meetsRequirements.
  destruct (generator.scan_classes password _ _ _ _) as [[[l' u'] n'] s'] eqn:Hscan.
  destruct (scan_classes_complete _ _ _ _ _ _ _ _ _ Hscan) as (Il & Iu & In' & Is).
  rewrite Il, Iu, In', Is; [reflexivity| | | |].
  - destruct (generator.IncludeSymbols options); [right; apply Hs|left]; reflexivity.
  - destruct (generator.IncludeNumbers options); [right; apply Hn|left]; reflexivity.
  - destruct (generator.IncludeUppercase options); [right; apply Hu|left]; reflexivity.
  - destruct (generator.IncludeLowercase options); [right; apply Hl|left]; reflexivity.
Qed.

(** X11.  [meetsRequirements] accepts a password exactly when it has a
    rune of every class that the options include; runes of other
    classes, and runes of no class, do not matter. *)
Theorem meetsRequirements_iff (password : string) (options : generator.PasswordOptions) :
  generator.meetsRequirements password options = true <->
  (generator.IncludeLowercase options = true -> has_class generator.lowercase password) /\
  (generator.IncludeUppercase options = true -> has_class generator.uppercase password) /\
  (generator.IncludeNumbers options = true -> has_class generator.numbers password) /\
  (generator.IncludeSymbols options = true -> has_class generator.symbols password).
Proof.
  split; [apply meetsRequirements_sound|apply meetsRequirements_complete].
Qed.

(** ** When the generator returns *)






(** X14.  [GeneratePassword] of the manager has no guard.  On a locked
    and on an unlocked manager alike it returns what the generator
    returns; it sets the activity time and leaves the key, the
    [initialized] flag, the database, the files and the log as they
    are. *)
Theorem manager_GeneratePassword_unguarded
    (fuel : nat) (options : generator.PasswordOptions) (pm : manager.PasswordManager)
    (w : World) :
  match manager.GeneratePassword fuel options (pm, w) with
  | Some (r, s') =>
      (exists w', generator.GeneratePassword fuel options w = Some (r, w') /\ snd s' = w') /\
      fst s' = manager.mkPasswordManager (manager.masterKey pm) (manager.initialized pm) (now w) /\
      db (snd s') = db w /\ files (snd s') = files w /\ io_log (snd s') = io_log w
  | None => generator.GeneratePassword fuel options w = None
  end.
Proof.
  unfold manager.GeneratePassword.
  cbn [manager.updateLastActivity modify fst snd].
  destruct (generator.GeneratePassword fuel options w) as [[r w']|] eqn:Hgen;
    [|reflexivity].
  cbn [fst snd]. split; [exists w'; split; reflexivity|]. split; [reflexivity|].
  split; [|split].
  - exact (stable_generator_GeneratePassword (same db) ltac:(bookkeeping)
             fuel options w w' r Hgen).
  - exact (stable_generator_GeneratePassword (same files) ltac:(bookkeeping)
             fuel options w w' r Hgen).
  - exact (stable_generator_GeneratePassword (same io_log) ltac:(bookkeeping)
             fuel options w w' r Hgen).
Qed.

(** ** Creating a vault, step by step *)

(** A draw from the entropy source: the count of the draws goes up by
    one, what is delivered has the length asked for, and the outcome
    depends on the count of the draws alone. *)
Lemma io_ReadFull_rand_snd (n : nat) (w : World) :
  snd (crypto.io_ReadFull_rand n w) = tick_rand w.
Proof.
  unfold crypto.io_ReadFull_rand.
  destruct (rand_Read (rand_calls w) n) as [b|]; [|reflexivity].
  destruct (Nat.eqb (length b) n); reflexivity.
Qed.

Lemma io_ReadFull_rand_Ok (n : nat) (w : World) (b : bytes) :
  fst (crypto.io_ReadFull_rand n w) = Ok b -> length b = n.
Proof.
  unfold crypto.io_ReadFull_rand.
  destruct (rand_Read (rand_calls w) n) as [b'|]; [|discriminate].
  destruct (Nat.eqb_spec (length b') n) as [Hn|_]; [|discriminate].
  intros [= <-]. exact Hn.
Qed.

Lemma io_ReadFull_rand_calls (n : nat) (w w' : World) :
  rand_calls w = rand_calls w' ->
  fst (crypto.io_ReadFull_rand n w) = fst (crypto.io_ReadFull_rand n w').
Proof.
  intros Hcalls. unfold crypto.io_ReadFull_rand. rewrite Hcalls.
  destruct (rand_Read (rand_calls w') n) as [b|]; [|reflexivity].
  destruct (Nat.eqb (length b) n); reflexivity.
Qed.

(** [Encrypt], by the draw of its nonce. *)
Lemma Encrypt_by_read (plaintext : string) (key : bytes) (w : World) :
  length key = 32%nat ->
  crypto.Encrypt plaintext key w =
  (match fst (crypto.io_ReadFull_rand crypto.gcm_NonceSize w) with
   | Ok nonce => Ok (nonce ++ gcm_Seal key nonce (bytes_of_string plaintext) [])%list
   | Err e => Err e
   end, tick_rand w).
Proof.
  intros Hk. rewrite (Encrypt_unfold plaintext key w Hk).
  unfold crypto.io_ReadFull_rand.
  destruct (rand_Read (rand_calls w) crypto.gcm_NonceSize) as [nonce|]; [|reflexivity].
  destruct (Nat.eqb (length nonce) crypto.gcm_NonceSize); reflexivity.
Qed.

(** A store that holds a salt and no test vector: no password unlocks
    it. *)
Lemma UnlockVault_without_vector (q : string) (pm : manager.PasswordManager) (w : World)
    (salt : SqlValue) :
  config (db w) !! "salt" = Some salt ->
  config (db w) !! "test_vector" = None ->
  fst (manager.UnlockVault q (pm, w)) = Err InvalidCredential.
Proof.
  intros Hsalt Hnone. rewrite UnlockVault_unfold. cbv zeta.
  rewrite Hsalt, Hnone. cbn [mbind option_bind].
  destruct (crypto.Decrypt (slice_contents None) _) as [text|] eqn:HD; [|reflexivity].
  exfalso. unfold crypto.Decrypt in HD.
  destruct (crypto.aes_NewCipher _); [|discriminate]. discriminate.
Qed.

(** X15.  The outcomes of [CreateMasterPassword], by the two draws from
    the entropy source, on a store that takes the two writes to the
    [config] table: the returns of "failed to save salt" and "failed to
    save test vector" are left out.  When the salt cannot be drawn it returns the error of the
    draw, wrapped in "failed to generate salt", and nothing but the
    count of the draws has changed.  When the salt is drawn, it has 16
    bytes; if then the nonce cannot be drawn, it returns the error of
    that draw, wrapped in "failed to encrypt test vector", the new salt
    is already stored, in place of any earlier one, and the manager
    already holds the new key, with its [initialized] flag as before;
    if the store had no test vector, [UnlockVault] then fails with the
    invalid-master-password error for every password.  When both draws
    deliver it succeeds: the [config] table holds the new salt and the
    nonce followed by the test string sealed under the key derived from
    the password and this salt, in place of any earlier salt and test
    vector, and the manager is initialized with that key; the records
    and the files are as before. *)
Theorem CreateMasterPassword_outcomes
    (p : string) (pm : manager.PasswordManager) (w : World) :
  config_writes_succeed ->
  match fst (crypto.GenerateSalt w) with
  | Err e0 =>
      manager.CreateMasterPassword p (pm, w)
      = (Err (fmt_Errorf "failed to generate salt" e0), (pm, tick_rand w))
  | Ok salt =>
      length salt = 16%nat /\
      match fst (crypto.io_ReadFull_rand crypto.gcm_NonceSize (tick_rand w)) with
      | Err e0 =>
          exists s1 : manager.State,
            manager.CreateMasterPassword p (pm, w)
            = (Err (fmt_Errorf "failed to encrypt test vector" e0), s1) /\
            config (db (snd s1)) = <["salt" := SBlob salt]> (config (db w)) /\
            fst s1 = manager.mkPasswordManager (Some (master_key p salt))
                       (manager.initialized pm) (manager.lastActivity pm) /\
            passwords (db (snd s1)) = passwords (db w) /\
            files (snd s1) = files w /\
            (config (db w) !! "test_vector" = None ->
             forall (q : string) (pm' : manager.PasswordManager),
               fst (manager.UnlockVault q (pm', snd s1)) = Err InvalidCredential)
      | Ok nonce =>
          exists s1 : manager.State,
            manager.CreateMasterPassword p (pm, w) = (Ok tt, s1) /\
            length nonce = crypto.gcm_NonceSize /\
            config (db (snd s1))
            = <["test_vector" :=
                  SBlob (nonce ++ gcm_Seal (master_key p salt) nonce
                                    (bytes_of_string testData) [])%list]>
                (<["salt" := SBlob salt]> (config (db w))) /\
            fst s1 = manager.mkPasswordManager (Some (master_key p salt)) true (now w) /\
            passwords (db (snd s1)) = passwords (db w) /\
            files (snd s1) = files w
      end
  end.
Proof.
  intros _.
  unfold manager.CreateMasterPassword, bind, wrap, manager.call, ret.
  cbn [fst snd]. unfold crypto.GenerateSalt.
  rewrite (surjective_pairing (crypto.io_ReadFull_rand 16 w)), io_ReadFull_rand_snd.
  destruct (fst (crypto.io_ReadFull_rand 16 w)) as [salt|e0] eqn:Hs; [|reflexivity].
  pose proof (io_ReadFull_rand_Ok 16 w salt Hs) as Hsalt.
  split; [exact Hsalt|].
  cbn [storage.SaveSalt crypto.DeriveKey manager.set_masterKey modify fst snd].
  fold (master_key p salt). fold testData.
  match goal with |- context [crypto.Encrypt testData _ ?w1] =>
    rewrite (Encrypt_by_read testData (master_key p salt) w1 (master_key_length p salt));
    rewrite (io_ReadFull_rand_calls crypto.gcm_NonceSize w1 (tick_rand w) eq_refl)
  end.
  destruct (fst (crypto.io_ReadFull_rand crypto.gcm_NonceSize (tick_rand w)))
    as [nonce|e0] eqn:Hn; cbn [fst snd].
  - pose proof (io_ReadFull_rand_Ok _ _ nonce Hn) as Hnonce.
    eexists. split; [reflexivity|]. split; [exact Hnonce|]. cbn.
    destruct nonce; [discriminate Hnonce|]. destruct salt; [discriminate Hsalt|].
    repeat split.
  - eexists. split; [reflexivity|].
    cbn [fst snd db set_db log_io tick_rand config passwords files].
    destruct salt as [|b salt]; [discriminate Hsalt|]. cbn [storage.bind_bytes].
    split; [reflexivity|]. split; [reflexivity|]. split; [reflexivity|].
    split; [reflexivity|].
    intros Hnone q pm'.
    apply (UnlockVault_without_vector q pm' _ (SBlob (b :: salt)));
      cbn [db set_db log_io tick_rand config].
    + apply lookup_insert_eq.
    + rewrite lookup_insert_ne by discriminate. exact Hnone.
Qed.

(** ** The prompt of the command *)

Ltac read_password :=
  unfold main.readPassword, main.term_ReadPassword, main.fmt_Println, main.fmt_Print,
    modify;
  cbn [fst snd main.keyed main.closed main.printed].

(** What the loop of [createMasterPassword] returns: a password of at
    least 8 bytes that was typed twice in a row, or the error of a
    read. *)
Lemma new_password_spec (fuel : nat) :
  forall (t t' : main.Terminal) (r : result string),
    main.new_password fuel t = Some (r, t') ->
    match r with
    | Ok p =>
        (8 <= String.length p)%nat /\
        exists before, main.keyed t = (before ++ Ok p :: Ok p :: main.keyed t')%list
    | Err e =>
        (exists before, main.keyed t = (before ++ Err e :: main.keyed t')%list) \/
        main.keyed t' = [] /\ e = main.closed t
    end.
Proof.
  induction fuel as [|fuel IH]; intros t t' r; [discriminate|].
  cbn [main.new_password]. read_password.
  destruct (main.keyed t) as [|[p|e] rest] eqn:Hk.
  - intros [= <- <-]. right. split; reflexivity.
  - destruct (Nat.ltb_spec (String.length p) 8) as [Hshort|Hlong].
    + intros Hrec. apply IH in Hrec. cbn [main.keyed main.closed] in Hrec.
      destruct r as [p'|e'].
      * destruct Hrec as (Hlen & before & ->). split; [exact Hlen|].
        exists (Ok p :: before). reflexivity.
      * destruct Hrec as [(before & ->)|[Hnil ->]]; [left|right; split; auto].
        exists (Ok p :: before). reflexivity.
    + read_password. destruct rest as [|[confirm|e] rest'].
      * intros [= <- <-]. right. split; reflexivity.
      * destruct (String.eqb_spec p confirm) as [<-|Hne]; cbn [negb].
        -- intros [= <- <-]. split; [exact Hlong|]. exists []. reflexivity.
        -- intros Hrec. apply IH in Hrec. cbn [main.keyed main.closed] in Hrec.
           destruct r as [p'|e'].
           ++ destruct Hrec as (Hlen & before & ->). split; [exact Hlen|].
              exists (Ok p :: Ok confirm :: before). reflexivity.
           ++ destruct Hrec as [(before & ->)|[Hnil ->]]; [left|right; split; auto].
              exists (Ok p :: Ok confirm :: before). reflexivity.
      * intros [= <- <-]. left. exists [Ok p]. reflexivity.
  - intros [= <- <-]. left. exists []. reflexivity.
Qed.

(** The loop ends within one round per read that the terminal
    answers, and one more. *)
Lemma new_password_ends (fuel : nat) :
  forall t : main.Terminal,
    (length (main.keyed t) < fuel)%nat ->
    exists r t', main.new_password fuel t = Some (r, t').
Proof.
  induction fuel as [|fuel IH]; intros t Hfuel; [lia|].
  cbn [main.new_password]. read_password.
  destruct (main.keyed t) as [|[p|e] rest] eqn:Hk; cbn [length] in Hfuel.
  - eexists _, _. reflexivity.
  - destruct (Nat.ltb (String.length p) 8).
    + apply IH. cbn [main.keyed]. lia.
    + read_password. destruct rest as [|[confirm|e] rest']; cbn [length] in Hfuel.
      * eexists _, _. reflexivity.
      * destruct (negb (String.eqb p confirm)).
        -- apply IH. cbn [main.keyed]. lia.
        -- eexists _, _. reflexivity.
      * eexists _, _. reflexivity.
  - eexists _, _. reflexivity.
Qed.

(** X16.  [createMasterPassword] of the command asks until a password
    of at least 8 bytes has been typed twice in a row, and calls
    [CreateMasterPassword] of the manager once, with that password.
    When a read of the terminal fails before that, it returns the error
    and the manager and the store are as before.  It returns within one
    round per read that the terminal answers, and one more. *)
Theorem createMasterPassword_asks_twice
    (fuel : nat) (t : main.Terminal) (s : manager.State) :
  (length (main.keyed t) < fuel)%nat ->
  exists (r : result unit) (t' : main.Terminal) (s' : manager.State),
    main.createMasterPassword fuel (t, s) = Some (r, (t', s')) /\
    ((exists (p : string) (before : list (result string)),
        (8 <= String.length p)%nat /\
        main.keyed t = (before ++ Ok p :: Ok p :: main.keyed t')%list /\
        manager.CreateMasterPassword p s = (r, s')) \/
     (exists e : error,
        r = Err e /\ s' = s /\
        ((exists before, main.keyed t = (before ++ Err e :: main.keyed t')%list) \/
         main.keyed t' = [] /\ e = main.closed t))).
Proof.
  intros Hfuel. unfold main.createMasterPassword. cbn [fst snd].
  destruct (new_password_ends fuel t Hfuel) as (r0 & t0 & Hloop).
  rewrite Hloop. pose proof (new_password_spec fuel t t0 r0 Hloop) as Hspec.
  destruct r0 as [p|e].
  - destruct Hspec as (Hlen & before & Hkeyed).
    destruct (manager.CreateMasterPassword p s) as [[[]|e] s1] eqn:Hcreate.
    + eexists _, _, _. split; [reflexivity|]. left. exists p, before.
      split; [exact Hlen|]. split; [exact Hkeyed|exact Hcreate].
    + eexists _, _, _. split; [reflexivity|]. left. exists p, before.
      split; [exact Hlen|]. split; [exact Hkeyed|exact Hcreate].
  - eexists _, _, _. split; [reflexivity|]. right. exists e.
    split; [reflexivity|]. split; [reflexivity|exact Hspec].
Qed.

(** X17.  [unlockVault] of the command creates a vault only when the
    store has no salt.  With a salt in the store it returns after one
    prompt, whatever is typed, and the database and the files are as
    before: a wrong password never leads to the creation of a new vault
    over the old one.  With no salt in the store, the password typed at
    the first prompt is dropped, and the command goes on as
    [createMasterPassword] does, which asks for the new password
    twice. *)
Theorem unlockVault_creates_only_without_salt
    (library_text : error -> string) (fuel : nat) (t : main.Terminal)
    (pm : manager.PasswordManager) (w : World) :
  match config (db w) !! "salt" with
  | Some _ =>
      exists (r : result unit) (t' : main.Terminal) (s' : manager.State),
        main.unlockVault library_text fuel (t, (pm, w)) = Some (r, (t', s')) /\
        db (snd s') = db w /\ files (snd s') = files w /\
        (length (main.keyed t) - 1 <= length (main.keyed t'))%nat
  | None =>
      forall (p : string) (rest : list (result string)),
        manager.IsLocked pm = true ->
        main.keyed t = Ok p :: rest ->
        exists t1 : main.Terminal,
          main.keyed t1 = rest /\ main.closed t1 = main.closed t /\
          main.unlockVault library_text fuel (t, (pm, w))
          = main.createMasterPassword fuel (t1, (pm, log_io (SqlQuery salt_sql) w))
  end.
Proof.
  destruct (config (db w) !! "salt") as [salt|] eqn:Hsalt.
  - unfold main.unlockVault. cbn [fst snd].
    destruct (manager.IsLocked pm).
    2:{ eexists _, _, _. split; [reflexivity|]. cbn. repeat split. lia. }
    read_password.
    destruct (main.keyed t) as [|[p|e] rest].
    + eexists _, _, _. split; [reflexivity|]. cbn. repeat split. lia.
    + rewrite UnlockVault_unfold, Hsalt. cbv zeta.
      destruct (crypto.Decrypt _ _).
      * eexists _, _, _. split; [reflexivity|]. cbn. repeat split. lia.
      * cbn [main.Error InvalidCredential].
        change (main.strings_Contains "invalid master password" "no salt found")
          with false. cbv iota.
        eexists _, _, _. split; [reflexivity|]. cbn. repeat split. lia.
    + eexists _, _, _. split; [reflexivity|]. cbn. repeat split. lia.
  - intros p rest Hlocked Hkeyed. unfold main.unlockVault. cbn [fst snd].
    rewrite Hlocked. read_password. rewrite Hkeyed.
    rewrite UnlockVault_unfold, Hsalt. cbv zeta.
    cbn [main.Error].
    change (main.strings_Contains
              ("failed to get salt" ++ ": "
               ++ "no salt found, please create a master password first")
              "no salt found") with true. cbv iota.
    eexists. split; [|split; [|reflexivity]]; reflexivity.
Qed.

(** ** The string helpers of the command *)

Lemma length_substring_0 (k : nat) :
  forall s : string, (k <= String.length s)%nat -> String.length (substring 0 k s) = k.
Proof.
  induction k as [|k IH]; intros s Hk.
  - destruct s; reflexivity.
  - destruct s as [|c s]; cbn [String.length] in Hk; [lia|].
    cbn [substring String.length]. rewrite IH by lia. reflexivity.
Qed.

Lemma length_string_app (a b : string) :
  String.length (a ++ b) = (String.length a + String.length b)%nat.
Proof.
  induction a as [|c a IH]; [reflexivity|].
  change (String c a ++ b) with (String c (a ++ b)). cbn [String.length].
  rewrite IH. reflexivity.
Qed.

(** X18.  [truncateString] keeps a column within its width.  When it
    returns, the result has at most [maxLen] bytes: it is the string
    itself, or it has exactly [maxLen] bytes, the first [maxLen-3] bytes
    of the string followed by three dots.  It panics exactly when the
    string is longer than [maxLen] and [maxLen] is below 3. *)
Theorem truncateString_fits (s : string) (maxLen : Z) :
  match main.truncateString s maxLen with
  | Ok r =>
      Z.of_nat (String.length r) <= maxLen /\
      (r = s \/
       Z.of_nat (String.length r) = maxLen /\
       exists kept, r = kept ++ "..." /\ String.prefix kept s = true /\
                    Z.of_nat (String.length kept) = maxLen - 3)
  | Err _ => maxLen < 3 /\ maxLen < Z.of_nat (String.length s)
  end.
Proof.
  unfold main.truncateString.
  destruct (Z.leb_spec (Z.of_nat (String.length s)) maxLen) as [Hfits|Hlong].
  - split; [exact Hfits|left; reflexivity].
  - destruct (Z.ltb_spec (maxLen - 3) 0) as [Hneg|Hpos]; [split; lia|].
    assert (Hkept : String.length (substring 0 (Z.to_nat (maxLen - 3)) s)
                    = Z.to_nat (maxLen - 3)) by (apply length_substring_0; lia).
    rewrite length_string_app, Hkept. cbn [String.length].
    split; [lia|]. right. split; [lia|].
    eexists. split; [reflexivity|]. split; [|lia].
    apply prefix_correct. rewrite Hkept. reflexivity.
Qed.

Lemma lower_ascii_letters (c : ascii) :
  Ascii.eqb (main.lower_ascii c) "y" = Ascii.eqb c "y" || Ascii.eqb c "Y" /\
  Ascii.eqb (main.lower_ascii c) "e" = Ascii.eqb c "e" || Ascii.eqb c "E" /\
  Ascii.eqb (main.lower_ascii c) "s" = Ascii.eqb c "s" || Ascii.eqb c "S".
Proof. destruct c as [[] [] [] [] [] [] [] []]; vm_compute; repeat split. Qed.

(** X19.  What [confirmOption] takes for a yes.  For an answer of ASCII
    bytes it returns the default for the empty answer only; for any
    other answer it returns true exactly for [y] and [yes] in any mix of
    upper and lower case, and false otherwise, also when the default is
    true. *)
Theorem confirmOption_spellings
    (unicode_lower : string -> string) (input : string) (defaultValue : bool) :
  main.all_ascii input = true ->
  main.confirmOption unicode_lower input defaultValue =
  if String.eqb input EmptyString then defaultValue
  else existsb (String.eqb input)
         ["y"; "Y"; "yes"; "yeS"; "yEs"; "yES"; "Yes"; "YeS"; "YEs"; "YES"].
Proof.
  intros Hascii. unfold main.confirmOption, main.strings_ToLower. rewrite Hascii.
  clear Hascii. destruct input as [|c1 input]; [reflexivity|].
  destruct (lower_ascii_letters c1) as (Hy & _ & _).
  cbn [main.map_string String.eqb existsb]. rewrite Hy.
  destruct input as [|c2 input].
  { cbn [main.map_string String.eqb].
    destruct (Ascii.eqb c1 "y"), (Ascii.eqb c1 "Y"); reflexivity. }
  destruct (lower_ascii_letters c2) as (_ & He & _).
  cbn [main.map_string String.eqb]. rewrite He.
  destruct input as [|c3 input].
  { cbn [main.map_string String.eqb].
    destruct (Ascii.eqb c1 "y"), (Ascii.eqb c1 "Y"), (Ascii.eqb c2 "e"),
      (Ascii.eqb c2 "E"); reflexivity. }
  destruct (lower_ascii_letters c3) as (_ & _ & Hs).
  cbn [main.map_string String.eqb]. rewrite Hs.
  destruct input as [|c4 input].
  { cbn [main.map_string String.eqb].
    destruct (Ascii.eqb c1 "y"), (Ascii.eqb c1 "Y"), (Ascii.eqb c2 "e"),
      (Ascii.eqb c2 "E"), (Ascii.eqb c3 "s"), (Ascii.eqb c3 "S"); reflexivity. }
  cbn [main.map_string String.eqb].
  destruct (Ascii.eqb c1 "y"), (Ascii.eqb c1 "Y"), (Ascii.eqb c2 "e"),
    (Ascii.eqb c2 "E"), (Ascii.eqb c3 "s"), (Ascii.eqb c3 "S"); reflexivity.
Qed.

(** ** A record across a restart *)

(** What a successful [AddPassword] leaves in the store. *)
Lemma AddPassword_Ok_row (entry : models.PasswordEntry) (pm : manager.PasswordManager)
    (w : World) (key : bytes) (id : Z) (s1 : manager.State) :
  Unlocked pm key ->
  manager.AddPassword entry (pm, w) = (Ok id, s1) ->
  exists (bp : bytes) (encNotes : option bytes),
    storage.find_password id (db (snd s1)) = Some (added_row entry (Some bp) encNotes w) /\
    id = storage.next_rowid (db w) /\
    sealed key (models.Password entry) bp /\
    (encNotes = None /\ models.Notes entry = EmptyString \/
     exists blob, encNotes = Some blob /\ sealed key (models.Notes entry) blob) /\
    config (db (snd s1)) = config (db w).
Proof.
  intros (Hi & Hkey & Hk).
  unfold manager.AddPassword, bind.
  rewrite (require_initialized_unlocked pm w Hi).
  unfold manager.call, ret, manager.get_masterKey, manager.key_of.
  cbn [manager.updateLastActivity modify fst snd manager.masterKey].
  rewrite Hkey, Hi, !slice_contents_Some.
  destruct (Encrypt_cases (models.Password entry) key w Hk)
    as [(bp & HE & Hp)|(e & HE & He)]; rewrite HE; [|discriminate].
  cbn [fst snd].
  destruct (String.eqb_spec (models.Notes entry) EmptyString) as [Hempty|Hfull];
    cbn [negb fst snd].
  - rewrite storage_AddPassword_unfold. cbn [fst snd]. intros [= <- <-].
    exists bp, None. cbn [fst snd db set_db].
    split; [apply (find_added_row entry (Some bp) None w); reflexivity|].
    split; [reflexivity|]. split; [exact Hp|].
    split; [left; split; [reflexivity|exact Hempty]|reflexivity].
  - destruct (Encrypt_cases (models.Notes entry) key (tick_rand w) Hk)
      as [(bn & HE2 & Hn)|(e & HE2 & He)]; rewrite HE2; [|discriminate].
    cbn [fst snd]. rewrite storage_AddPassword_unfold. cbn [fst snd]. intros [= <- <-].
    exists bp, (Some bn). cbn [fst snd db set_db].
    split; [apply (find_added_row entry (Some bp) (Some bn) w); reflexivity|].
    split; [reflexivity|]. split; [exact Hp|].
    split; [right; exists bn; split; [reflexivity|exact Hn]|reflexivity].
Qed.

(** X20.  A record survives a restart.  After [CreateMasterPassword p]
    and an [AddPassword] that returned an id, any manager over the
    store, a new one after a restart or the old one after [Lock], is
    unlocked by [UnlockVault p], and [GetPassword] of the id then
    returns the title, URL, username, category, password and notes of
    the record. *)
Theorem record_survives_restart
    (p : string) (entry : models.PasswordEntry) (s0 s1 s2 : manager.State) (id : Z)
    (pm : manager.PasswordManager) :
  manager.CreateMasterPassword p s0 = (Ok tt, s1) ->
  manager.AddPassword entry s1 = (Ok id, s2) ->
  exists (s3 s4 : manager.State) (got : models.PasswordEntry),
    manager.UnlockVault p (pm, snd s2) = (Ok tt, s3) /\
    manager.GetPassword id s3 = (Ok got, s4) /\
    models.ID got = id /\
    models.Title got = models.Title entry /\
    models.URL got = models.URL entry /\
    models.Username got = models.Username entry /\
    models.Category got = models.Category entry /\
    models.Password got = models.Password entry /\
    models.Notes got = models.Notes entry.
Proof.
  destruct s0 as [pm0 w0], s1 as [pm1 w1], s2 as [pm2 w2]. intros Hcreate Hadd.
  destruct (CreateMasterPassword_Ok p pm0 pm1 w0 w1 Hcreate)
    as (salt & nonce & Hn & Hsalt & Htv & Hpm & _).
  assert (HU : Unlocked pm1 (master_key p salt)).
  { subst pm1. repeat split. apply master_key_length. }
  destruct (AddPassword_Ok_row entry pm1 w1 _ id _ HU Hadd)
    as (bp & encNotes & Hfind & Hid & Hp & Hnotes & Hcfg).
  cbn [snd] in *. rewrite <- Hcfg in Hsalt, Htv.
  rewrite (UnlockVault_sealed_vector p salt nonce pm w2 Hn Hsalt Htv).
  match goal with |- context [(Ok tt, (?pm3, ?w3))] =>
    destruct (GetPassword_added_row entry pm3 (master_key p salt) bp encNotes w3 w1 id)
      as (got & s4 & HG & Hgid & Ht & Hu & Hun & Hc & Hpw & Hno) end.
  - repeat split. apply master_key_length.
  - exact Hfind.
  - exact Hp.
  - exact Hnotes.
  - eexists _, s4, got. split; [reflexivity|]. split; [exact HG|].
    rewrite Hid. repeat split; assumption.
Qed.

(** ** The text columns of an imported export *)





(** ** The storage service by itself *)

(** X22.  Round trips of the storage service.  A salt and a test vector
    that [SaveSalt] and [SaveTestVector] have stored are what [GetSalt]
    and [GetTestVector] return, in either order of the two writes and
    with the last write winning; a nil slice is stored as NULL and read
    back as a nil slice without an error.  A row that [AddPassword] of
    the storage has inserted is what its [GetPassword] returns for the
    id: the clear fields of the entry and the two blobs as given, a nil
    blob as nil, and the [Password] and [Notes] fields empty. *)
Theorem storage_round_trips
    (salt vector encPassword encNotes : option bytes) (entry : models.PasswordEntry)
    (w : World) :
  fst (storage.GetSalt (snd (storage.SaveSalt salt w))) = Ok salt /\
  fst (storage.GetTestVector (snd (storage.SaveTestVector vector w))) = Ok vector /\
  fst (storage.GetSalt (snd (storage.SaveTestVector vector (snd (storage.SaveSalt salt w)))))
    = Ok salt /\
  fst (storage.GetTestVector
         (snd (storage.SaveSalt salt (snd (storage.SaveTestVector vector w))))) = Ok vector /\
  fst (storage.GetSalt (snd (storage.SaveSalt salt (snd (storage.SaveSalt vector w)))))
    = Ok salt /\
  exists id w1,
    storage.AddPassword entry encPassword encNotes w = (Ok id, w1) /\
    fst (storage.GetPassword id w1)
    = Ok (models.mkPasswordEntry id (models.Title entry) (models.URL entry)
            (models.Username entry) EmptyString EmptyString (models.Category entry)
            (storage.parse_time (timestamp_text (current_timestamp (now w))))
            (storage.parse_time (timestamp_text (current_timestamp (now w)))),
          encPassword, encNotes).
Proof.
  assert (Hscan : forall b, storage.scan_bytes (storage.bind_bytes b) = b)
    by (intros [b|]; reflexivity).
  unfold storage.GetSalt, storage.SaveSalt, storage.GetTestVector, storage.SaveTestVector.
  cbv zeta. cbn [fst snd db set_db log_io config].
  repeat rewrite ?lookup_insert_eq, ?(lookup_insert_ne _ "test_vector" "salt"),
    ?(lookup_insert_ne _ "salt" "test_vector") by discriminate.
  cbn [fst]. rewrite !Hscan.
  split; [reflexivity|]. split; [reflexivity|]. split; [reflexivity|].
  split; [reflexivity|]. split; [reflexivity|].
  rewrite storage_AddPassword_unfold. eexists _, _. split; [reflexivity|].
  unfold storage.GetPassword. cbv zeta. cbn [db set_db log_io].
  rewrite (find_added_row entry encPassword encNotes
             (log_io (SqlExec storage.insert_sql) w)) by reflexivity.
  cbn. rewrite !Hscan. reflexivity.
Qed.

(** ** One row per call *)

(** X23.  [AddPassword] appends one row or changes nothing.  Whatever
    the state of the manager, when [AddPassword] returns an id the table
    is the old table followed by one row: the row has that id, which is
    above every id of the old table, the clear columns of the entry, and
    the same creation and update time.  When it returns an error the
    database is as before: no row is left behind. *)
Theorem AddPassword_appends_one_row
    (entry : models.PasswordEntry) (pm : manager.PasswordManager) (w : World) :
  match manager.AddPassword entry (pm, w) with
  | (Ok id, s1) =>
      exists row,
        passwords (db (snd s1)) = (passwords (db w) ++ [row])%list /\
        col_id row = id /\
        (forall old, In old (passwords (db w)) -> col_id old < id) /\
        col_title row = SText (models.Title entry) /\
        col_url row = SText (models.URL entry) /\
        col_username row = SText (models.Username entry) /\
        col_category row = SText (models.Category entry) /\
        col_created_at row = col_updated_at row /\
        config (db (snd s1)) = config (db w)
  | (Err _, s1) => db (snd s1) = db w
  end.
Proof.
  unfold manager.AddPassword, bind, manager.require_initialized. cbn [fst snd].
  destruct (negb (manager.initialized pm)); [reflexivity|].
  unfold manager.call, ret, manager.get_masterKey.
  cbn [manager.updateLastActivity modify fst snd].
  match goal with |- context [crypto.Encrypt ?t ?k ?w0] =>
    pose proof (stable_Encrypt (same db) ltac:(bookkeeping) t k w0) as Hp;
    destruct (crypto.Encrypt t k w0) as [[bp|e] w1] end;
    unfold same in Hp; cbn [fst snd] in *; [|exact Hp].
  assert (Hrow : forall encNotes w2, db w2 = db w ->
            exists row,
              passwords (db (snd (storage.AddPassword entry (Some bp) encNotes w2)))
                = (passwords (db w) ++ [row])%list /\
              col_id row = storage.next_rowid (db w2) /\
              (forall old, In old (passwords (db w)) ->
                           col_id old < storage.next_rowid (db w2)) /\
              col_title row = SText (models.Title entry) /\
              col_url row = SText (models.URL entry) /\
              col_username row = SText (models.Username entry) /\
              col_category row = SText (models.Category entry) /\
              col_created_at row = col_updated_at row /\
              config (db (snd (storage.AddPassword entry (Some bp) encNotes w2)))
                = config (db w)).
  { intros encNotes w2 Hdb. rewrite storage_AddPassword_unfold.
    cbn [fst snd db set_db log_io passwords config]. rewrite Hdb.
    eexists. split; [reflexivity|]. cbn. rewrite ?Hdb. repeat split.
    intros old Hold. apply next_rowid_fresh. exact Hold. }
  destruct (negb (String.eqb (models.Notes entry) EmptyString)).
  - match goal with |- context [crypto.Encrypt ?t ?k ?w0] =>
      pose proof (stable_Encrypt (same db) ltac:(bookkeeping) t k w0) as Hn;
      destruct (crypto.Encrypt t k w0) as [[bn|e] w2] end;
      unfold same in Hn; cbn [fst snd] in *; [|congruence].
    specialize (Hrow (Some bn) w2 ltac:(congruence)).
    rewrite storage_AddPassword_unfold in *. cbn [fst snd] in *. exact Hrow.
  - cbn [fst snd]. specialize (Hrow None w1 Hp).
    rewrite storage_AddPassword_unfold in *. cbn [fst snd] in *. exact Hrow.
Qed.

(** ** The file of an export *)

(** X24.  The file that [ExportVault] writes can be opened.  After a
    successful export on an Unlocked manager the named file holds
    base64 text; decoded, it is a blob that [Decrypt] opens under the
    key of the vault; the text inside is the JSON document of one
    record per row of the table, in the order of the table, which
    [json.Unmarshal] reads back, blobs as base64 strings and ids as
    numbers. *)
Theorem exported_file_opens
    (filename : string) (pm : manager.PasswordManager) (w : World) (key : bytes)
    (s1 : manager.State) :
  Unlocked pm key ->
  manager.ExportVault filename (pm, w) = (Ok tt, s1) ->
  exists (data text : string) (blob : bytes) (entries : list (gmap string GoVal)),
    files (snd s1) !! filename = Some data /\
    base64.DecodeString data = Ok blob /\
    crypto.Decrypt blob key = Ok text /\
    storage.export_rows (passwords (db w)) = Ok entries /\
    length entries = length (passwords (db w)) /\
    encoding_json.Unmarshal text = Ok (List.map (fmap reread) entries).
Proof.
  intros HU Hexport.
  destruct (ExportVault_Ok filename pm w key s1 HU Hexport)
    as (entries & text & blob & Hrows & Hmarshal & Hsealed & Hfile & _ & _).
  destruct HU as (_ & _ & Hk).
  exists (base64.EncodeToString blob), text, blob, entries.
  split; [exact Hfile|]. split; [apply DecodeString_EncodeToString|].
  split; [exact (sealed_Decrypt key text blob Hk Hsealed)|].
  split; [exact Hrows|]. split; [|exact (Unmarshal_Marshal entries text Hmarshal)].
  clear -Hrows. revert entries Hrows.
  induction (passwords (db w)) as [|r rows IH]; cbn [storage.export_rows]; intros entries.
  - intros [= <-]. reflexivity.
  - destruct (storage.export_row r); [|discriminate].
    destruct (storage.export_rows rows) as [rest|]; [|discriminate].
    intros [= <-]. cbn [length]. rewrite (IH rest eq_refl). reflexivity.
Qed.

(** ** The key, the flag and the activity time *)

Lemma stable_call_manager {A} (m : M World A) :
  stable (same (fst : manager.State -> manager.PasswordManager)) (manager.call m).
Proof.
  intros s. unfold same, manager.call. destruct (m (snd s)) as [r w]. reflexivity.
Qed.

Ltac keeps_manager :=
  repeat match goal with
  | |- PreOrder _ => typeclasses eauto
  | |- stable _ (bind _ _) => apply stable_bind; [| |intros ?]
  | |- stable _ (ret _) => apply stable_ret
  | |- stable _ (lift_result _) => apply stable_lift_result
  | |- stable _ (if _ then _ else _) => apply stable_if
  | |- stable _ (manager.call _) => apply stable_call_manager
  | |- stable _ manager.get_masterKey => intros ?; reflexivity
  | |- stable _ (let '(_, _) := ?a in _) => destruct a
  | |- stable _ (match ?a with Some _ => _ | None => _ end) => destruct a
  | |- stable _ (match ?a with [] => _ | _ :: _ => _ end) => destruct a
  end.

(** A method that starts with the guard and the activity time: what it
    leaves in the manager when the rest only calls the services. *)
Lemma guarded_manager {A} (body : M manager.State A) (pm : manager.PasswordManager)
    (w : World) :
  stable (same fst) body ->
  fst (snd ((_ <- manager.require_initialized ;;
             _ <- manager.updateLastActivity ;; body) (pm, w))) =
  if manager.initialized pm
  then manager.mkPasswordManager (manager.masterKey pm) true (now w)
  else pm.
Proof.
  intros Hbody. unfold bind at 1. unfold manager.require_initialized. cbn [fst snd].
  destruct (manager.initialized pm) eqn:Hi; cbn [negb]; [|reflexivity].
  unfold bind. cbn [manager.updateLastActivity modify fst snd].
  rewrite Hi.
  match goal with |- context [body ?s1] =>
    pose proof (Hbody s1) as Hs; destruct (body s1) as [[a|e] s2] end;
    exact Hs.
Qed.

(** X25.  What each method leaves in the manager, whatever it returns.
    A data operation never changes the key or the [initialized] flag:
    on an unlocked manager it sets the activity time that
    [GetLastActivity] returns to the time of the call, also when it
    fails afterwards, and on a locked manager it changes nothing.
    [Lock] drops the key and the flag and keeps the activity time.
    [UnlockVault] leaves the manager as it is or leaves it unlocked,
    with a key and the activity time of the call. *)
Theorem operations_manager_frame (op : Operation) (pm : manager.PasswordManager) (w : World) :
  match op with
  | OpLock =>
      fst (after op (pm, w))
      = manager.mkPasswordManager None false (manager.GetLastActivity pm)
  | OpUnlockVault _ =>
      fst (after op (pm, w)) = pm \/
      exists key, fst (after op (pm, w)) = manager.mkPasswordManager (Some key) true (now w)
  | _ =>
      manager.masterKey (fst (after op (pm, w))) = manager.masterKey pm /\
      manager.IsLocked (fst (after op (pm, w))) = manager.IsLocked pm /\
      manager.GetLastActivity (fst (after op (pm, w)))
      = if manager.IsLocked pm then manager.GetLastActivity pm else now w
  end.
Proof.
  assert (Hframe : forall pm1 : manager.PasswordManager,
            pm1 = (if manager.initialized pm
                   then manager.mkPasswordManager (manager.masterKey pm) true (now w)
                   else pm) ->
            manager.masterKey pm1 = manager.masterKey pm /\
            manager.IsLocked pm1 = manager.IsLocked pm /\
            manager.GetLastActivity pm1
            = if manager.IsLocked pm then manager.GetLastActivity pm else now w).
  { intros pm1 ->. unfold manager.IsLocked.
    destruct (manager.initialized pm) eqn:Hi; cbn; rewrite ?Hi; repeat split. }
  destruct op; cbn [after].
  - apply Hframe. unfold manager.AddPassword. apply guarded_manager. keeps_manager.
  - apply Hframe. unfold manager.GetPassword. apply guarded_manager. keeps_manager.
  - apply Hframe. unfold manager.GetAllPasswords. apply guarded_manager. keeps_manager.
  - apply Hframe. unfold manager.UpdatePassword. apply guarded_manager. keeps_manager.
  - apply Hframe. unfold manager.DeletePassword. apply guarded_manager. keeps_manager.
  - apply Hframe. unfold manager.SearchPasswords. apply guarded_manager. keeps_manager.
  - apply Hframe. unfold manager.ExportVault. apply guarded_manager. keeps_manager.
  - apply Hframe. unfold manager.ImportVault. apply guarded_manager. keeps_manager.
  - reflexivity.
  - rewrite UnlockVault_unfold. cbv zeta.
    destruct (config (db w) !! "salt") as [salt|]; [|left; reflexivity].
    destruct (crypto.Decrypt _ _); [right; eexists; reflexivity|left; reflexivity].
Qed.

End properties.

(** * The theorems at concrete inputs *)

Lemma ref_gcm_contract :
  forall key nonce plaintext : bytes,
    length key = 32%nat -> length nonce = crypto.gcm_NonceSize ->
    gcm_Open (Extern := scenario.E) key nonce
      (gcm_Seal (Extern := scenario.E) key nonce plaintext []) [] = Some plaintext.
Proof. intros key nonce plaintext _ _. apply ref_Open_Seal. Qed.

Lemma ref_argon2_contract :
  forall (password salt : bytes) (time memory threads : Z) (keyLen : nat),
    length (argon2_IDKey (Extern := scenario.E) password salt time memory threads keyLen)
    = keyLen.
Proof. intros. apply ref_IDKey_length. Qed.

Lemma ref_json_contract :
  forall entries : list (gmap string GoVal),
    json_parse (Extern := scenario.E)
      (json_text (Extern := scenario.E) (encoding_json.marshal_entries (H := scenario.E) entries))
    = Some (encoding_json.marshal_entries (H := scenario.E) entries).
Proof. intros entries. apply ref_json_parse_text. Qed.

Lemma scenario_Unlocked : Unlocked (fst scenario.created) scenario.vault_key.
Proof. repeat split. Qed.

(** C1 on the locked vault of the scenario. *)
Lemma data_operations_need_unlock_witness :
  manager.AddPassword (H := scenario.E) scenario.record scenario.locked
    = (Err NotUnlocked, scenario.locked) /\
  manager.ExportVault (H := scenario.E) "vault.export" scenario.locked
    = (Err NotUnlocked, scenario.locked).
Proof.
  destruct (data_operations_need_unlock (H := scenario.E)
              (fst scenario.locked) (snd scenario.locked) scenario.record 1
              (models.mkSearchParams "mail" EmptyString EmptyString false 0 0)
              "vault.export" eq_refl)
    as (Hadd & _ & _ & _ & _ & _ & Hexport & _).
  split; [exact Hadd|exact Hexport].
Defined.

(** C2 at a concrete key and plaintext. *)
Lemma Decrypt_Encrypt_witness :
  let key := repeat Byte.x2a 32 in
  match crypto.Encrypt (H := scenario.E) "p@ssW0rd!" key reference.empty_world with
  | (Ok blob, _) => crypto.Decrypt (H := scenario.E) blob key = Ok "p@ssW0rd!"
  | (Err e, _) =>
      fst (crypto.io_ReadFull_rand (H := scenario.E)
             crypto.gcm_NonceSize reference.empty_world) = Err e
  end.
Proof.
  apply (Decrypt_Encrypt (H := scenario.E) ref_gcm_contract).
  reflexivity.
Defined.

(** C3 on the scenario: the password of the vault unlocks it, another
    password does not. *)
Lemma unlock_after_create_witness :
  (exists key w',
     manager.UnlockVault (H := scenario.E) "CorrectHorse1" scenario.locked
       = (Ok tt, (manager.mkPasswordManager (Some key) true (now (snd scenario.locked)), w'))) /\
  (exists w',
     manager.UnlockVault (H := scenario.E) "WrongPass" scenario.locked
       = (Err InvalidCredential, (fst scenario.locked, w'))).
Proof.
  destruct (unlock_after_create (H := scenario.E) ref_gcm_contract ref_argon2_contract
              "CorrectHorse1" (fst scenario.fresh) (fst scenario.created)
              (snd scenario.fresh) (snd scenario.created) eq_refl)
    as [Hright Hwrong].
  split.
  - destruct (Hright (fst scenario.locked) (snd scenario.locked) eq_refl)
      as (key & w' & Hunlock & _).
    exists key, w'. exact Hunlock.
  - destruct (Hwrong "WrongPass" (fst scenario.locked) (snd scenario.locked)
                (SBlob (repeat Byte.x00 16)) eq_refl eq_refl)
      as (w' & Hunlock & _).
    exists w'. exact Hunlock.
Defined.

(** C4 on the scenario: the record is added to the unlocked vault and
    read back with its password and its notes. *)
Lemma add_then_get_witness :
  exists (id : Z) (s1 : manager.State) (got : models.PasswordEntry) (s2 : manager.State),
    manager.AddPassword (H := scenario.E) scenario.record
      (fst scenario.created, snd scenario.created) = (Ok id, s1) /\
    manager.GetPassword (H := scenario.E) id s1 = (Ok got, s2) /\
    models.Password got = models.Password scenario.record /\
    models.Notes got = models.Notes scenario.record.
Proof.
  pose proof (add_then_get (H := scenario.E) ref_gcm_contract scenario.record
                (fst scenario.created) (snd scenario.created) scenario.vault_key
                scenario_Unlocked) as Hadd.
  destruct (manager.AddPassword (H := scenario.E) scenario.record
              (fst scenario.created, snd scenario.created)) as [[id|e] s1] eqn:Hrun.
  - destruct Hadd as (_ & got & s2 & HG & _ & Hp & Hn).
    exists id, s1, got, s2. repeat split; assumption.
  - vm_compute in Hrun. discriminate Hrun.
Defined.

(** The record of the specification, added and read back. *)
Example add_then_get_example :
  fst (manager.AddPassword (H := scenario.E) scenario.record scenario.created) = Ok 1 /\
  option_map models.Password
    (returned (fst (manager.GetPassword (H := scenario.E) 1 scenario.with_record))) = Some "p@ssW0rd!" /\
  option_map models.Notes
    (returned (fst (manager.GetPassword (H := scenario.E) 1 scenario.with_record))) = Some "secret note".
Proof. vm_compute. repeat split. Qed.

(** A record without notes: the notes column is NULL and the notes read
    back are empty. *)
Example add_without_notes_example :
  let s := snd (manager.AddPassword (H := scenario.E) scenario.plain_record
                  scenario.with_record) in
  List.map col_notes (passwords (db (snd s))) <> [] /\
  option_map col_notes (storage.find_password 2 (db (snd s))) = Some SNull /\
  option_map models.Notes
    (returned (fst (manager.GetPassword (H := scenario.E) 2 s))) = Some EmptyString.
Proof. vm_compute. repeat split. discriminate. Qed.

(** C5 on the scenario: the vault with one record is exported and the
    file imported. *)
Lemma export_then_import_witness :
  exists (s2 : manager.State) (news : list Row),
    manager.ImportVault (H := scenario.E) "vault.export" scenario.exported = (Ok tt, s2) /\
    passwords (db (snd s2)) = (passwords (db (snd scenario.with_record)) ++ news)%list /\
    Forall2 (reimported (H := scenario.E)) (passwords (db (snd scenario.with_record))) news /\
    Forall2 (fun old new =>
               forall blob, col_password old = SBlob blob -> blob <> [] ->
                            storage.scan_bytes (col_password new) <> Some blob)
      (passwords (db (snd scenario.with_record))) news.
Proof.
  apply (export_then_import (H := scenario.E) ref_gcm_contract ref_json_contract
           "vault.export" (fst scenario.with_record) (snd scenario.with_record)
           scenario.vault_key scenario.exported).
  - repeat split.
  - vm_compute. reflexivity.
Defined.

(** C5 fails on the code.  In the scenario the record is row 1; after
    the export and the import of the file, row 2 is its copy.  The
    password column of row 1 is a blob, that of row 2 is the base64 text
    of this blob, stored as text, whose bytes are not the blob;
    [GetPassword 1] returns the password and [GetPassword 2] fails in
    [Decrypt]. *)
Theorem imported_password_is_base64_text :
  scenario.import_outcome
    = ([SBlob scenario.password_blob;
        SText "AgICAgICAgICAgICIWRyMFdzc0BwQ29ycmVjdEgCAgICAgICAg=="],
       Some "p@ssW0rd!",
       Err cipher_errOpen) /\
  base64.EncodeToString scenario.password_blob
    = "AgICAgICAgICAgICIWRyMFdzc0BwQ29ycmVjdEgCAgICAgICAg==" /\
  storage.scan_bytes (SText (base64.EncodeToString scenario.password_blob))
    <> Some scenario.password_blob.
Proof.
  split; [vm_compute; reflexivity|].
  split; [vm_compute; reflexivity|].
  intros Heq. cbn [storage.scan_bytes] in Heq.
  assert (Hne : scenario.password_blob <> []) by (vm_compute; discriminate).
  apply (base64_text_differs scenario.password_blob Hne).
  congruence.
Qed.

(** C6 on the scenario: a batch whose second record has no title is
    rolled back as a whole, a batch of two good records is appended
    under the next two rowids. *)
Example import_rolls_back_example :
  let w := snd scenario.with_record in
  let '(r, w') := storage.ImportData
                    [scenario.good_entry "first"; scenario.untitled_entry;
                     scenario.good_entry "third"] w in
  r = Err (sql_error "NOT NULL constraint failed: passwords.title") /\
  db w' = db w /\
  io_log w' = (io_log w ++ [TxBegin; SqlExec storage.import_sql;
                            SqlExec storage.import_sql; TxRollback])%list.
Proof. vm_compute. repeat split. Qed.

Example import_commits_example :
  let w := snd scenario.with_record in
  let '(r, w') := storage.ImportData
                    [scenario.good_entry "first"; scenario.good_entry "second"] w in
  r = Ok tt /\
  List.map col_id (passwords (db w')) = [1; 2; 3] /\
  List.map col_title (passwords (db w')) = [SText "mail"; SText "first"; SText "second"] /\
  firstn 1 (passwords (db w')) = passwords (db w).
Proof. vm_compute. repeat split. Qed.


(** C8 as stated fails: with the empty salt, which is not a 16-byte
    salt, [DeriveKey] returns a key and no error. *)
Lemma DeriveKey_empty_salt_no_error :
  length ([] : bytes) <> 16%nat /\
  is_Ok (crypto.DeriveKey (H := scenario.E) "CorrectHorse1" []) = true.
Proof. split; [discriminate | reflexivity]. Qed.

(** C8 at a concrete password, with an empty salt. *)
Lemma DeriveKey_never_fails_witness :
  exists key, crypto.DeriveKey (H := scenario.E) "CorrectHorse1" [] = Ok key
              /\ length key = 32%nat.
Proof.
  exact (DeriveKey_never_fails (H := scenario.E) ref_argon2_contract "CorrectHorse1" []).
Defined.

(** The default options on the reference instance return a password of
    16 runes. *)
Example GeneratePassword_example :
  option_map fst (generator.GeneratePassword (H := scenario.E) 50
                    generator.DefaultOptions reference.empty_world)
    = Some (Ok "n3cS,H=y$p4dT.I+").
Proof. split; vm_compute; reflexivity. Qed.

(** C10 on a store that holds a salt and no test vector. *)
Lemma unlock_without_test_vector_witness :
  exists w',
    manager.UnlockVault (H := scenario.E) "CorrectHorse1"
      (manager.NewPasswordManager scenario.salt_only, scenario.salt_only)
    = (Err InvalidCredential, (manager.NewPasswordManager scenario.salt_only, w')) /\
    db w' = db scenario.salt_only /\ files w' = files scenario.salt_only.
Proof.
  destruct (unlock_without_test_vector (H := scenario.E) ref_argon2_contract
              "CorrectHorse1" (manager.NewPasswordManager scenario.salt_only)
              scenario.salt_only (SBlob (repeat Byte.x07 16)) eq_refl eq_refl)
    as (_ & _ & _ & Hunlock).
  exact Hunlock.
Defined.

(** X26 on the reference instance, with the default options. *)
Lemma GeneratePassword_sound_witness :
  match generator.GeneratePassword (H := scenario.E) 50 generator.DefaultOptions
          reference.empty_world with
  | Some (Ok password, _) =>
      String.length password = 16%nat /\
      has_class generator.lowercase password /\
      has_class generator.uppercase password /\
      has_class generator.numbers password /\
      has_class generator.symbols password
  | _ => False
  end.
Proof.
  destruct (generator.GeneratePassword (H := scenario.E) 50 generator.DefaultOptions
              reference.empty_world) as [[[password|e] w']|] eqn:Hrun.
  - destruct (GeneratePassword_sound (H := scenario.E) 50 generator.DefaultOptions
                reference.empty_world w' password Hrun)
      as ((_ & Hlen & Hl & Hu & Hn & Hs) & _).
    split; [exact Hlen|].
    split; [exact (Hl eq_refl)|]. split; [exact (Hu eq_refl)|].
    split; [exact (Hn eq_refl)|exact (Hs eq_refl)].
  - vm_compute in Hrun. discriminate Hrun.
  - vm_compute in Hrun. discriminate Hrun.
Defined.

(** C9.  [GeneratePassword] does not return for every options value
    with a positive [Length] and an included class.  The options with
    [Length] 1 and the lowercase and uppercase letters included are
    such a value.  For them the function returns no password, on no
    instance of the external packages, from no world and within no
    bound on the attempts; when [rand.Int] delivers it returns nothing
    at all, neither a password nor an error, however many attempts it
    is given: every drawn string has one rune, misses a requested
    class, and makes the function call itself again.  On the reference
    instance a hundred attempts end without a result.  The two other
    requests that cannot be met, a [Length] of 0 and no included class,
    are answered with an error at once. *)
Theorem GeneratePassword_one_rune_two_classes_never_returns :
  0 < generator.Length one_rune_two_classes /\
  generator.IncludeLowercase one_rune_two_classes = true /\
  generator.IncludeUppercase one_rune_two_classes = true /\
  (forall (E : Extern) (fuel : nat) (w w' : World) (password : string),
     generator.GeneratePassword (H := E) fuel one_rune_two_classes w
     <> Some (Ok password, w')) /\
  (forall E : Extern, rand_Int_delivers (H := E) ->
     forall (fuel : nat) (w : World),
       generator.GeneratePassword (H := E) fuel one_rune_two_classes w = None) /\
  generator.GeneratePassword (H := scenario.E) 100 one_rune_two_classes
    reference.empty_world = None /\
  (forall (E : Extern) (fuel : nat) (w : World),
     generator.GeneratePassword (H := E) (S fuel)
       (generator.mkPasswordOptions 0 true true false false false false) w
     = Some (Err (errors_New "password length must be positive"), w)) /\
  (forall (E : Extern) (fuel : nat) (w : World),
     generator.GeneratePassword (H := E) (S fuel)
       (generator.mkPasswordOptions 1 false false false false false false) w
     = Some (Err (errors_New "no character set selected"), w)).
Proof.
  split; [reflexivity|]. split; [reflexivity|]. split; [reflexivity|].
  split; [intros E fuel w w' password;
          apply (GeneratePassword_one_rune_never_returns (H := E))|].
  split; [intros E Hrand fuel w;
          apply (GeneratePassword_one_rune_diverges (H := E) fuel Hrand)|].
  split; [vm_compute; reflexivity|].
  split; intros E fuel w; reflexivity.
Qed.

(** X1 on the scenario: a search sorted by title, and an export, of
    the vault with the record. *)
Lemma operations_frame_witness :
  let by_title := models.mkSearchParams "mail" EmptyString "title" true 0 0 in
  (db (snd (after (H := scenario.E) (OpSearchPasswords by_title) scenario.with_record))
   = db (snd scenario.with_record) /\
   files (snd (after (H := scenario.E) (OpSearchPasswords by_title) scenario.with_record))
   = files (snd scenario.with_record)) /\
  files (snd (after (H := scenario.E) (OpExportVault "vault.export") scenario.with_record))
    !! "other.txt" = files (snd scenario.with_record) !! "other.txt".
Proof.
  intros by_title. split.
  - exact (operations_frame (H := scenario.E) (OpSearchPasswords by_title)
             scenario.with_record eq_refl).
  - apply (operations_frame (H := scenario.E) (OpExportVault "vault.export")
             scenario.with_record "other.txt").
    discriminate.
Defined.

(** X2 on the scenario: the vault is used, locked, tried with a wrong
    password, and unlocked again. *)
Lemma unlock_after_operations_witness :
  is_Ok (fst (manager.UnlockVault (H := scenario.E) "CorrectHorse1"
                (after_all (H := scenario.E) scenario.busy scenario.created))) = true.
Proof.
  destruct (unlock_after_operations (H := scenario.E) ref_gcm_contract ref_argon2_contract
              "CorrectHorse1" scenario.fresh scenario.created scenario.busy eq_refl eq_refl)
    as (key & w' & Hunlock & _).
  rewrite Hunlock. reflexivity.
Defined.

(** X3 on the scenario: the record gets rowid 1 and is deleted; the
    next record gets rowid 2. *)
Lemma rowid_never_reused_witness :
  exists id id' : Z,
    fst (manager.AddPassword (H := scenario.E) scenario.record scenario.created) = Ok id /\
    fst (manager.AddPassword (H := scenario.E) scenario.plain_record
           (after_all (H := scenario.E) [OpDeletePassword 1] scenario.with_record)) = Ok id' /\
    id < id'.
Proof.
  exists 1, 2. split; [vm_compute; reflexivity|]. split; [vm_compute; reflexivity|].
  apply (rowid_never_reused (H := scenario.E) scenario.record scenario.plain_record
           scenario.created scenario.with_record
           (snd (manager.AddPassword (H := scenario.E) scenario.plain_record
                   (after_all (H := scenario.E) [OpDeletePassword 1] scenario.with_record)))
           1 2 [OpDeletePassword 1]).
  - vm_compute. reflexivity.
  - reflexivity.
  - vm_compute. reflexivity.
Defined.

Lemma with_record_Unlocked : Unlocked (fst scenario.with_record) scenario.vault_key.
Proof. repeat split. Qed.

(** X4 on the scenario: the record of the vault is deleted. *)
Lemma delete_then_get_witness :
  exists s1 : manager.State,
    manager.DeletePassword 1
      (fst scenario.with_record, snd scenario.with_record) = (Ok tt, s1) /\
    (exists s2, manager.GetPassword (H := scenario.E) 1 s1 = (Err sql_ErrNoRows, s2)) /\
    (forall id', id' <> 1 ->
       storage.find_password id' (db (snd s1))
       = storage.find_password id' (db (snd scenario.with_record))) /\
    (storage.find_password 1 (db (snd scenario.with_record)) = None ->
     db (snd s1) = db (snd scenario.with_record)) /\
    config (db (snd s1)) = config (db (snd scenario.with_record)) /\
    files (snd s1) = files (snd scenario.with_record).
Proof.
  exact (delete_then_get (H := scenario.E) (fst scenario.with_record)
           (snd scenario.with_record) 1 eq_refl).
Defined.

(** X5 on the scenario: the record gets a new password and loses its
    notes, and is read back so. *)
Lemma update_then_get_witness :
  exists (s1 : manager.State) (got : models.PasswordEntry) (s2 : manager.State),
    manager.UpdatePassword (H := scenario.E) scenario.changed
      (fst scenario.with_record, snd scenario.with_record) = (Ok tt, s1) /\
    manager.GetPassword (H := scenario.E) (models.ID scenario.changed) s1 = (Ok got, s2) /\
    models.Title got = models.Title scenario.changed /\
    models.Password got = models.Password scenario.changed /\
    models.Notes got = models.Notes scenario.changed /\
    models.CreatedAt got = storage.parse_time (H := scenario.E) "1700000000".
Proof.
  pose proof (update_then_get (H := scenario.E) ref_gcm_contract scenario.changed
                (fst scenario.with_record) (snd scenario.with_record) scenario.vault_key
                scenario.stored "1700000000" with_record_Unlocked eq_refl eq_refl)
    as Hupdate.
  destruct (manager.UpdatePassword (H := scenario.E) scenario.changed
              (fst scenario.with_record, snd scenario.with_record))
    as [[[]|e] s1] eqn:Hrun.
  - destruct Hupdate as (got & s2 & HG & _ & Ht & _ & _ & _ & Hp & Hn & Hc).
    exists s1, got, s2. repeat split; assumption.
  - vm_compute in Hrun. discriminate Hrun.
Defined.

(** X6 on the scenario: an update of id 7, which the vault does not
    hold. *)
Lemma update_touches_one_id_witness :
  let entry := models.mkPasswordEntry 7 "ghost" EmptyString EmptyString "x" EmptyString
                 EmptyString 0 0 in
  match manager.UpdatePassword (H := scenario.E) entry
          (fst scenario.with_record, snd scenario.with_record) with
  | (Ok _, s1) =>
      List.map col_id (passwords (db (snd s1)))
        = List.map col_id (passwords (db (snd scenario.with_record))) /\
      (forall id, id <> models.ID entry ->
         storage.find_password id (db (snd s1))
         = storage.find_password id (db (snd scenario.with_record))) /\
      (storage.find_password (models.ID entry) (db (snd scenario.with_record)) = None ->
       db (snd s1) = db (snd scenario.with_record)) /\
      config (db (snd s1)) = config (db (snd scenario.with_record))
  | (Err e, s1) => entropy_error e /\ db (snd s1) = db (snd scenario.with_record)
  end.
Proof.
  exact (update_touches_one_id (H := scenario.E)
           (models.mkPasswordEntry 7 "ghost" EmptyString EmptyString "x" EmptyString
              EmptyString 0 0)
           (fst scenario.with_record) (snd scenario.with_record) scenario.vault_key
           with_record_Unlocked).
Defined.

(** X8 on the scenario: a record with a title and a password only. *)
Lemma import_accepts_rows_that_do_not_scan_witness :
  fst (storage.GetPassword (H := scenario.E) 1
         (snd (storage.ImportData [scenario.good_entry "first"] reference.empty_world)))
    = Err null_scan_error /\
  fst (storage.ExportData (H := scenario.E)
         (snd (storage.ImportData [scenario.good_entry "first"] reference.empty_world)))
    = Err null_scan_error.
Proof.
  apply (import_accepts_rows_that_do_not_scan (H := scenario.E)
           (scenario.good_entry "first") "url" reference.empty_world
           (snd (storage.ImportData [scenario.good_entry "first"] reference.empty_world))).
  - left. reflexivity.
  - vm_compute. reflexivity.
  - vm_compute. reflexivity.
Defined.

(** X10 on the reference instance: the default options exclude the
    similar runes. *)
Lemma GeneratePassword_runes_witness :
  match generator.GeneratePassword (H := scenario.E) 50 generator.DefaultOptions
          reference.empty_world with
  | Some (Ok password, _) =>
      forall c, In c (list_ascii_of_string password) ->
                generator.containsRune generator.similar c = false
  | _ => False
  end.
Proof.
  destruct (generator.GeneratePassword (H := scenario.E) 50 generator.DefaultOptions
              reference.empty_world) as [[[password|e] w']|] eqn:Hrun.
  - intros c Hin.
    destruct (GeneratePassword_runes (H := scenario.E) 50 generator.DefaultOptions
                reference.empty_world w' password c Hrun Hin) as (_ & Hsimilar & _).
    exact (Hsimilar eq_refl).
  - vm_compute in Hrun. discriminate Hrun.
  - vm_compute in Hrun. discriminate Hrun.
Defined.



Lemma dry_argon2_contract :
  forall (password salt : bytes) (time memory threads : Z) (keyLen : nat),
    length (argon2_IDKey (Extern := scenario.E_dry) password salt time memory threads keyLen)
    = keyLen.
Proof. intros. apply ref_IDKey_length. Qed.

(** X15 on an entropy source that runs dry after the salt: the creation
    fails at the test vector, the salt stays in the store, and no
    password unlocks the vault. *)
Lemma CreateMasterPassword_outcomes_witness :
  exists s1 : manager.State,
    manager.CreateMasterPassword (H := scenario.E_dry) "CorrectHorse1"
      (fst scenario.fresh, snd scenario.fresh)
      = (Err (fmt_Errorf "failed to encrypt test vector" rand_error), s1) /\
    is_Some (config (db (snd s1)) !! "salt") /\
    forall (q : string) (pm' : manager.PasswordManager),
      fst (manager.UnlockVault (H := scenario.E_dry) q (pm', snd s1))
      = Err InvalidCredential.
Proof.
  pose proof (CreateMasterPassword_outcomes (H := scenario.E_dry) dry_argon2_contract
                "CorrectHorse1" (fst scenario.fresh) (snd scenario.fresh)
                (fun value w => conj eq_refl eq_refl)) as Hout.
  destruct (fst (crypto.GenerateSalt (H := scenario.E_dry) (snd scenario.fresh)))
    as [salt|e] eqn:Hsalt; [|vm_compute in Hsalt; discriminate Hsalt].
  destruct Hout as [_ Hout].
  destruct (fst (crypto.io_ReadFull_rand (H := scenario.E_dry) crypto.gcm_NonceSize
                   (tick_rand (snd scenario.fresh))))
    as [nonce|e] eqn:Hnonce; [vm_compute in Hnonce; discriminate Hnonce|].
  vm_compute in Hnonce. injection Hnonce as <-.
  destruct Hout as (s1 & Hrun & Hcfg & _ & _ & _ & Hstuck).
  exists s1. split; [exact Hrun|].
  split; [rewrite Hcfg, lookup_insert_eq; eexists; reflexivity|].
  apply Hstuck. reflexivity.
Defined.

(** X16 on the scenario: the third pair of passwords is accepted. *)
Lemma createMasterPassword_asks_twice_witness :
  exists (r : result unit) (t' : main.Terminal) (s' : manager.State),
    main.createMasterPassword (H := scenario.E) 6 (scenario.typed, scenario.fresh)
      = Some (r, (t', s')) /\
    ((exists (p : string) (before : list (result string)),
        (8 <= String.length p)%nat /\
        main.keyed scenario.typed = (before ++ Ok p :: Ok p :: main.keyed t')%list /\
        manager.CreateMasterPassword (H := scenario.E) p scenario.fresh = (r, s')) \/
     (exists e : error,
        r = Err e /\ s' = scenario.fresh /\
        ((exists before,
            main.keyed scenario.typed = (before ++ Err e :: main.keyed t')%list) \/
         main.keyed t' = [] /\ e = main.closed scenario.typed))).
Proof.
  apply (createMasterPassword_asks_twice (H := scenario.E) 6 scenario.typed scenario.fresh).
  vm_compute. lia.
Defined.

(** X19 at an answer in mixed case, with the default off. *)
Lemma confirmOption_spellings_witness :
  main.confirmOption (fun s => s) "Yes" false = true /\
  main.confirmOption (fun s => s) "ok" true = false.
Proof.
  split.
  - exact (confirmOption_spellings (fun s => s) "Yes" false eq_refl).
  - exact (confirmOption_spellings (fun s => s) "ok" true eq_refl).
Defined.

(** X20 on the scenario: a new manager over the store of the vault with
    the record. *)
Lemma record_survives_restart_witness :
  exists (s3 s4 : manager.State) (got : models.PasswordEntry),
    manager.UnlockVault (H := scenario.E) "CorrectHorse1"
      (manager.NewPasswordManager (snd scenario.with_record), snd scenario.with_record)
      = (Ok tt, s3) /\
    manager.GetPassword (H := scenario.E) 1 s3 = (Ok got, s4) /\
    models.ID got = 1 /\
    models.Title got = models.Title scenario.record /\
    models.URL got = models.URL scenario.record /\
    models.Username got = models.Username scenario.record /\
    models.Category got = models.Category scenario.record /\
    models.Password got = models.Password scenario.record /\
    models.Notes got = models.Notes scenario.record.
Proof.
  apply (record_survives_restart (H := scenario.E) ref_gcm_contract ref_argon2_contract
           "CorrectHorse1" scenario.record scenario.fresh scenario.created
           scenario.with_record 1
           (manager.NewPasswordManager (snd scenario.with_record))).
  - reflexivity.
  - vm_compute. reflexivity.
Defined.


(** X24 on the scenario: the export of the vault with one record. *)
Lemma exported_file_opens_witness :
  exists (data text : string) (blob : bytes) (entries : list (gmap string GoVal)),
    files (snd scenario.exported) !! "vault.export" = Some data /\
    base64.DecodeString data = Ok blob /\
    crypto.Decrypt (H := scenario.E) blob scenario.vault_key = Ok text /\
    storage.export_rows (H := scenario.E) (passwords (db (snd scenario.with_record)))
      = Ok entries /\
    length entries = length (passwords (db (snd scenario.with_record))) /\
    encoding_json.Unmarshal (H := scenario.E) text
      = Ok (List.map (fmap (reread (H := scenario.E))) entries).
Proof.
  apply (exported_file_opens (H := scenario.E) ref_gcm_contract ref_json_contract
           "vault.export" (fst scenario.with_record) (snd scenario.with_record)
           scenario.vault_key scenario.exported).
  - repeat split.
  - vm_compute. reflexivity.
Defined.
